(** * webextension-build-utils: the configuration mutators of [src/index.ts]

    The seven exported functions of [index.ts] mutate a webpack
    configuration object in place.  They are embedded here as programs of a
    small state-and-exception monad over a JavaScript heap, so that in-place
    mutation, aliasing, absent properties, truthiness and [TypeError]s are
    what the source makes them.

    The fragment of JavaScript that is modelled:
    - values are [undefined], [null], booleans, strings and references;
      numbers only occur as the result of the sort comparator (a [Z]);
    - a heap object has a class, an internal slot (none, the elements of an
      array, the source of a regular expression) and its own string-keyed
      properties; functions stored in a configuration are objects like any
      other, since this module never calls them;
    - a property that is not an own property reads as [undefined]: the only
      inherited property the module reads is [constructor], which has its
      own primitive; of the inherited accessors only the setter of
      [__proto__] is modelled, which an assignment to a computed key can
      reach; other getters, setters and proxies are not modelled;
    - the module is compiled in strict mode, so an assignment to a property
      of a primitive raises [TypeError];
    - [Array.prototype.sort] is the stable sort of ECMAScript 2019. *)

From stdpp Require Import gmap strings list fin_maps pretty.
From Stdlib Require Import ZArith Lia.

Local Open Scope string_scope.
Local Open Scope list_scope.

(** ** Values, classes and objects *)

Module JS.

Definition loc := positive.

(** The three plugin classes that [index.ts] imports are distinguished
    constructors.  [Loaded name inst parent] is any other class: [inst] tells
    apart two classes of the same name, such as the second copy of
    [zip-webpack-plugin] that [npm link] brings in. *)
Inductive class : Type :=
  | ObjectC
  | ArrayC
  | RegExpC
  | FunctionC
  | ZipPlugin
  | CopyPlugin
  | DuplicatePackageCheckerPlugin
  | Loaded (name : string) (inst : nat) (parent : class).

Fixpoint class_eqb (c d : class) : bool :=
  match c, d with
  | ObjectC, ObjectC | ArrayC, ArrayC | RegExpC, RegExpC
  | FunctionC, FunctionC | ZipPlugin, ZipPlugin | CopyPlugin, CopyPlugin
  | DuplicatePackageCheckerPlugin, DuplicatePackageCheckerPlugin => true
  | Loaded n i p, Loaded m j q =>
      String.eqb n m && Nat.eqb i j && class_eqb p q
  | _, _ => false
  end.

(** [class_name c] is [c.name], the name the class was declared with. *)
Definition class_name (c : class) : string :=
  match c with
  | ObjectC => "Object"
  | ArrayC => "Array"
  | RegExpC => "RegExp"
  | FunctionC => "Function"
  | ZipPlugin => "ZipPlugin"
  | CopyPlugin => "CopyPlugin"
  | DuplicatePackageCheckerPlugin => "DuplicatePackageCheckerPlugin"
  | Loaded n _ _ => n
  end.

(** [extends c d]: the prototype of [d] is on the prototype chain of an
    instance of [c]. *)
Fixpoint extends (c d : class) : bool :=
  class_eqb c d ||
  match c with
  | Loaded _ _ p => extends p d
  | _ => false
  end.

Inductive val : Type :=
  | VUndefined
  | VNull
  | VBool (b : bool)
  | VString (s : string)
  | VRef (l : loc).

#[global] Instance val_eq_dec : EqDecision val.
Proof. solve_decision. Defined.

Inductive slot : Type :=
  | SNone
  | SArray (elems : list val)
  | SRegExp (source : string).

Record obj : Type := Obj {
  cls : class;
  internal : slot;
  own : gmap string val;
}.

Abbreviation heap := (gmap loc obj).

Inductive exn : Type :=
  | TypeError
  | DanglingRef.

Inductive outcome (A : Type) : Type :=
  | Ok (a : A)
  | Throw (e : exn).
Arguments Ok {A} a.
Arguments Throw {A} e.

(** ** The monad: a heap is threaded, an exception stops the run and keeps
    the heap as it was when it was raised. *)

Definition M (A : Type) : Type := heap -> outcome A * heap.

Definition ret {A} (a : A) : M A := fun h => (Ok a, h).

Definition throw {A} (e : exn) : M A := fun h => (Throw e, h).

Definition bind {A B} (m : M A) (k : A -> M B) : M B :=
  fun h =>
    match m h with
    | (Ok a, h') => k a h'
    | (Throw e, h') => (Throw e, h')
    end.

End JS.

Import JS.

Declare Scope js_scope.
Delimit Scope js_scope with js.
Notation "'let*' x ':=' m 'in' k" := (bind m (fun x => k))
  (at level 10, x name, m at level 100, k at level 200) : js_scope.
Notation "m ';;' k" := (bind m (fun _ => k))
  (at level 100, k at level 200, right associativity) : js_scope.
Local Open Scope js_scope.

(** ** Reading the heap *)

(** Truthiness ([ToBoolean]): the falsy values of the fragment are
    [undefined], [null], [false] and the empty string. *)
Definition truthy (v : val) : bool :=
  match v with
  | VUndefined | VNull => false
  | VBool b => b
  | VString s => negb (String.eqb s "")
  | VRef _ => true
  end.

(** [a || b] on values; [b] is a value here because every right operand
    that has an effect is written out with [or_else] below. *)
Definition js_or (a b : val) : val := if truthy a then a else b.

(** [v !== undefined ? v : d], how a default parameter is filled in. *)
Definition default_param (v d : val) : val :=
  match v with
  | VUndefined => d
  | _ => v
  end.

(** The allocator: one past the largest location in use. *)
Definition max_loc (h : heap) : loc :=
  map_fold (fun l _ m => Pos.max l m) 1%positive h.

Definition fresh_loc (h : heap) : loc := Pos.succ (max_loc h).

(** Pure observers of a heap, used by the primitives and by the
    statements. *)
Definition field (h : heap) (l : loc) (k : string) : val :=
  match h !! l with
  | Some o => default VUndefined (own o !! k)
  | None => VUndefined
  end.

Definition elems_at (h : heap) (l : loc) : option (list val) :=
  match h !! l with
  | Some o => match internal o with SArray es => Some es | _ => None end
  | None => None
  end.

Definition elems_of (h : heap) (v : val) : option (list val) :=
  match v with
  | VRef l => elems_at h l
  | _ => None
  end.

Definition class_at (h : heap) (l : loc) : option class :=
  cls <$> h !! l.

Definition slot_at (h : heap) (l : loc) : option slot :=
  internal <$> h !! l.

(** ** Primitive operations *)

Definition alloc (o : obj) : M val :=
  fun h => let l := fresh_loc h in (Ok (VRef l), <[l := o]> h).

(** [{ k1: v1, ... }] *)
Definition new_object (props : gmap string val) : M val :=
  alloc (Obj ObjectC SNone props).

(** [[v1, ...]] *)
Definition new_array (es : list val) : M val :=
  alloc (Obj ArrayC (SArray es) ∅).

(** A regular expression literal [/source/]. *)
Definition new_regexp (source : string) : M val :=
  alloc (Obj RegExpC (SRegExp source) ∅).

(** [new C(...)] for a class whose constructor stores [props]. *)
Definition new_instance (c : class) (props : gmap string val) : M val :=
  alloc (Obj c SNone props).

(** [new CopyPlugin(patterns)]: the constructor of copy-webpack-plugin
    keeps its two parameters, [this.patterns = patterns] and [this.options
    = options], the second being [{}] when it is not given. *)
Definition new_copy_plugin (patterns : val) : M val :=
  let* options := new_object ∅ in
  new_instance CopyPlugin {[ "patterns" := patterns; "options" := options ]}.

(** [v.k] *)
Definition get_prop (v : val) (k : string) : M val :=
  fun h =>
    match v with
    | VUndefined | VNull => (Throw TypeError, h)
    | VBool _ | VString _ => (Ok VUndefined, h)
    | VRef l =>
        match h !! l with
        | Some o => (Ok (default VUndefined (own o !! k)), h)
        | None => (Throw DanglingRef, h)
        end
    end.

(** [v.k = x] in strict mode. *)
Definition set_prop (v : val) (k : string) (x : val) : M unit :=
  fun h =>
    match v with
    | VRef l =>
        match h !! l with
        | Some o => (Ok tt, <[l := Obj (cls o) (internal o) (<[k := x]> (own o))]> h)
        | None => (Throw DanglingRef, h)
        end
    | _ => (Throw TypeError, h)
    end.

(** [v[k] = x] for a computed key [k], in strict mode.  On an object that
    has no own property ['__proto__'] an assignment to that key reaches the
    setter it inherits from [Object.prototype]: no own property is made.
    The setter ignores a value that is neither an object nor [null] and
    gives the object another prototype otherwise, which its own properties
    do not show. *)
Definition set_computed (v : val) (k : string) (x : val) : M unit :=
  fun h =>
    match v with
    | VRef l =>
        match h !! l with
        | Some o =>
            if String.eqb k "__proto__" && bool_decide (own o !! k = None)
            then (Ok tt, h)
            else set_prop v k x h
        | None => (Throw DanglingRef, h)
        end
    | _ => set_prop v k x h
    end.

(** [Array.isArray(v)] *)
Definition is_array (v : val) : M bool :=
  fun h => (Ok (bool_decide (is_Some (elems_of h v))), h).

(** The elements of the array a method is called on.  [v.push], [v.some],
    [v.sort] and [v.map] are [undefined] on every value that is not an
    array (and reading them off [undefined] or [null] raises), so the call
    raises [TypeError]. *)
Definition array_elems (v : val) : M (list val) :=
  fun h =>
    match v with
    | VRef l =>
        match h !! l with
        | Some o =>
            match internal o with
            | SArray es => (Ok es, h)
            | _ => (Throw TypeError, h)
            end
        | None => (Throw DanglingRef, h)
        end
    | _ => (Throw TypeError, h)
    end.

(** Overwrites the elements of an array, keeping its identity, class and
    named properties. *)
Definition set_elems (v : val) (es : list val) : M unit :=
  fun h =>
    match v with
    | VRef l =>
        match h !! l with
        | Some o =>
            match internal o with
            | SArray _ => (Ok tt, <[l := Obj (cls o) (SArray es) (own o)]> h)
            | _ => (Throw TypeError, h)
            end
        | None => (Throw DanglingRef, h)
        end
    | _ => (Throw TypeError, h)
    end.

(** [v.push(x)] *)
Definition push (v x : val) : M unit :=
  let* es := array_elems v in
  set_elems v (es ++ [x]).

(** [a || e] where evaluating [e] allocates. *)
Definition or_else (a : val) (e : M val) : M val :=
  if truthy a then ret a else e.

(** [x instanceof C] for one of the imported classes [C]. *)
Definition instanceof (x : val) (c : class) : M bool :=
  fun h =>
    match x with
    | VRef l =>
        match h !! l with
        | Some o => (Ok (extends (cls o) c), h)
        | None => (Throw DanglingRef, h)
        end
    | _ => (Ok false, h)
    end.

(** [x.constructor.name]: an own [constructor] property shadows the one
    inherited from the class. *)
Definition get_constructor_name (x : val) : M val :=
  fun h =>
    match x with
    | VUndefined | VNull => (Throw TypeError, h)
    | VBool _ => (Ok (VString "Boolean"), h)
    | VString _ => (Ok (VString "String"), h)
    | VRef l =>
        match h !! l with
        | Some o =>
            match own o !! "constructor" with
            | Some c => get_prop c "name" h
            | None => (Ok (VString (class_name (cls o))), h)
            end
        | None => (Throw DanglingRef, h)
        end
    end.

(** The own enumerable properties that [{...v}] copies: the elements of an
    array and the characters of a string are copied under their indices. *)
Definition indexed (xs : list val) : gmap string val :=
  list_to_map (imap (fun i x => (pretty i, x)) xs).

Definition chars (s : string) : list val :=
  (fun a => VString (String a EmptyString)) <$> String.list_ascii_of_string s.

Definition spread_props (v : val) : M (gmap string val) :=
  fun h =>
    match v with
    | VRef l =>
        match h !! l with
        | Some o =>
            match internal o with
            | SArray es => (Ok (own o ∪ indexed es), h)
            | _ => (Ok (own o), h)
            end
        | None => (Throw DanglingRef, h)
        end
    | VString s => (Ok (indexed (chars s)), h)
    | _ => (Ok ∅, h)
    end.

(** The values that [for (const x of v)] and [[...v]] run through: arrays
    and strings are the iterables of the fragment. *)
Definition iterate (v : val) : M (list val) :=
  fun h =>
    match v with
    | VString s => (Ok (chars s), h)
    | VRef l =>
        match h !! l with
        | Some o =>
            match internal o with
            | SArray es => (Ok es, h)
            | _ => (Throw TypeError, h)
            end
        | None => (Throw DanglingRef, h)
        end
    | _ => (Throw TypeError, h)
    end.

(** A loop body run on each value in turn. *)
Fixpoint for_each (xs : list val) (body : val -> M unit) : M unit :=
  match xs with
  | [] => ret tt
  | x :: xs' => body x ;; for_each xs' body
  end.

(** [v.some(f)]: stops at the first element [f] accepts. *)
Fixpoint some_of (f : val -> M bool) (xs : list val) : M bool :=
  match xs with
  | [] => ret false
  | x :: xs' => let* b := f x in if b then ret true else some_of f xs'
  end.

Definition array_some (f : val -> M bool) (v : val) : M bool :=
  let* es := array_elems v in some_of f es.

(** [v.map(f)]: a new array. *)
Fixpoint map_each (f : val -> M val) (xs : list val) : M (list val) :=
  match xs with
  | [] => ret []
  | x :: xs' =>
      let* y := f x in
      let* ys := map_each f xs' in
      ret (y :: ys)
  end.

Definition array_map (f : val -> M val) (v : val) : M val :=
  let* es := array_elems v in
  let* ys := map_each f es in
  new_array ys.

(** [v.sort(cmp)].  ECMAScript 2019 makes the sort stable, and for a
    consistent comparator its result is the one stable ordering, whatever
    algorithm the engine runs: insertion into the sorted rest computes it.
    [undefined] elements are never handed to the comparator and end up
    last.  The array is sorted in place and returned; when the comparator
    raises, the array is left as it was. *)
Fixpoint insert_by (cmp : val -> val -> M Z) (x : val) (l : list val)
  : M (list val) :=
  match l with
  | [] => ret [x]
  | y :: ys =>
      let* c := cmp x y in
      if (c <=? 0)%Z then ret (x :: y :: ys)
      else let* r := insert_by cmp x ys in ret (y :: r)
  end.

Fixpoint sort_by (cmp : val -> val -> M Z) (l : list val) : M (list val) :=
  match l with
  | [] => ret []
  | x :: xs => let* s := sort_by cmp xs in insert_by cmp x s
  end.

Definition is_undefined (v : val) : bool :=
  match v with VUndefined => true | _ => false end.

Definition array_sort (cmp : val -> val -> M Z) (v : val) : M val :=
  let* es := array_elems v in
  let* s := sort_by cmp (filter (fun x => is_undefined x = false) es) in
  set_elems v (s ++ filter (fun x => is_undefined x = true) es) ;;
  ret v.

Definition strings_of (vs : list val) : option (list string) :=
  mapM (fun v => match v with VString s => Some s | _ => None end) vs.

(** [target.k = target.k || dflt;] where [target] is an expression without
    effect (the variable [config], or [config.resolve]): it is evaluated
    once for the reference that is assigned to and once more on the right
    hand side. *)
Definition default_prop (target : M val) (k : string) (dflt : M val)
  : M unit :=
  let* assigned := target in
  let* read := target in
  let* old := get_prop read k in
  let* value := or_else old dflt in
  set_prop assigned k value.

(** [{ k1: d1, ..., ...options }] once the defaults [d1], ... are
    evaluated: the own properties of [options] over the defaults, in a new
    object. *)
Definition merge_options (defaults : gmap string val) (options : val)
  : M val :=
  let* given := spread_props options in
  new_object (given ∪ defaults).

(** ** The functions of [index.ts] *)

Section Index.

(** The collaborators [index.ts] imports.  [path.join] and [path.resolve]
    are functions of their string arguments (the working directory is fixed
    during a call) and raise [TypeError] on any other argument.
    [GlobEntriesPlugin.getEntries] is given by the object it returns for a
    list of glob patterns.  [object_to_string] is [ToString] on an object,
    which runs the object's own [toString]. *)
Variable path_join : list string -> string.
Variable path_resolve : list string -> string.
Variable getEntries : list val -> obj.
Variable object_to_string : heap -> loc -> string.

Definition path_join_js (args : list val) : M val :=
  match strings_of args with
  | Some ss => ret (VString (path_join ss))
  | None => throw TypeError
  end.

Definition path_resolve_js (args : list val) : M val :=
  match strings_of args with
  | Some ss => ret (VString (path_resolve ss))
  | None => throw TypeError
  end.

(** [ToString], as a template literal and a computed property key apply
    it. *)
Definition js_string (h : heap) (v : val) : string :=
  match v with
  | VUndefined => "undefined"
  | VNull => "null"
  | VBool true => "true"
  | VBool false => "false"
  | VString s => s
  | VRef l => object_to_string h l
  end.

Definition to_string (v : val) : M string :=
  fun h => (Ok (js_string h v), h).

(** [v == name] for a string literal [name] that is not a numeral and not
    empty, as ['ZipPlugin'] is: a boolean, [undefined] and [null] never
    equal it, an object is first converted to a string. *)
Definition loose_eq_name (v : val) (name : string) : M bool :=
  fun h =>
    match v with
    | VString s => (Ok (String.eqb s name), h)
    | VRef l => (Ok (String.eqb (object_to_string h l) name), h)
    | _ => (Ok false, h)
    end.

(** [const isZipPlugin = (x: any) =>
      (x instanceof ZipPlugin || x.constructor.name == 'ZipPlugin')] *)
Definition isZipPlugin (x : val) : M bool :=
  let* inst := instanceof x ZipPlugin in
  if inst then ret true
  else
    let* name := get_constructor_name x in
    loose_eq_name name "ZipPlugin".

Definition fixZipPackage (config : val) : M unit :=
  let* plugins := get_prop config "plugins" in
  if negb (truthy plugins) then ret tt
  else
    let* plugins := get_prop config "plugins" in
    let* sorted :=
      array_sort (fun a b =>
        let* aIsZip := isZipPlugin a in
        let* bIsZip := isZipPlugin b in
        ret ((if aIsZip then 1 else 0) - (if bIsZip then 1 else 0))%Z)
        plugins in
    set_prop config "plugins" sorted.

Definition getDedupeAliases (modules folder : val) : M val :=
  let folder := default_param folder (VString "./node_modules") in
  let* alias := new_object ∅ in
  let* mods := iterate modules in
  for_each mods (fun mod_ =>
    let* joined := path_join_js [folder; mod_] in
    let* resolved := path_resolve_js [joined] in
    let* key := to_string mod_ in
    set_computed alias key resolved) ;;
  ret alias.

Definition dedupeModules (config modules folder : val) : M unit :=
  let folder := default_param folder (VString "./node_modules") in
  (* config.resolve = config.resolve || {}; *)
  default_prop (ret config) "resolve" (new_object ∅) ;;
  (* config.resolve.alias = { ...config.resolve.alias, ...getDedupeAliases(...) } *)
  let* target := get_prop config "resolve" in
  let* resolve := get_prop config "resolve" in
  let* old := get_prop resolve "alias" in
  let* old_props := spread_props old in
  let* dedupe := getDedupeAliases modules folder in
  let* new_props := spread_props dedupe in
  let* merged := new_object (new_props ∪ old_props) in
  set_prop target "alias" merged ;;
  (* config.plugins = config.plugins || []; *)
  default_prop (ret config) "plugins" (new_array []) ;;
  let* plugins := get_prop config "plugins" in
  let* found :=
    array_some (fun p => instanceof p DuplicatePackageCheckerPlugin) plugins in
  if negb found then
    let* plugins := get_prop config "plugins" in
    let* checker := new_instance DuplicatePackageCheckerPlugin ∅ in
    push plugins checker
  else ret tt.

(** [config.module = config.module || { rules: [] };] *)
Definition init_module (config : val) : M unit :=
  default_prop (ret config) "module"
    (let* rules := new_array [] in new_object {[ "rules" := rules ]}).

(** [config.module.rules.push(rule)] for a rule literal [rule]. *)
Definition push_rule (config : val) (rule : M val) : M unit :=
  let* module := get_prop config "module" in
  let* rules := get_prop module "rules" in
  let* r := rule in
  push rules r.

Definition useSourceMap (config dev : val) : M unit :=
  if truthy dev then
    set_prop config "devtool" (VString "cheap-module-source-map") ;;
    init_module config ;;
    push_rule config
      (let* test := new_regexp "\.js$" in
       let* use := new_array [VString "source-map-loader"] in
       new_object {[ "test" := test; "use" := use;
                     "enforce" := VString "pre" ]})
  else
    set_prop config "devtool" (VString "source-map").

Definition ENTRY_FILES : string := "*.{js,mjs,jsx,ts,tsx}".

(** The statements of [useTypescript], in the groups the source separates
    by blank lines and comments. *)

(** [const options_ = { entryPaths: [path.resolve(config.context || 'app',
    '**')], modules: ['./node_modules'], tsConfigFile: 'tsconfig.json',
    ...options }] *)
Definition typescript_options (config options : val) : M val :=
  let* context := get_prop config "context" in
  let* root := path_resolve_js [js_or context (VString "app"); VString "**"] in
  let* entryPaths := new_array [root] in
  let* modules := new_array [VString "./node_modules"] in
  merge_options {[ "entryPaths" := entryPaths; "modules" := modules;
                   "tsConfigFile" := VString "tsconfig.json" ]} options.

(** [config.resolve = config.resolve || {}; ...extensions = ... || [];
    ...modules = ... || []; ...extensions.push('.ts'); ...push('.tsx');] *)
Definition typescript_extensions (config : val) : M unit :=
  default_prop (ret config) "resolve" (new_object ∅) ;;
  default_prop (get_prop config "resolve") "extensions" (new_array []) ;;
  default_prop (get_prop config "resolve") "modules" (new_array []) ;;
  let* resolve := get_prop config "resolve" in
  let* extensions := get_prop resolve "extensions" in
  push extensions (VString ".ts") ;;
  let* resolve := get_prop config "resolve" in
  let* extensions := get_prop resolve "extensions" in
  push extensions (VString ".tsx").

(** [config.resolve.modules = [...config.resolve.modules,
    ...options_.modules];] *)
Definition typescript_modules (config options_ : val) : M unit :=
  let* target := get_prop config "resolve" in
  let* resolve := get_prop config "resolve" in
  let* mods := get_prop resolve "modules" in
  let* old_mods := iterate mods in
  let* extra := get_prop options_ "modules" in
  let* new_mods := iterate extra in
  let* all_mods := new_array (old_mods ++ new_mods) in
  set_prop target "modules" all_mods.

(** [config.entry = GlobEntriesPlugin.getEntries(
      options_.entryPaths.map(p => path.resolve(p, ENTRY_FILES)));] *)
Definition typescript_entry (config options_ : val) : M unit :=
  let* paths := get_prop options_ "entryPaths" in
  let* globs :=
    array_map (fun p => path_resolve_js [p; VString ENTRY_FILES]) paths in
  let* patterns := array_elems globs in
  let* entry := alloc (getEntries patterns) in
  set_prop config "entry" entry.

(** [config.module = config.module || { rules: [] };] and the two
    [config.module.rules.push({...})] for tslint-loader and ts-loader. *)
Definition typescript_rules (config options_ : val) : M unit :=
  init_module config ;;
  push_rule config
    (let* test := new_regexp "\.(ts|tsx)$" in
     let* tsConfigFile := get_prop options_ "tsConfigFile" in
     let* opts := new_object {[ "tsConfigFile" := tsConfigFile;
                                "emitErrors" := VBool true ]} in
     let* loader := new_object {[ "loader" := VString "tslint-loader";
                                  "options" := opts ]} in
     let* use := new_array [loader] in
     new_object {[ "test" := test; "enforce" := VString "pre";
                   "use" := use ]}) ;;
  push_rule config
    (let* test := new_regexp "\.(ts|tsx)$" in
     let* loader := new_object {[ "loader" := VString "ts-loader" ]} in
     let* use := new_array [loader] in
     new_object {[ "test" := test; "use" := use ]}).

Definition useTypescript (config options : val) : M unit :=
  let* options_ := typescript_options config options in
  typescript_extensions config ;;
  typescript_modules config options_ ;;
  typescript_entry config options_ ;;
  typescript_rules config options_.

(** [{ test: /\.css$/, use: [{ loader: 'style-loader' },
    { loader: 'css-loader' }] }] *)
Definition css_rule : M val :=
  let* test := new_regexp "\.css$" in
  let* style := new_object {[ "loader" := VString "style-loader" ]} in
  let* css := new_object {[ "loader" := VString "css-loader" ]} in
  let* use := new_array [style; css] in
  new_object {[ "test" := test; "use" := use ]}.

(** The rule for images, with [options_.imagePath] in two template
    literals and [!options_.optimizeImages]. *)
Definition image_rule (options_ : val) : M val :=
  let* test := new_regexp "\.(bmp|gif|jpg|jpeg|png|svg|tif|tiff|webp)$" in
  let* imagePath := get_prop options_ "imagePath" in
  let* outputPath := to_string imagePath in
  let* imagePath := get_prop options_ "imagePath" in
  let* publicPath := to_string imagePath in
  let* fileOpts :=
    new_object {[ "outputPath" := VString (outputPath +:+ "/");
                  "publicPath" := VString ("/" +:+ publicPath +:+ "/") ]} in
  let* file := new_object {[ "loader" := VString "file-loader";
                             "options" := fileOpts ]} in
  let* optimizeImages := get_prop options_ "optimizeImages" in
  let* imgOpts :=
    new_object {[ "disable" := VBool (negb (truthy optimizeImages)) ]} in
  let* image := new_object {[ "loader" := VString "image-webpack-loader";
                              "options" := imgOpts ]} in
  let* use := new_array [file; image] in
  new_object {[ "test" := test; "use" := use ]}.

Definition useCss (config options : val) : M unit :=
  let* options_ :=
    merge_options {[ "optimizeImages" := VBool true;
                     "imagePath" := VString "images" ]} options in
  init_module config ;;
  push_rule config css_rule ;;
  push_rule config (image_rule options_).

Definition useExternal (config def : val) : M unit :=
  (* const external = { [def.module]: def.global }; *)
  let* module := get_prop def "module" in
  let* key := to_string module in
  let* global := get_prop def "global" in
  let* external := new_object {[ key := global ]} in
  let* externals := get_prop config "externals" in
  (if truthy externals then
     let* externals := get_prop config "externals" in
     let* isArr := is_array externals in
     if isArr then
       let* externals := get_prop config "externals" in
       push externals external
     else
       let* old := get_prop config "externals" in
       let* both := new_array [old; external] in
       set_prop config "externals" both
   else
     set_prop config "externals" external) ;;
  (* config.plugins = config.plugins || []; *)
  default_prop (ret config) "plugins" (new_array []) ;;
  let* from := get_prop def "from" in
  let* both_given :=
    (if truthy from then let* to := get_prop def "to" in ret (truthy to)
     else ret false) in
  if both_given then
    let* plugins := get_prop config "plugins" in
    let* from := get_prop def "from" in
    let* to := get_prop def "to" in
    let* pattern := new_object {[ "from" := from; "to" := to;
                                  "cache" := VBool true ]} in
    let* patterns := new_array [pattern] in
    let* copy := new_copy_plugin patterns in
    push plugins copy
  else ret tt.

End Index.

(** ** Observers and heap updates used in the statements *)

Definition alive (h : heap) (l : loc) : Prop := is_Some (h !! l).

(** [v.k] as a value, where reading cannot raise. *)
Definition fieldv (h : heap) (v : val) (k : string) : val :=
  match v with
  | VRef l => field h l k
  | _ => VUndefined
  end.

(** A reference in [v] points to an object of the heap. *)
Definition valid (h : heap) (v : val) : bool :=
  match v with
  | VRef l => bool_decide (is_Some (h !! l))
  | _ => true
  end.

(** The heap after [l.k = x] and after the elements of [l] are replaced. *)
Definition hset (l : loc) (k : string) (x : val) (h : heap) : heap :=
  alter (fun o => Obj (cls o) (internal o) (<[k := x]> (own o))) l h.

Definition hset_elems (l : loc) (es : list val) (h : heap) : heap :=
  alter (fun o => Obj (cls o) (SArray es) (own o)) l h.

(** What [{...v}] copies, as a function of the heap. *)
Definition own_enumerable (h : heap) (v : val) : gmap string val :=
  match v with
  | VRef l =>
      match h !! l with
      | Some o =>
          match internal o with
          | SArray es => own o ∪ indexed es
          | _ => own o
          end
      | None => ∅
      end
  | VString s => indexed (chars s)
  | _ => ∅
  end.
(** [config.module.rules] as a list, when it is one. *)
Definition rules_of (h : heap) (c : loc) : option (list val) :=
  elems_of h (fieldv h (field h c "module") "rules").

(** The [module] record is absent, or carries a [rules] list. *)
Definition module_ok (h : heap) (c : loc) : bool :=
  negb (truthy (field h c "module")) || bool_decide (is_Some (rules_of h c)).

(** The property [k] of [l] is absent (falsy), or holds a list. *)
Definition is_list (h : heap) (v : val) : bool :=
  bool_decide (is_Some (elems_of h v)).

Definition absent_or_list (h : heap) (l : loc) (k : string) : bool :=
  negb (truthy (field h l k)) || is_list h (field h l k).

(** The property [k] of [l] is absent (falsy), or refers to an object. *)
Definition absent_or_object (h : heap) (l : loc) (k : string) : bool :=
  negb (truthy (field h l k)) ||
  match field h l k with
  | VRef r => bool_decide (is_Some (h !! r))
  | _ => false
  end.

(** The elements of the list in property [k] of [l]; none when there is no
    list. *)
Definition list_of (h : heap) (l : loc) (k : string) : list val :=
  default [] (elems_of h (field h l k)).

(** [p instanceof DuplicatePackageCheckerPlugin] *)
Definition is_checker (h : heap) (v : val) : bool :=
  match v with
  | VRef l =>
      match h !! l with
      | Some o => extends (cls o) DuplicatePackageCheckerPlugin
      | None => false
      end
  | _ => false
  end.

(** Every object of [h] is still in [h'], with the class it had. *)
Definition grows (h h' : heap) : Prop :=
  forall l o, h !! l = Some o -> exists o', h' !! l = Some o' /\ cls o' = cls o.

(** The two ways a plugin counts as the packaging plugin: its class is
    (or derives from) the [ZipPlugin] this module imported, or its class is
    merely called ['ZipPlugin']. *)
Definition zip_class (c : class) : bool :=
  extends c ZipPlugin || String.eqb (class_name c) "ZipPlugin".

Definition is_zip (h : heap) (v : val) : bool :=
  match v with
  | VRef l =>
      match h !! l with
      | Some o => zip_class (cls o)
      | None => false
      end
  | _ => false
  end.

(** A plugin is an object that does not shadow the [constructor] property
    it inherits from its class. *)
Definition is_plugin (h : heap) (v : val) : bool :=
  match v with
  | VRef l =>
      match h !! l with
      | Some o => bool_decide (own o !! "constructor" = None)
      | None => false
      end
  | _ => false
  end.

(** What the comparator of [fixZipPackage] can be handed: a plugin, or a
    boolean or a string, which have a [constructor] and are no packaging
    plugin. *)
Definition comparable (h : heap) (v : val) : bool :=
  is_plugin h v ||
  match v with
  | VBool _ | VString _ => true
  | _ => false
  end.

(** The comparator of [fixZipPackage] on the keys: [aIsZip - bIsZip]. *)
Definition key_num (b : bool) : Z := if b then 1%Z else 0%Z.

(** The stable partition on a two-valued key: the elements without the key
    in their order, then the elements with it in theirs. *)
Definition partitioned {A : Type} (key : A -> bool) (l : list A) : list A :=
  filter (fun x => key x = false) l ++ filter (fun x => key x = true) l.

(** One assignment [alias[k] = v] on a property map: it stores nothing
    when [k] is ['__proto__'] and the map has no such own key. *)
Definition assign (m : gmap string val) (kv : string * val)
  : gmap string val :=
  if String.eqb kv.1 "__proto__" && bool_decide (m !! kv.1 = None) then m
  else <[kv.1 := kv.2]> m.

(** The assignments [alias[k] = v] of a loop, run in order on a property
    map. *)
Definition assign_all (kvs : list (string * val)) (m : gmap string val)
  : gmap string val :=
  foldl assign m kvs.

(** The folder a call works with: the default when the argument is
    [undefined]. *)
Definition folder_name (folder : val) : option string :=
  match folder with
  | VUndefined => Some "./node_modules"
  | VString f => Some f
  | _ => None
  end.

Section AliasMap.
Variable path_join : list string -> string.
Variable path_resolve : list string -> string.

(** [path.resolve(path.join(folder, mod))] *)
Definition alias_path (folder mod_ : string) : val :=
  VString (path_resolve [path_join [folder; mod_]]).

(** The mapping [getDedupeAliases] builds for a list of module names. *)
Definition dedupe_aliases (folder : string) (names : list string)
  : gmap string val :=
  assign_all ((fun m => (m, alias_path folder m)) <$> names) ∅.

End AliasMap.

(** Two values do not refer to the same object. *)
Definition distinct_refs (v w : val) : bool :=
  match v, w with
  | VRef a, VRef b => negb (Pos.eqb a b)
  | _, _ => true
  end.

(** [config.context || 'app'], when it is a string. *)
Definition context_dir (h : heap) (c : loc) : option string :=
  match js_or (field h c "context") (VString "app") with
  | VString s => Some s
  | _ => None
  end.

(** [config.resolve] is absent, or an object whose [extensions] and
    [modules] are each absent or a list. *)
Definition resolve_ok (h : heap) (c : loc) : bool :=
  absent_or_object h c "resolve" &&
  match field h c "resolve" with
  | VRef r => absent_or_list h r "extensions" && absent_or_list h r "modules"
  | _ => true
  end.

(** [config.resolve.extensions] and [config.resolve.modules] as values. *)
Definition extensions_of (h : heap) (c : loc) : val :=
  fieldv h (field h c "resolve") "extensions".

Definition modules_of (h : heap) (c : loc) : val :=
  fieldv h (field h c "resolve") "modules".

(** The list [config.resolve.modules] stands for when [useTypescript]
    reads it: by then ['.ts'] and ['.tsx'] are pushed on
    [config.resolve.extensions], which may be the same list. *)
Definition resolve_modules (h : heap) (c : loc) : list val :=
  let m := modules_of h c in
  if truthy m then
    if distinct_refs m (extensions_of h c) then default [] (elems_of h m)
    else default [] (elems_of h m) ++ [VString ".ts"; VString ".tsx"]
  else [].

(** What [[...v]] runs through, when [v] is iterable. *)
Definition spread_elems (h : heap) (v : val) : option (list val) :=
  match v with
  | VString s => Some (chars s)
  | VRef l => elems_at h l
  | _ => None
  end.

(** The defaults of [useTypescript]'s options, the two lists being the
    objects [ep] and [mo]. *)
Definition typescript_defaults (ep mo : loc) : gmap string val :=
  {[ "entryPaths" := VRef ep; "modules" := VRef mo;
     "tsConfigFile" := VString "tsconfig.json" ]}.

Section SearchPaths.
Variable path_resolve : list string -> string.

(** The entry search paths [useTypescript] scans: the strings of the
    caller's [entryPaths] when the record has one, the default otherwise.
    The caller's list is not the list of [config.resolve.extensions], which
    the function extends before it reads the paths. *)
Definition search_paths (h : heap) (c : loc) (options : val)
  : option (list string) :=
  match own_enumerable h options !! "entryPaths" with
  | Some v =>
      if distinct_refs v (extensions_of h c)
      then elems_of h v ≫= strings_of
      else None
  | None => (fun dir => [path_resolve [dir; "**"]]) <$> context_dir h c
  end.

(** The glob patterns handed to [getEntries]. *)
Definition entry_globs (paths : list string) : list val :=
  (fun p => VString (path_resolve [p; ENTRY_FILES])) <$> paths.

End SearchPaths.

(** The module folders [useTypescript] adds: the caller's [modules] when
    the record has one, the default otherwise. *)
Definition module_dirs (h : heap) (c : loc) (options : val)
  : option (list val) :=
  match own_enumerable h options !! "modules" with
  | Some v =>
      if distinct_refs v (extensions_of h c) then spread_elems h v else None
  | None => Some [VString "./node_modules"]
  end.

(** The defaults of [useCss]'s options. *)
Definition css_defaults : gmap string val :=
  {[ "optimizeImages" := VBool true; "imagePath" := VString "images" ]}.

(** [modifies cells arrays h h']: between [h] and [h'] every object of
    [h] is still there with its class; a property of such an object changed
    only if it is one of [cells], its internal slot only if it is one of
    [arrays], and an object that is neither is the same. *)
Definition modifies (cells : list (loc * string)) (arrays : list loc)
    (h h' : heap) : Prop :=
  grows h h' /\
  (forall l k, alive h l -> (l, k) ∉ cells -> field h' l k = field h l k) /\
  (forall l, alive h l -> l ∉ arrays -> slot_at h' l = slot_at h l) /\
  (forall l, alive h l -> l ∉ cells.*1 -> l ∉ arrays -> h' !! l = h !! l).

(** The duplicate-package checkers in [config.plugins]. *)
Definition checkers (h : heap) (c : loc) : list val :=
  filter (fun v => is_checker h v = true) (list_of h c "plugins").

(** The three states of [config.externals] that [useExternal] tells
    apart: nothing there (any falsy value), a list, or one value that is
    not a list. *)
Inductive externals_state : Type :=
  | ExtAbsent
  | ExtList (a : loc) (es : list val)
  | ExtSingle (v : val).

Definition externals_of (h : heap) (c : loc) : externals_state :=
  let e := field h c "externals" in
  if truthy e then
    match e, elems_of h e with
    | VRef a, Some es => ExtList a es
    | _, _ => ExtSingle e
    end
  else ExtAbsent.

(** [def.from && def.to] as a condition. *)
Definition copy_requested (h : heap) (d : loc) : bool :=
  truthy (field h d "from") && truthy (field h d "to").

(** [p instanceof CopyPlugin] *)
Definition is_copy (h : heap) (v : val) : bool :=
  match v with
  | VRef l =>
      match h !! l with
      | Some o => extends (cls o) CopyPlugin
      | None => false
      end
  | _ => false
  end.

(** ** Example inputs *)

(** [ToString] of a plain object. *)
Definition ots_default (h : heap) (l : loc) : string := "[object Object]".

(** [{ externals: "" }] and the definition [{ module: "jquery", global:
    "jQuery" }]. *)
Definition h_empty_externals : heap :=
  {[ 1%positive := Obj ObjectC SNone {[ "externals" := VString "" ]};
     2%positive := Obj ObjectC SNone
                     {[ "module" := VString "jquery";
                        "global" := VString "jQuery" ]} ]}.

(** [path.join] and [path.resolve] on relative segments, up to
    normalisation: the segments joined by a slash. *)
Definition join_slash (ss : list string) : string := String.concat "/" ss.

(** A [getEntries] that lists the patterns it is given. *)
Definition entries_of (patterns : list val) : obj :=
  Obj ObjectC SNone (indexed patterns).

(** The configuration [{}], the definition [{ module: "jquery", global:
    "jQuery", from: "", to: "lib" }] and the list [["lodash", "react",
    "lodash"]]. *)
Definition h_bare : heap :=
  {[ 1%positive := Obj ObjectC SNone ∅;
     2%positive := Obj ObjectC SNone
                     {[ "module" := VString "jquery";
                        "global" := VString "jQuery";
                        "from" := VString ""; "to" := VString "lib" ]};
     3%positive := Obj ArrayC
                     (SArray [VString "lodash"; VString "react";
                              VString "lodash"]) ∅ ]}.

(** A configuration whose plugins are a [ZipPlugin], a [CopyPlugin] and an
    instance of another copy of the [ZipPlugin] class. *)
Definition h_plugins : heap :=
  {[ 1%positive := Obj ObjectC SNone {[ "plugins" := VRef 2%positive ]};
     2%positive := Obj ArrayC
                     (SArray [VRef 3%positive; VRef 4%positive;
                              VRef 5%positive]) ∅;
     3%positive := Obj ZipPlugin SNone ∅;
     4%positive := Obj CopyPlugin SNone ∅;
     5%positive := Obj (Loaded "ZipPlugin" 1 ObjectC) SNone ∅ ]}.

(** A configuration with two duplicate-package checkers among its plugins,
    and an empty list of module names. *)
Definition h_two_checkers : heap :=
  {[ 1%positive := Obj ObjectC SNone {[ "plugins" := VRef 2%positive ]};
     2%positive := Obj ArrayC (SArray [VRef 3%positive; VRef 4%positive]) ∅;
     3%positive := Obj DuplicatePackageCheckerPlugin SNone ∅;
     4%positive := Obj DuplicatePackageCheckerPlugin SNone ∅;
     5%positive := Obj ArrayC (SArray []) ∅ ]}.

(** The configuration [{ module: {} }]. *)
Definition h_module_without_rules : heap :=
  {[ 1%positive := Obj ObjectC SNone {[ "module" := VRef 2%positive ]};
     2%positive := Obj ObjectC SNone ∅ ]}.

(** A configuration whose [plugins] is a record, not a list. *)
Definition h_plugins_record : heap :=
  {[ 1%positive := Obj ObjectC SNone {[ "plugins" := VRef 2%positive ]};
     2%positive := Obj ObjectC SNone ∅ ]}.

(** The configuration [{}] and the options [{ modules: undefined,
    imagePath: undefined, optimizeImages: undefined }]. *)
Definition h_undefined_options : heap :=
  {[ 1%positive := Obj ObjectC SNone ∅;
     2%positive := Obj ObjectC SNone
                     {[ "modules" := VUndefined;
                        "imagePath" := VUndefined;
                        "optimizeImages" := VUndefined ]} ]}.

(** A configuration with a [ZipPlugin] as its one plugin, and the
    definition [{ module: "jquery", global: "jQuery", from:
    "node_modules/jquery/dist/jquery.js", to: "lib" }]. *)
Definition h_external : heap :=
  {[ 1%positive := Obj ObjectC SNone {[ "plugins" := VRef 3%positive ]};
     2%positive := Obj ObjectC SNone
                     {[ "module" := VString "jquery";
                        "global" := VString "jQuery";
                        "from" := VString "node_modules/jquery/dist/jquery.js";
                        "to" := VString "lib" ]};
     3%positive := Obj ArrayC (SArray [VRef 4%positive]) ∅;
     4%positive := Obj ZipPlugin SNone ∅ ]}.

(** A configuration whose one plugin is a checker of another copy of the
    package, and the list [["lodash"]]. *)
Definition h_other_checker : heap :=
  {[ 1%positive := Obj ObjectC SNone {[ "plugins" := VRef 2%positive ]};
     2%positive := Obj ArrayC (SArray [VRef 3%positive]) ∅;
     3%positive := Obj (Loaded "DuplicatePackageCheckerPlugin" 1 ObjectC)
                     SNone ∅;
     4%positive := Obj ArrayC (SArray [VString "lodash"]) ∅ ]}.

(** The list [["lodash", null, "react"]]. *)
Definition h_null_name : heap :=
  {[ 1%positive := Obj ArrayC
                     (SArray [VString "lodash"; VNull; VString "react"]) ∅ ]}.

(** A configuration whose plugins are a [ZipPlugin], [undefined], a string
    and a [CopyPlugin]. *)
Definition h_mixed_plugins : heap :=
  {[ 1%positive := Obj ObjectC SNone {[ "plugins" := VRef 2%positive ]};
     2%positive := Obj ArrayC
                     (SArray [VRef 3%positive; VUndefined; VString "copy";
                              VRef 4%positive]) ∅;
     3%positive := Obj ZipPlugin SNone ∅;
     4%positive := Obj CopyPlugin SNone ∅ ]}.

(** A configuration whose plugins are a [ZipPlugin] and [null]. *)
Definition h_null_plugin : heap :=
  {[ 1%positive := Obj ObjectC SNone {[ "plugins" := VRef 2%positive ]};
     2%positive := Obj ArrayC (SArray [VRef 3%positive; VNull]) ∅;
     3%positive := Obj ZipPlugin SNone ∅ ]}.

(** The configuration [{}] and the options [{ imagePath: "img",
    tsConfigFile: "tsconfig.app.json" }]. *)
Definition h_given_options : heap :=
  {[ 1%positive := Obj ObjectC SNone ∅;
     2%positive := Obj ObjectC SNone
                     {[ "imagePath" := VString "img";
                        "tsConfigFile" := VString "tsconfig.app.json" ]} ]}.

(** A configuration whose [resolve.alias] maps [react] and [jquery], and
    the list [["lodash", "react"]]. *)
Definition h_aliases : heap :=
  {[ 1%positive := Obj ObjectC SNone {[ "resolve" := VRef 2%positive ]};
     2%positive := Obj ObjectC SNone {[ "alias" := VRef 3%positive ]};
     3%positive := Obj ObjectC SNone
                     {[ "react" := VString "/custom/react";
                        "jquery" := VString "/custom/jquery" ]};
     4%positive := Obj ArrayC
                     (SArray [VString "lodash"; VString "react"]) ∅ ]}.

(** A configuration whose [resolve] has the extensions [[".js"]] and the
    modules [["src"]]. *)
Definition h_resolve : heap :=
  {[ 1%positive := Obj ObjectC SNone {[ "resolve" := VRef 2%positive ]};
     2%positive := Obj ObjectC SNone
                     {[ "extensions" := VRef 3%positive;
                        "modules" := VRef 4%positive ]};
     3%positive := Obj ArrayC (SArray [VString ".js"]) ∅;
     4%positive := Obj ArrayC (SArray [VString "src"]) ∅ ]}.


(** * Facts about the heap and the primitives *)

Lemma max_loc_ge (h : heap) (l : loc) (o : obj) :
  h !! l = Some o -> (l <= max_loc h)%positive.
Proof.
  revert l o. unfold max_loc.
  apply (map_fold_weak_ind
           (fun r (m : heap) => forall l o, m !! l = Some o -> (l <= r)%positive)).
  - intros l o Hl. by rewrite lookup_empty in Hl.
  - intros i x m r _ IH l o Hl.
    destruct (decide (i = l)) as [->|Hne].
    + lia.
    + rewrite lookup_insert_ne in Hl by done. specialize (IH _ _ Hl). lia.
Qed.

Lemma fresh_loc_None (h : heap) : h !! fresh_loc h = None.
Proof.
  destruct (h !! fresh_loc h) as [o|] eqn:E; [|done].
  apply max_loc_ge in E. unfold fresh_loc in E. lia.
Qed.

Lemma fresh_loc_ne (h : heap) (l : loc) :
  is_Some (h !! l) -> l <> fresh_loc h.
Proof. intros [o Ho] ->. by rewrite fresh_loc_None in Ho. Qed.

(** ** Observers across heap updates *)

Section Observers.
Implicit Types (h : heap) (l : loc) (o : obj) (k : string) (x : val).

Lemma props_lookup_insert_eq (m : gmap string val) k x :
  <[k := x]> m !! k = Some x.
Proof. apply lookup_insert_eq. Qed.

Lemma props_lookup_insert_ne (m : gmap string val) k k' x :
  k <> k' -> <[k := x]> m !! k' = m !! k'.
Proof. apply lookup_insert_ne. Qed.

Lemma props_lookup_singleton_eq k x :
  ({[ k := x ]} : gmap string val) !! k = Some x.
Proof. apply lookup_singleton_eq. Qed.

Lemma props_lookup_singleton_ne k k' x :
  k <> k' -> ({[ k := x ]} : gmap string val) !! k' = None.
Proof. apply lookup_singleton_ne. Qed.

Lemma props_lookup_empty k : (∅ : gmap string val) !! k = None.
Proof. apply lookup_empty. Qed.

Lemma heap_lookup_insert_eq h l o : <[l := o]> h !! l = Some o.
Proof. apply lookup_insert_eq. Qed.

Lemma heap_lookup_insert_ne h l l' o : l <> l' -> <[l := o]> h !! l' = h !! l'.
Proof. apply lookup_insert_ne. Qed.

Lemma alive_hset l k x h l' : alive h l' -> alive (hset l k x h) l'.
Proof.
  unfold alive, hset. rewrite lookup_alter. case_decide; [subst|done].
  intros [o ->]. by eexists.
Qed.

Lemma alive_hset_elems l es h l' : alive h l' -> alive (hset_elems l es h) l'.
Proof.
  unfold alive, hset_elems. rewrite lookup_alter. case_decide; [subst|done].
  intros [o ->]. by eexists.
Qed.

Lemma alive_insert l o h l' : alive h l' -> alive (<[l := o]> h) l'.
Proof.
  unfold alive. rewrite lookup_insert. case_decide; [by eexists|done].
Qed.

Lemma alive_insert_eq l o h : alive (<[l := o]> h) l.
Proof. unfold alive. rewrite lookup_insert_eq. by eexists. Qed.

Lemma alive_fresh_ne h l l' : alive h l' -> h !! l = None -> l' <> l.
Proof. intros [o Ho] Hl ->. congruence. Qed.

Lemma valid_alive h l : alive h l -> valid h (VRef l) = true.
Proof. intros. by apply bool_decide_eq_true. Qed.

Lemma field_alive h l k m : field h l k = VRef m -> alive h l.
Proof. unfold field, alive. destruct (h !! l); [eauto|done]. Qed.

Lemma field_alive_bool h l k b : field h l k = VBool b -> alive h l.
Proof. unfold field, alive. destruct (h !! l); [eauto|done]. Qed.

Lemma field_alive_string h l k s : field h l k = VString s -> alive h l.
Proof. unfold field, alive. destruct (h !! l); [eauto|done]. Qed.

Lemma elems_at_alive h l es : elems_at h l = Some es -> alive h l.
Proof. unfold elems_at, alive. destruct (h !! l); [eauto|done]. Qed.

Lemma class_at_alive h l c : class_at h l = Some c -> alive h l.
Proof. unfold class_at, alive. destruct (h !! l); [eauto|done]. Qed.

Lemma field_hset_eq l k x h : alive h l -> field (hset l k x h) l k = x.
Proof.
  intros [o Ho]. unfold field, hset. rewrite lookup_alter_eq, Ho. cbn.
  by rewrite lookup_insert_eq.
Qed.

Lemma field_hset_ne_key l k x h l' k' :
  k <> k' -> field (hset l k x h) l' k' = field h l' k'.
Proof.
  intros Hk. unfold field, hset. rewrite lookup_alter. case_decide; [subst|done].
  destruct (h !! l') as [o|]; [|done]. cbn. by rewrite lookup_insert_ne.
Qed.

Lemma field_hset_ne_loc l k x h l' k' :
  l <> l' -> field (hset l k x h) l' k' = field h l' k'.
Proof. intros Hl. unfold field, hset. by rewrite lookup_alter_ne. Qed.

Lemma field_hset_elems l es h l' k :
  field (hset_elems l es h) l' k = field h l' k.
Proof.
  unfold field, hset_elems. rewrite lookup_alter. case_decide; [subst|done].
  by destruct (h !! l').
Qed.

Lemma field_insert_eq l o h k :
  field (<[l := o]> h) l k = default VUndefined (own o !! k).
Proof. unfold field. by rewrite lookup_insert_eq. Qed.

Lemma field_insert_ne l o h l' k :
  l <> l' -> field (<[l := o]> h) l' k = field h l' k.
Proof. intros. unfold field. by rewrite lookup_insert_ne. Qed.

Lemma elems_at_hset l k x h l' : elems_at (hset l k x h) l' = elems_at h l'.
Proof.
  unfold elems_at, hset. rewrite lookup_alter. case_decide; [subst|done].
  by destruct (h !! l').
Qed.

Lemma elems_at_hset_elems_eq l es h :
  alive h l -> elems_at (hset_elems l es h) l = Some es.
Proof.
  intros [o Ho]. unfold elems_at, hset_elems. by rewrite lookup_alter_eq, Ho.
Qed.

Lemma elems_at_hset_elems_ne l es h l' :
  l <> l' -> elems_at (hset_elems l es h) l' = elems_at h l'.
Proof. intros. unfold elems_at, hset_elems. by rewrite lookup_alter_ne. Qed.

Lemma elems_at_insert_eq l o h es :
  internal o = SArray es -> elems_at (<[l := o]> h) l = Some es.
Proof. intros Hs. unfold elems_at. by rewrite lookup_insert_eq, Hs. Qed.

Lemma elems_at_insert_ne l o h l' :
  l <> l' -> elems_at (<[l := o]> h) l' = elems_at h l'.
Proof. intros. unfold elems_at. by rewrite lookup_insert_ne. Qed.

Lemma class_at_hset l k x h l' : class_at (hset l k x h) l' = class_at h l'.
Proof.
  unfold class_at, hset. rewrite lookup_alter. case_decide; [subst|done].
  by destruct (h !! l').
Qed.

Lemma class_at_hset_elems l es h l' :
  class_at (hset_elems l es h) l' = class_at h l'.
Proof.
  unfold class_at, hset_elems. rewrite lookup_alter. case_decide; [subst|done].
  by destruct (h !! l').
Qed.

Lemma class_at_insert_eq l o h : class_at (<[l := o]> h) l = Some (cls o).
Proof. unfold class_at. by rewrite lookup_insert_eq. Qed.

Lemma class_at_insert_ne l o h l' :
  l <> l' -> class_at (<[l := o]> h) l' = class_at h l'.
Proof. intros. unfold class_at. by rewrite lookup_insert_ne. Qed.

Lemma slot_at_hset l k x h l' : slot_at (hset l k x h) l' = slot_at h l'.
Proof.
  unfold slot_at, hset. rewrite lookup_alter. case_decide; [subst|done].
  by destruct (h !! l').
Qed.

Lemma slot_at_hset_elems_ne l es h l' :
  l <> l' -> slot_at (hset_elems l es h) l' = slot_at h l'.
Proof. intros. unfold slot_at, hset_elems. by rewrite lookup_alter_ne. Qed.

Lemma slot_at_insert_eq l o h : slot_at (<[l := o]> h) l = Some (internal o).
Proof. unfold slot_at. by rewrite lookup_insert_eq. Qed.

Lemma slot_at_insert_ne l o h l' :
  l <> l' -> slot_at (<[l := o]> h) l' = slot_at h l'.
Proof. intros. unfold slot_at. by rewrite lookup_insert_ne. Qed.

Lemma lookup_hset_ne l k x h l' : l <> l' -> hset l k x h !! l' = h !! l'.
Proof. intros. unfold hset. by rewrite lookup_alter_ne. Qed.

Lemma lookup_hset_elems_ne l es h l' :
  l <> l' -> hset_elems l es h !! l' = h !! l'.
Proof. intros. unfold hset_elems. by rewrite lookup_alter_ne. Qed.

Lemma own_enumerable_hset_ne l k x h l' :
  l <> l' -> own_enumerable (hset l k x h) (VRef l') = own_enumerable h (VRef l').
Proof. intros. unfold own_enumerable, hset. by rewrite lookup_alter_ne. Qed.

Lemma own_enumerable_hset_elems_ne l es h l' :
  l <> l' ->
  own_enumerable (hset_elems l es h) (VRef l') = own_enumerable h (VRef l').
Proof. intros. unfold own_enumerable, hset_elems. by rewrite lookup_alter_ne. Qed.

Lemma own_enumerable_insert_ne l o h l' :
  l <> l' ->
  own_enumerable (<[l := o]> h) (VRef l') = own_enumerable h (VRef l').
Proof. intros. unfold own_enumerable. by rewrite lookup_insert_ne. Qed.

Lemma own_enumerable_insert_eq l o h :
  internal o = SNone -> own_enumerable (<[l := o]> h) (VRef l) = own o.
Proof. intros Hs. unfold own_enumerable. by rewrite lookup_insert_eq, Hs. Qed.

Lemma hset_elems_id (l : loc) (es : list val) (h : heap) :
  elems_at h l = Some es -> hset_elems l es h = h.
Proof.
  unfold elems_at, hset_elems. intros He. apply map_eq. intros j.
  rewrite lookup_alter. case_decide; [subst|done].
  destruct (h !! j) as [[c i p]|]; [|done]. cbn in *.
  destruct i; try done. by injection He as ->.
Qed.

Lemma hset_ref_id (l m : loc) (k : string) (h : heap) :
  field h l k = VRef m -> hset l k (VRef m) h = h.
Proof.
  unfold field, hset. intros Hf. apply map_eq. intros j.
  rewrite lookup_alter. case_decide; [subst|done].
  destruct (h !! j) as [[c i p]|]; [|done]. cbn in *.
  destruct (p !! k) as [v|] eqn:Hk; [|done]. cbn in Hf. subst v.
  by rewrite insert_id.
Qed.

Lemma hset_insert (l : loc) (k : string) (x : val) (o : obj) (h : heap) :
  hset l k x (<[l := o]> h)
  = <[l := Obj (cls o) (internal o) (<[k := x]> (own o))]> h.
Proof.
  unfold hset. apply map_eq. intros j. rewrite lookup_alter, !lookup_insert.
  case_decide; [subst|done]. by rewrite decide_True.
Qed.

Lemma own_enumerable_prim h h' v :
  (forall l, v <> VRef l) -> own_enumerable h v = own_enumerable h' v.
Proof. intros Hv. destruct v; try done. by destruct (Hv l). Qed.

End Observers.

(** ** Heaps that grow *)

Section Grows.
Implicit Types (h : heap) (l : loc).

Lemma grows_refl h : grows h h.
Proof. intros l o Hl. eauto. Qed.

Lemma grows_hset h h' l k x : grows h h' -> grows h (hset l k x h').
Proof.
  intros Hg j o Hj. destruct (Hg j o Hj) as (o' & Ho' & Hc).
  unfold hset. rewrite lookup_alter. case_decide; [subst|eauto].
  rewrite Ho'. cbn. eauto.
Qed.

Lemma grows_hset_elems h h' l es : grows h h' -> grows h (hset_elems l es h').
Proof.
  intros Hg j o Hj. destruct (Hg j o Hj) as (o' & Ho' & Hc).
  unfold hset_elems. rewrite lookup_alter. case_decide; [subst|eauto].
  rewrite Ho'. cbn. eauto.
Qed.

Lemma grows_insert h h' l o :
  h' !! l = None -> grows h h' -> grows h (<[l := o]> h').
Proof.
  intros Hl Hg j oj Hj. destruct (Hg j oj Hj) as (o' & Ho' & Hc).
  rewrite lookup_insert_ne; [eauto|]. intros ->. congruence.
Qed.

Lemma grows_valid h h' v : grows h h' -> valid h v = true -> valid h' v = true.
Proof.
  intros Hg. destruct v as [| | | |l]; try done. cbn.
  intros [o Ho]%bool_decide_eq_true. apply bool_decide_eq_true.
  destruct (Hg l o Ho) as (o' & Ho' & _). eauto.
Qed.

Lemma grows_forall_valid h h' vs :
  grows h h' -> forallb (valid h) vs = true -> forallb (valid h') vs = true.
Proof.
  intros Hg. rewrite !forallb_forall. intros Hv x Hx.
  eapply grows_valid; eauto.
Qed.

Lemma grows_is_checker h h' v :
  grows h h' -> valid h v = true -> is_checker h' v = is_checker h v.
Proof.
  intros Hg. destruct v as [| | | |l]; try done. cbn.
  intros [o Ho]%bool_decide_eq_true.
  destruct (Hg l o Ho) as (o' & Ho' & Hc). by rewrite Ho, Ho', Hc.
Qed.

Lemma grows_existsb_checker h h' vs :
  grows h h' -> forallb (valid h) vs = true ->
  existsb (is_checker h') vs = existsb (is_checker h) vs.
Proof.
  intros Hg. induction vs as [|v vs IH]; [done|].
  cbn. intros [Hv Hvs]%andb_prop.
  by rewrite IH, (grows_is_checker h h' v).
Qed.

Lemma grows_filter_checker h h' vs :
  grows h h' -> forallb (valid h) vs = true ->
  filter (fun v => is_checker h' v = true) vs
  = filter (fun v => is_checker h v = true) vs.
Proof.
  intros Hg. induction vs as [|v vs IH]; [done|].
  cbn [forallb]. intros [Hv Hvs]%andb_prop.
  rewrite !filter_cons, IH, (grows_is_checker h h' v) by done. done.
Qed.

End Grows.

(** ** What a group of statements modifies *)

Section Modifies.
Implicit Types (h : heap) (l : loc) (k : string).

Lemma grows_alive h h' l : grows h h' -> alive h l -> alive h' l.
Proof. intros Hg [o Ho]. destruct (Hg l o Ho) as (o' & Ho' & _). by exists o'. Qed.

Lemma grows_class_at h h' l :
  grows h h' -> alive h l -> class_at h' l = class_at h l.
Proof.
  intros Hg [o Ho]. destruct (Hg l o Ho) as (o' & Ho' & Hc).
  unfold class_at. rewrite Ho, Ho'. cbn. by rewrite Hc.
Qed.

Lemma grows_trans h1 h2 h3 : grows h1 h2 -> grows h2 h3 -> grows h1 h3.
Proof.
  intros H12 H23 l o Hl. destruct (H12 l o Hl) as (o2 & H2 & Hc2).
  destruct (H23 l o2 H2) as (o3 & H3 & Hc3). exists o3. split; [done|congruence].
Qed.

Lemma elems_at_slot h l :
  elems_at h l
  = match slot_at h l with Some (SArray es) => Some es | _ => None end.
Proof. unfold elems_at, slot_at. by destruct (h !! l). Qed.

Lemma field_hset_cell l k x h l' k' :
  (l', k') <> (l, k) -> field (hset l k x h) l' k' = field h l' k'.
Proof.
  intros Hcell. destruct (decide (l' = l)) as [->|Hne].
  - apply field_hset_ne_key. intros ->. by apply Hcell.
  - by apply field_hset_ne_loc.
Qed.

Lemma hset_field_id l k h :
  truthy (field h l k) = true -> hset l k (field h l k) h = h.
Proof.
  unfold field, hset. intros Ht. apply map_eq. intros j.
  rewrite lookup_alter. case_decide; [subst|done].
  destruct (h !! j) as [[c i p]|]; [|done]. cbn in *.
  destruct (p !! k) as [v|] eqn:Hk; [|done]. cbn. by rewrite insert_id.
Qed.

Lemma modifies_refl h : modifies [] [] h h.
Proof. split; [apply grows_refl|]. by repeat split. Qed.

Lemma modifies_grows C A h h' : modifies C A h h' -> grows h h'.
Proof. by intros [? _]. Qed.

Lemma modifies_alive C A h h' l : modifies C A h h' -> alive h l -> alive h' l.
Proof. intros [Hg _]. by apply grows_alive. Qed.

Lemma modifies_field C A h h' l k :
  modifies C A h h' -> alive h l -> (l, k) ∉ C -> field h' l k = field h l k.
Proof. intros (_ & Hf & _). apply Hf. Qed.

Lemma modifies_slot C A h h' l :
  modifies C A h h' -> alive h l -> l ∉ A -> slot_at h' l = slot_at h l.
Proof. intros (_ & _ & Hs & _). apply Hs. Qed.

Lemma modifies_elems C A h h' l :
  modifies C A h h' -> alive h l -> l ∉ A -> elems_at h' l = elems_at h l.
Proof. intros Hm Hl Hn. by rewrite !elems_at_slot, (modifies_slot C A h h' l). Qed.

Lemma modifies_class C A h h' l :
  modifies C A h h' -> alive h l -> class_at h' l = class_at h l.
Proof. intros [Hg _]. by apply grows_class_at. Qed.

Lemma modifies_lookup C A h h' l :
  modifies C A h h' -> alive h l -> l ∉ C.*1 -> l ∉ A -> h' !! l = h !! l.
Proof. intros (_ & _ & _ & Ho). apply Ho. Qed.

Lemma modifies_trans C1 A1 C2 A2 h1 h2 h3 :
  modifies C1 A1 h1 h2 -> modifies C2 A2 h2 h3 ->
  modifies (C2 ++ C1) (A2 ++ A1) h1 h3.
Proof.
  intros (Hg1 & Hf1 & Hs1 & Ho1) (Hg2 & Hf2 & Hs2 & Ho2).
  split; [by eapply grows_trans|]. split; [|split].
  - intros l k Hl [Hn2 Hn1]%not_elem_of_app.
    rewrite Hf2; [by apply Hf1| by eapply grows_alive |done].
  - intros l Hl [Hn2 Hn1]%not_elem_of_app.
    rewrite Hs2; [by apply Hs1| by eapply grows_alive |done].
  - intros l Hl Hc [Hn2 Hn1]%not_elem_of_app.
    rewrite fmap_app in Hc. apply not_elem_of_app in Hc as [Hc2 Hc1].
    rewrite Ho2; [by apply Ho1| by eapply grows_alive |done|done].
Qed.

Lemma modifies_hset C A h h' l k x :
  modifies C A h h' -> modifies ((l, k) :: C) A h (hset l k x h').
Proof.
  intros (Hg & Hf & Hs & Ho). split; [by apply grows_hset|]. split; [|split].
  - intros j k' Hj [Hne Hn]%not_elem_of_cons.
    rewrite field_hset_cell by done. by apply Hf.
  - intros j Hj Hn. rewrite slot_at_hset. by apply Hs.
  - intros j Hj Hc Hn. cbn in Hc. apply not_elem_of_cons in Hc as [Hne Hc].
    rewrite lookup_hset_ne by done. by apply Ho.
Qed.

Lemma modifies_hset_elems C A h h' l es :
  modifies C A h h' -> modifies C (l :: A) h (hset_elems l es h').
Proof.
  intros (Hg & Hf & Hs & Ho). split; [by apply grows_hset_elems|].
  split; [|split].
  - intros j k' Hj Hn. rewrite field_hset_elems. by apply Hf.
  - intros j Hj [Hne Hn]%not_elem_of_cons.
    rewrite slot_at_hset_elems_ne by done. by apply Hs.
  - intros j Hj Hc [Hne Hn]%not_elem_of_cons.
    rewrite lookup_hset_elems_ne by done. by apply Ho.
Qed.

Lemma modifies_insert C A h h' l o :
  h' !! l = None -> modifies C A h h' -> modifies C A h (<[l := o]> h').
Proof.
  intros Hl (Hg & Hf & Hs & Ho). split; [by apply grows_insert|].
  assert (forall j, alive h j -> l <> j) as Hne.
  { intros j Hj ->. apply (grows_alive _ _ _ Hg) in Hj as [? ?]. congruence. }
  split; [|split].
  - intros j k' Hj Hn. rewrite field_insert_ne by auto. by apply Hf.
  - intros j Hj Hn. rewrite slot_at_insert_ne by auto. by apply Hs.
  - intros j Hj Hc Hn. rewrite lookup_insert_ne by auto. by apply Ho.
Qed.

Lemma modifies_weaken C A C' A' h h' :
  C ⊆ C' -> A ⊆ A' -> modifies C A h h' -> modifies C' A' h h'.
Proof.
  intros HC HA (Hg & Hf & Hs & Ho). split; [done|]. split; [|split].
  - intros l k Hl Hn. apply Hf; [done|]. intros Hin. by apply Hn, HC.
  - intros l Hl Hn. apply Hs; [done|]. intros Hin. by apply Hn, HA.
  - intros l Hl Hc Hn. apply Ho; [done| |].
    + intros Hin. apply Hc. apply list_elem_of_fmap in Hin as (x & -> & Hx).
      apply list_elem_of_fmap. exists x. split; [done|]. by apply HC.
    + intros Hin. by apply Hn, HA.
Qed.

End Modifies.

(** ** Running the primitives *)

Section Run.
Context {B : Type}.
Implicit Types (h : heap) (l : loc) (o : obj).

Lemma bind_ret_r {A} (m : M A) h : bind m ret h = m h.
Proof. unfold bind, ret. by destruct (m h) as [[a|e] h']. Qed.

Lemma bind_assoc {A C} (m : M A) (f : A -> M C) (g : C -> M B) h :
  bind (bind m f) g h = bind m (fun a => bind (f a) g) h.
Proof. unfold bind. by destruct (m h) as [[a|e] h']. Qed.

Lemma bind_run {A} (m : M A) (K : A -> M B) h a h' :
  m h = (Ok a, h') -> bind m K h = K a h'.
Proof. intros Hm. unfold bind. by rewrite Hm. Qed.

Lemma run_ret {A} (a : A) (K : A -> M B) h : bind (ret a) K h = K a h.
Proof. reflexivity. Qed.

Lemma run_alloc o (K : val -> M B) h :
  bind (alloc o) K h = K (VRef (fresh_loc h)) (<[fresh_loc h := o]> h).
Proof. reflexivity. Qed.

Lemma run_get_prop l k (K : val -> M B) h :
  alive h l -> bind (get_prop (VRef l) k) K h = K (field h l k) h.
Proof. intros [o Ho]. unfold bind, get_prop, field. by rewrite Ho. Qed.

Lemma run_set_prop l k x (K : unit -> M B) h :
  alive h l -> bind (set_prop (VRef l) k x) K h = K tt (hset l k x h).
Proof.
  intros [o Ho]. unfold bind, set_prop, hset. rewrite Ho. f_equal.
  apply map_eq. intros j. rewrite lookup_insert, lookup_alter.
  case_decide; [subst; by rewrite Ho|done].
Qed.

Lemma run_array_elems l es (K : list val -> M B) h :
  elems_at h l = Some es -> bind (array_elems (VRef l)) K h = K es h.
Proof.
  unfold elems_at, bind, array_elems. destruct (h !! l) as [o|]; [|done].
  destruct (internal o); try done. by intros [= ->].
Qed.

Lemma run_set_elems l es es' (K : unit -> M B) h :
  elems_at h l = Some es ->
  bind (set_elems (VRef l) es') K h = K tt (hset_elems l es' h).
Proof.
  unfold elems_at, bind, set_elems, hset_elems.
  destruct (h !! l) as [o|] eqn:Ho; [|done].
  destruct (internal o); try done. intros _. f_equal.
  apply map_eq. intros j. rewrite lookup_insert, lookup_alter.
  case_decide; [subst; by rewrite Ho|done].
Qed.

Lemma run_push l es x (K : unit -> M B) h :
  elems_at h l = Some es ->
  bind (push (VRef l) x) K h = K tt (hset_elems l (es ++ [x]) h).
Proof.
  intros He. unfold push. rewrite bind_assoc.
  rewrite (run_array_elems l es) by done.
  by rewrite (run_set_elems l es).
Qed.

Lemma run_iterate l es (K : list val -> M B) h :
  elems_at h l = Some es -> bind (iterate (VRef l)) K h = K es h.
Proof.
  unfold elems_at, bind, iterate. destruct (h !! l) as [o|]; [|done].
  destruct (internal o); try done. by intros [= ->].
Qed.

Lemma run_is_array v (K : bool -> M B) h :
  bind (is_array v) K h = K (bool_decide (is_Some (elems_of h v))) h.
Proof. reflexivity. Qed.

Lemma run_instanceof l c d (K : bool -> M B) h :
  class_at h l = Some c ->
  bind (instanceof (VRef l) d) K h = K (extends c d) h.
Proof.
  unfold class_at, bind, instanceof. destruct (h !! l) as [o|]; [|done].
  by intros [= <-].
Qed.

Lemma run_to_string ots (v : val) (K : string -> M B) h :
  bind (to_string ots v) K h = K (js_string ots h v) h.
Proof. reflexivity. Qed.

Lemma run_spread_props v (K : gmap string val -> M B) h :
  valid h v = true ->
  bind (spread_props v) K h = K (own_enumerable h v) h.
Proof.
  unfold valid, bind, spread_props, own_enumerable.
  destruct v as [| | | |l]; try done.
  intros [o Ho]%bool_decide_eq_true. rewrite Ho. by destruct (internal o).
Qed.

End Run.

(** ** Proof steps

    [run] executes a program on a symbolic heap, one primitive at a time;
    [hsimpl] evaluates the observers through the updates made so far. *)

Ltac solve_alive :=
  repeat first
    [ apply alive_insert_eq
    | apply alive_hset
    | apply alive_hset_elems
    | apply alive_insert ];
  first
    [ assumption
    | eapply elems_at_alive; eassumption
    | eapply field_alive; eassumption
    | eapply field_alive_bool; eassumption
    | eapply field_alive_string; eassumption
    | eapply class_at_alive; eassumption
    | match goal with
      | Hs : ?h !! ?l = Some _ |- alive ?h ?l => exact (mk_is_Some _ _ Hs)
      | Hm : modifies ?C ?A ?h ?H |- alive ?H ?l =>
          apply (modifies_alive C A h H l Hm); solve_alive
      | Hg : grows ?h ?H |- alive ?H ?l =>
          apply (grows_alive h H l Hg); solve_alive
      end ].

Ltac solve_ne :=
  try match goal with |- ?a = ?b -> False => change (a <> b) end;
  first
    [ assumption
    | apply not_eq_sym; assumption
    | done
    | match goal with
      | Hl : ?H !! ?l = None |- ?l' <> ?l =>
          apply (alive_fresh_ne H l l'); [solve_alive | exact Hl]
      | Hl : ?H !! ?l' = None |- ?l' <> ?l =>
          apply not_eq_sym, (alive_fresh_ne H l' l); [solve_alive | exact Hl]
      end ].

Ltac hsimpl_step :=
  match goal with
  | |- context [field (hset ?l ?k ?x ?h) ?l' ?k'] =>
      first [ rewrite (field_hset_eq l k x h) by solve_alive
            | rewrite (field_hset_ne_key l k x h l' k') by done
            | rewrite (field_hset_ne_loc l k x h l' k') by solve_ne ]
  | |- context [field (hset_elems ?l ?es ?h) ?l' ?k] =>
      rewrite (field_hset_elems l es h l' k)
  | |- context [field (<[?l := ?o]> ?h) ?l' ?k] =>
      first [ rewrite (field_insert_eq l o h k)
            | rewrite (field_insert_ne l o h l' k) by solve_ne ]
  | |- context [elems_at (hset ?l ?k ?x ?h) ?l'] =>
      rewrite (elems_at_hset l k x h l')
  | |- context [elems_at (hset_elems ?l ?es ?h) ?l'] =>
      first [ rewrite (elems_at_hset_elems_eq l es h) by solve_alive
            | rewrite (elems_at_hset_elems_ne l es h l') by solve_ne ]
  | |- context [elems_at (<[?l := ?o]> ?h) ?l'] =>
      first [ erewrite (elems_at_insert_eq l o h) by reflexivity
            | rewrite (elems_at_insert_ne l o h l') by solve_ne ]
  | |- context [class_at (hset ?l ?k ?x ?h) ?l'] =>
      rewrite (class_at_hset l k x h l')
  | |- context [class_at (hset_elems ?l ?es ?h) ?l'] =>
      rewrite (class_at_hset_elems l es h l')
  | |- context [class_at (<[?l := ?o]> ?h) ?l'] =>
      first [ rewrite (class_at_insert_eq l o h)
            | rewrite (class_at_insert_ne l o h l') by solve_ne ]
  | |- context [slot_at (hset ?l ?k ?x ?h) ?l'] =>
      rewrite (slot_at_hset l k x h l')
  | |- context [slot_at (hset_elems ?l ?es ?h) ?l'] =>
      rewrite (slot_at_hset_elems_ne l es h l') by solve_ne
  | |- context [slot_at (<[?l := ?o]> ?h) ?l'] =>
      first [ rewrite (slot_at_insert_eq l o h)
            | rewrite (slot_at_insert_ne l o h l') by solve_ne ]
  | |- context [own_enumerable (hset ?l ?k ?x ?h) (VRef ?l')] =>
      rewrite (own_enumerable_hset_ne l k x h l') by solve_ne
  | |- context [own_enumerable (hset_elems ?l ?es ?h) (VRef ?l')] =>
      rewrite (own_enumerable_hset_elems_ne l es h l') by solve_ne
  | |- context [own_enumerable (<[?l := ?o]> ?h) (VRef ?l')] =>
      first [ rewrite (own_enumerable_insert_eq l o h) by reflexivity
            | rewrite (own_enumerable_insert_ne l o h l') by solve_ne ]
  | |- context [hset ?l ?k ?x ?h !! ?l'] =>
      rewrite (lookup_hset_ne l k x h l') by solve_ne
  | |- context [hset_elems ?l ?es ?h !! ?l'] =>
      rewrite (lookup_hset_elems_ne l es h l') by solve_ne
  | |- context [@lookup loc obj _ _ ?l' (<[?l := ?o]> ?h)] =>
      first [ rewrite (heap_lookup_insert_eq h l o)
            | rewrite (heap_lookup_insert_ne h l l' o) by solve_ne ]
  | |- context [@lookup string val _ _ ?k (<[?k' := ?x]> ?m)] =>
      first [ rewrite (props_lookup_insert_eq m k' x)
            | rewrite (props_lookup_insert_ne m k' k x) by done ]
  | |- context [@lookup string val _ _ ?k {[ ?k' := ?x ]}] =>
      first [ rewrite (props_lookup_singleton_eq k' x)
            | rewrite (props_lookup_singleton_ne k' k x) by done ]
  | |- context [@lookup string val _ _ ?k ∅] =>
      rewrite (props_lookup_empty k)
  | |- context [bool_decide (is_Some (Some ?x))] =>
      rewrite (bool_decide_eq_true_2 (is_Some (Some x)) (mk_is_Some _ _ eq_refl))
  | |- context [bool_decide (is_Some (@None ?A))] =>
      rewrite (bool_decide_eq_false_2 (is_Some (@None A)) is_Some_None)
  | H : field ?h ?l ?k = VRef ?m |- context [hset ?l ?k (VRef ?m) ?h] =>
      rewrite (hset_ref_id l m k h H)
  | |- context [own_enumerable ?h VUndefined] =>
      change (own_enumerable h VUndefined) with (∅ : gmap string val)
  | H : field ?h ?l ?k = _ |- context [field ?h ?l ?k] => rewrite H
  | H : @lookup loc obj _ _ ?l ?h = _ |- context [@lookup loc obj _ _ ?l ?h] =>
      rewrite H
  | H : forall k, field ?h ?l k = _ |- context [field ?h ?l ?k] =>
      rewrite (H k)
  | H : elems_at ?h ?l = _ |- context [elems_at ?h ?l] => rewrite H
  | H : class_at ?h ?l = _ |- context [class_at ?h ?l] => rewrite H
  | H : slot_at ?h ?l = _ |- context [slot_at ?h ?l] => rewrite H
  | H : truthy ?v = _ |- context [truthy ?v] => rewrite H
  | |- context [or_else] => unfold or_else
  | |- context [js_or] => unfold js_or
  end.

(** A cell or a location is not in a footprint. *)
Ltac solve_cell_ne :=
  first
    [ let E := fresh in intros [= _ E]; done
    | let E := fresh in intros [= E]; done
    | let E := fresh in intros [= E _]; revert E; solve_ne
    | solve_ne ].

(** An inclusion between two footprints that are given as lists. *)
Ltac solve_in :=
  solve [repeat first [apply list_elem_of_here | apply list_elem_of_further]].

Ltac sub_cases Hx :=
  lazymatch type of Hx with
  | _ ∈ _ ++ _ => apply elem_of_app in Hx as [Hx|Hx]; sub_cases Hx
  | _ ∈ _ :: _ =>
      apply elem_of_cons in Hx as [->|Hx]; [solve_in | sub_cases Hx]
  | _ ∈ [] => by apply elem_of_nil in Hx
  end.

Ltac solve_sub :=
  let x := fresh "x" in
  let Hx := fresh "Hx" in
  intros x Hx; sub_cases Hx.

Ltac solve_notin :=
  cbn [fmap list_fmap fst];
  repeat (apply not_elem_of_cons; split; [solve_cell_ne|]);
  apply not_elem_of_nil.

(** Observers of a heap that is only known through what was modified. *)
Ltac hsimpl_kept :=
  match goal with
  | Hc : (?l', ?k') <> (?l, ?k) |- context [field (hset ?l ?k ?x ?h) ?l' ?k'] =>
      rewrite (field_hset_cell l k x h l' k' Hc)
  | Hm : modifies ?C ?A ?h ?H |- context [field ?H ?l ?k] =>
      rewrite (modifies_field C A h H l k Hm)
        by first [ solve_alive | solve_notin ]
  | Hm : modifies ?C ?A ?h ?H |- context [elems_at ?H ?l] =>
      rewrite (modifies_elems C A h H l Hm)
        by first [ solve_alive | solve_notin ]
  | Hm : modifies ?C ?A ?h ?H |- context [slot_at ?H ?l] =>
      rewrite (modifies_slot C A h H l Hm)
        by first [ solve_alive | solve_notin ]
  | Hm : modifies ?C ?A ?h ?H |- context [class_at ?H ?l] =>
      rewrite (modifies_class C A h H l Hm) by solve_alive
  | Hm : modifies ?C ?A ?h ?H |- context [?H !! ?l] =>
      rewrite (modifies_lookup C A h H l Hm)
        by first [ solve_alive | solve_notin ]
  end.

Ltac hsimpl :=
  repeat first
    [ hsimpl_step
    | hsimpl_kept
    | progress cbn [own cls internal default from_option id truthy negb
                    fieldv elems_of default_param js_string] ].

Ltac solve_obs := solve [ hsimpl; first [ reflexivity | eassumption ] ].

Ltac solve_grows :=
  repeat first
    [ apply grows_hset
    | apply grows_hset_elems
    | apply grows_insert; [eassumption|] ];
  first
    [ apply grows_refl
    | assumption
    | eapply modifies_grows; eassumption ].

(** The footprint of the updates made on top of a heap. *)
Ltac solve_modifies :=
  repeat first
    [ apply modifies_hset
    | apply modifies_hset_elems
    | apply modifies_insert; [eassumption|] ];
  first [ apply modifies_refl | eassumption ].

Ltac weak_modifies :=
  eapply modifies_weaken; [| |solve_modifies]; solve_sub.

Ltac chain_modifies H1 H2 :=
  eapply modifies_weaken; [| |eapply modifies_trans; [exact H1|exact H2]];
  solve_sub.

Ltac solve_valid :=
  first
    [ reflexivity
    | apply valid_alive; solve_alive
    | eapply grows_valid; [solve_grows | eassumption]
    | eapply grows_forall_valid; [solve_grows | eassumption] ].

(** A location that is fresh late in a run was not in use before. *)
Ltac solve_fresh :=
  match goal with
  | Hl : ?H !! ?l = None |- ?h !! ?l = None =>
      apply eq_None_not_Some; intros ?;
      assert (alive H l) as [? ?] by solve_alive; congruence
  end.

Ltac gen_fresh :=
  match goal with
  | |- context [fresh_loc ?h] =>
      lazymatch h with
      | context [fresh_loc _] => fail
      | _ =>
          let l := fresh "l" in
          let Hl := fresh "Hl" in
          pose proof (fresh_loc_None h) as Hl;
          generalize dependent (fresh_loc h); intros l Hl
      end
  end.

Ltac run_step :=
  lazymatch goal with
  | |- context [bind (ret ?a) ?K ?h] => rewrite (run_ret a K h)
  | |- context [bind (bind ?m ?f) ?g ?h] => rewrite (bind_assoc m f g h)
  | |- context [bind (alloc ?o) ?K ?h] => rewrite (run_alloc o K h); gen_fresh
  | |- context [bind (new_object ?p) ?K ?h] =>
      unfold new_object at 1; rewrite run_alloc; gen_fresh
  | |- context [bind (new_array ?p) ?K ?h] =>
      unfold new_array at 1; rewrite run_alloc; gen_fresh
  | |- context [bind (new_regexp ?p) ?K ?h] =>
      unfold new_regexp at 1; rewrite run_alloc; gen_fresh
  | |- context [bind (new_instance ?c ?p) ?K ?h] =>
      unfold new_instance at 1; rewrite run_alloc; gen_fresh
  | |- context [bind (get_prop (VRef ?l) ?k) ?K ?h] =>
      rewrite (run_get_prop l k K h) by solve_alive
  | |- context [bind (set_prop (VRef ?l) ?k ?x) ?K ?h] =>
      rewrite (run_set_prop l k x K h) by solve_alive
  | |- context [bind (push (VRef ?l) ?x) ?K ?h] =>
      erewrite (run_push l _ x K h) by solve_obs
  | |- context [bind (array_elems (VRef ?l)) ?K ?h] =>
      erewrite (run_array_elems l _ K h) by solve_obs
  | |- context [bind (iterate (VRef ?l)) ?K ?h] =>
      erewrite (run_iterate l _ K h) by solve_obs
  | |- context [bind (instanceof (VRef ?l) ?d) ?K ?h] =>
      erewrite (run_instanceof l _ d K h) by solve_obs
  | |- context [bind (is_array ?v) ?K ?h] => rewrite (run_is_array v K h)
  | |- context [bind (to_string ?ots ?v) ?K ?h] =>
      rewrite (run_to_string ots v K h)
  | |- context [bind (spread_props ?v) ?K ?h] =>
      rewrite (run_spread_props v K h) by solve_valid
  end;
  hsimpl.

Ltac run := hsimpl; repeat run_step.

(** Runs a sub-program whose result [Hm] is known. *)
Ltac run_eq Hm :=
  rewrite ?bind_assoc;
  match type of Hm with
  | ?m ?h = (Ok ?a, ?h') =>
      match goal with
      | |- context [bind m ?K h] =>
          rewrite (bind_run m K h a h' Hm); cbv beta
      end
  end.

(** ** The stable sort on a two-valued key *)

Section Sort.
Variable key : val -> bool.
Variable cmp : val -> val -> M Z.
Variable h : heap.
Variable P : val -> Prop.

Hypothesis cmp_key :
  forall a b, P a -> P b ->
    cmp a b h = (Ok (key_num (key a) - key_num (key b))%Z, h).

Lemma insert_by_partition (x : val) (A B : list val) :
  P x -> Forall P A -> Forall P B ->
  Forall (fun y => key y = false) A ->
  Forall (fun y => key y = true) B ->
  insert_by cmp x (A ++ B) h
  = (Ok (if key x then A ++ x :: B else x :: A ++ B), h).
Proof.
  intros Px PA PB HA HB. induction HA as [|y A Hy HA IH].
  - cbn [app]. destruct B as [|y B].
    + cbn. by destruct (key x).
    + apply Forall_cons in HB as [Hy _]. apply Forall_cons in PB as [Py _].
      cbn [insert_by]. unfold bind. rewrite cmp_key, Hy by done.
      by destruct (key x).
  - apply Forall_cons in PA as [Py PA].
    cbn [app insert_by]. unfold bind at 1. rewrite cmp_key, Hy by done.
    destruct (key x) eqn:Hx; [|done].
    change (key_num true - key_num false <=? 0)%Z with false. cbv iota.
    unfold bind. by rewrite IH.
Qed.

Lemma sort_by_partition (l : list val) :
  Forall P l -> sort_by cmp l h = (Ok (partitioned key l), h).
Proof.
  unfold partitioned.
  induction 1 as [|x l Px Pl IH]; [done|].
  cbn [sort_by]. unfold bind. rewrite IH.
  rewrite insert_by_partition.
  - rewrite !filter_cons. destruct (key x) eqn:Hx.
    + rewrite decide_False, decide_True by done. done.
    + rewrite decide_True, decide_False by done. done.
  - done.
  - apply Forall_forall. intros y [_ Hy]%list_elem_of_filter.
    by eapply Forall_forall in Pl.
  - apply Forall_forall. intros y [_ Hy]%list_elem_of_filter.
    by eapply Forall_forall in Pl.
  - apply Forall_forall. by intros y [Hy _]%list_elem_of_filter.
  - apply Forall_forall. by intros y [Hy _]%list_elem_of_filter.
Qed.

End Sort.

Section Partition.
Context {A : Type} (key : A -> bool).

Lemma filter_key_idem (b : bool) (l : list A) :
  filter (fun x => key x = b) (filter (fun x => key x = b) l)
  = filter (fun x => key x = b) l.
Proof.
  induction l as [|x l IH]; [done|].
  rewrite filter_cons. case_decide; [|done].
  rewrite filter_cons, decide_True by done. by f_equal.
Qed.

Lemma filter_key_other (b : bool) (l : list A) :
  filter (fun x => key x = b) (filter (fun x => key x = negb b) l) = [].
Proof.
  induction l as [|x l IH]; [done|].
  rewrite filter_cons. case_decide as Hx; [|done].
  rewrite filter_cons, decide_False; [done|].
  rewrite Hx. by destruct b.
Qed.

Lemma partitioned_false (l : list A) :
  filter (fun x => key x = false) (partitioned key l)
  = filter (fun x => key x = false) l.
Proof.
  unfold partitioned. rewrite filter_app, filter_key_idem.
  rewrite (filter_key_other false). apply app_nil_r.
Qed.

Lemma partitioned_true (l : list A) :
  filter (fun x => key x = true) (partitioned key l)
  = filter (fun x => key x = true) l.
Proof.
  unfold partitioned. rewrite filter_app, filter_key_idem.
  by rewrite (filter_key_other true).
Qed.

Lemma partitioned_length (l : list A) :
  length (partitioned key l) = length l.
Proof.
  unfold partitioned. rewrite length_app.
  induction l as [|x l IH]; [done|].
  rewrite !filter_cons. destruct (key x) eqn:Hx.
  - rewrite decide_False, decide_True by done. cbn. lia.
  - rewrite decide_True, decide_False by done. cbn. lia.
Qed.

Lemma partitioned_order (l : list A) (i j : nat) (p q : A) :
  partitioned key l !! i = Some p -> partitioned key l !! j = Some q ->
  key p = true -> key q = false -> j < i.
Proof.
  unfold partitioned. intros Hi Hj Hp Hq.
  apply lookup_app_Some in Hi as [Hi|[Hlen Hi]].
  - apply list_elem_of_lookup_2, list_elem_of_filter in Hi as [Hi _]. congruence.
  - apply lookup_app_Some in Hj as [Hj|[_ Hj]].
    + apply lookup_lt_Some in Hj. lia.
    + apply list_elem_of_lookup_2, list_elem_of_filter in Hj as [Hj _]. congruence.
Qed.

Lemma partitioned_nil : partitioned key [] = [].
Proof. reflexivity. Qed.

End Partition.

(** ** Cases of the predicates on configurations *)

Lemma absent_or_object_cases h l k :
  absent_or_object h l k = true ->
  truthy (field h l k) = false \/ exists r, field h l k = VRef r /\ alive h r.
Proof.
  unfold absent_or_object. intros [H|H]%orb_prop.
  - left. by apply negb_true_iff.
  - right. destruct (field h l k); try done.
    apply bool_decide_eq_true in H. eauto.
Qed.

Lemma absent_or_list_cases h l k :
  absent_or_list h l k = true ->
  (truthy (field h l k) = false /\ list_of h l k = []) \/
  exists a, field h l k = VRef a /\ elems_at h a = Some (list_of h l k).
Proof.
  unfold absent_or_list, is_list, list_of. intros [H|H]%orb_prop.
  - left. apply negb_true_iff in H. split; [done|].
    by destruct (field h l k).
  - right. apply bool_decide_eq_true in H as [es Hes].
    destruct (field h l k) as [| | | |a]; try done. exists a. split; [done|].
    cbn in *. by rewrite Hes.
Qed.

Lemma fieldv_falsy (h : heap) (v : val) (k : string) :
  truthy v = false -> fieldv h v k = VUndefined.
Proof. by destruct v. Qed.

Lemma rules_of_Some (h : heap) (c : loc) (es : list val) :
  rules_of h c = Some es ->
  exists m a, field h c "module" = VRef m /\ field h m "rules" = VRef a /\
    elems_at h a = Some es.
Proof.
  unfold rules_of. intros H.
  destruct (field h c "module") as [| | | |m] eqn:Em; try done.
  destruct (fieldv h (VRef m) "rules") as [| | | |a] eqn:Ea; try done.
  cbn in Ea, H. eauto.
Qed.

Lemma module_ok_cases (h : heap) (c : loc) :
  module_ok h c = true ->
  truthy (field h c "module") = false \/ exists es, rules_of h c = Some es.
Proof.
  unfold module_ok. intros [H|H]%orb_prop.
  - left. by apply negb_true_iff.
  - right. by apply bool_decide_eq_true in H.
Qed.

Lemma existsb_filter_nil {A} (f : A -> bool) (l : list A) :
  existsb f l = false -> filter (fun x => f x = true) l = [].
Proof.
  induction l as [|x l IH]; [done|]. cbn [existsb].
  intros [Hx Hl]%orb_false_elim. rewrite filter_cons, decide_False by congruence.
  by apply IH.
Qed.

Lemma existsb_filter_pos {A} (f : A -> bool) (l : list A) :
  existsb f l = true -> 1 <= length (filter (fun x => f x = true) l).
Proof.
  induction l as [|x l IH]; [done|]. cbn [existsb].
  rewrite filter_cons. destruct (f x) eqn:Hx.
  - rewrite decide_True by done. cbn. lia.
  - rewrite decide_False by congruence. cbn. apply IH.
Qed.

Lemma list_of_elems h l k a es :
  field h l k = VRef a -> elems_at h a = Some es -> list_of h l k = es.
Proof. intros Hf He. unfold list_of. rewrite Hf. cbn. by rewrite He. Qed.

Lemma is_checker_valid h v : is_checker h v = true -> valid h v = true.
Proof.
  destruct v as [| | | |l]; try done. cbn.
  destruct (h !! l) eqn:E; [|done]. intros _. apply bool_decide_eq_true. eauto.
Qed.

Lemma distinct_refs_ne (a b : loc) :
  distinct_refs (VRef a) (VRef b) = true -> a <> b.
Proof.
  cbn. intros H ->. by rewrite Pos.eqb_refl in H.
Qed.

Lemma externals_of_cases (h : heap) (c : loc) :
  valid h (field h c "externals") = true ->
  match externals_of h c with
  | ExtAbsent => truthy (field h c "externals") = false
  | ExtList a es =>
      field h c "externals" = VRef a /\ elems_at h a = Some es
  | ExtSingle v =>
      field h c "externals" = v /\ truthy v = true /\
      ((exists o, v = VRef o /\ alive h o /\ elems_at h o = None) \/
       (forall l, v <> VRef l))
  end.
Proof.
  unfold externals_of. intros Hv.
  destruct (truthy (field h c "externals")) eqn:Ht; [|done].
  destruct (field h c "externals") as [| | | |a] eqn:He; try done.
  - split; [done|]. split; [done|]. by right.
  - split; [done|]. split; [done|]. by right.
  - cbn [elems_of]. destruct (elems_at h a) as [es|] eqn:Ha; [done|].
    split; [done|]. split; [done|]. left. exists a. split; [done|].
    split; [|done]. by apply bool_decide_eq_true in Hv.
Qed.

Lemma folder_name_default (folder : val) (f : string) :
  folder_name folder = Some f ->
  default_param folder (VString "./node_modules") = VString f.
Proof. destruct folder; try done; cbn; congruence. Qed.

Lemma assign_other m k v : k <> "__proto__" -> assign m (k, v) = <[k := v]> m.
Proof.
  intros Hk. unfold assign. cbn [fst snd].
  by rewrite (proj2 (String.eqb_neq k "__proto__") Hk).
Qed.

Lemma assign_proto m v :
  m !! "__proto__" = None -> assign m ("__proto__", v) = m.
Proof.
  intros Hm. unfold assign. cbn [fst snd]. by rewrite bool_decide_eq_true_2.
Qed.

Lemma assign_lookup_ne m k v k' : k' <> k -> assign m (k, v) !! k' = m !! k'.
Proof.
  intros Hk. unfold assign. cbn [fst snd].
  destruct (_ && _); [done|]. by rewrite lookup_insert_ne.
Qed.

Lemma assign_all_snoc kvs k v m :
  assign_all (kvs ++ [(k, v)]) m = assign (assign_all kvs m) (k, v).
Proof. unfold assign_all. by rewrite foldl_app. Qed.


Lemma assign_all_absent kvs k m :
  k ∉ kvs.*1 -> assign_all kvs m !! k = m !! k.
Proof.
  induction kvs as [|[k' v'] kvs IH] using rev_ind; [done|].
  rewrite fmap_app, not_elem_of_app. cbn. intros [Hkvs Hk'].
  rewrite assign_all_snoc, assign_lookup_ne; [by apply IH|].
  intros ->. apply Hk'. by left.
Qed.

Lemma assign_all_proto kvs m :
  m !! "__proto__" = None -> assign_all kvs m !! "__proto__" = None.
Proof.
  intros Hm. induction kvs as [|[k' v'] kvs IH] using rev_ind; [done|].
  rewrite assign_all_snoc.
  destruct (decide (k' = "__proto__")) as [->|Hne].
  - by rewrite assign_proto.
  - by rewrite assign_lookup_ne.
Qed.

Lemma run_some_checker {B} (l : loc) (ps : list val) (K : bool -> M B) h :
  elems_at h l = Some ps ->
  forallb (valid h) ps = true ->
  bind (array_some (fun p => instanceof p DuplicatePackageCheckerPlugin)
          (VRef l)) K h
  = K (existsb (is_checker h) ps) h.
Proof.
  intros Hl Hps. unfold array_some. rewrite bind_assoc.
  rewrite (run_array_elems l ps) by done.
  apply bind_run. clear Hl. induction ps as [|p ps IH]; [done|].
  cbn [forallb] in Hps. apply andb_prop in Hps as [Hp Hps].
  cbn [some_of existsb]. unfold bind, instanceof, is_checker at 1.
  destruct p as [| | | |j]; try (by apply IH).
  apply bool_decide_eq_true in Hp as [o Ho]. rewrite Ho.
  destruct (extends (cls o) DuplicatePackageCheckerPlugin); [done|by apply IH].
Qed.

Lemma is_zip_hset l k x h v : is_zip (hset l k x h) v = is_zip h v.
Proof.
  unfold is_zip, hset. destruct v as [| | | |l']; try done.
  rewrite lookup_alter. case_decide; [subst|done]. by destruct (h !! l').
Qed.

Lemma is_zip_hset_elems l es h v : is_zip (hset_elems l es h) v = is_zip h v.
Proof.
  unfold is_zip, hset_elems. destruct v as [| | | |l']; try done.
  rewrite lookup_alter. case_decide; [subst|done]. by destruct (h !! l').
Qed.

Ltac same_ref :=
  let x := fresh in
  let H := fresh in
  intros x H;
  match goal with
  | F : truthy (field ?h ?l ?k) = false |- _ => rewrite H in F; done
  | F : field ?h ?l ?k = VRef _ |- _ => rewrite H in F; congruence
  end.

(** ** Groups of statements *)

Lemma default_list_unit (target : M val) (t : loc) (k : string) (h : heap) :
  target h = (Ok (VRef t), h) ->
  alive h t ->
  absent_or_list h t k = true ->
  exists h' a,
    default_prop target k (new_array []) h = (Ok tt, h') /\
    grows h h' /\
    field h' t k = VRef a /\
    elems_at h' a = Some (list_of h t k) /\
    modifies [(t, k)] [] h h' /\
    (h !! a = None \/ field h t k = VRef a).
Proof.
  intros Ht Hal Hl. rewrite <- bind_ret_r. unfold default_prop.
  run_eq Ht. run_eq Ht.
  apply absent_or_list_cases in Hl as [[Hl Hnil]|(a & Hl & Hes)].
  - rewrite Hnil. run. eexists _, l. split; [reflexivity|].
    split; [solve_grows|]. split; [by hsimpl|]. split; [by hsimpl|].
    split; [solve_modifies|]. left. solve_fresh.
  - run. eexists _, a. split; [reflexivity|].
    split; [solve_grows|]. split; [by hsimpl|]. split; [by hsimpl|].
    split; [|by right].
    eapply modifies_weaken; [| |apply modifies_refl]; solve_sub.
Qed.
Lemma default_object_unit (target : M val) (t : loc) (k : string) (h : heap) :
  target h = (Ok (VRef t), h) ->
  alive h t ->
  absent_or_object h t k = true ->
  exists h' r,
    default_prop target k (new_object ∅) h = (Ok tt, h') /\
    grows h h' /\
    field h' t k = VRef r /\
    alive h' r /\
    modifies [(t, k)] [] h h' /\
    ((h !! r = None /\ forall k', t <> r -> field h' r k' = VUndefined) \/
     (field h t k = VRef r /\ h' = h)).
Proof.
  intros Ht Hal Hl. rewrite <- bind_ret_r. unfold default_prop.
  run_eq Ht. run_eq Ht.
  apply absent_or_object_cases in Hl as [Hl|(r & Hl & Hr)].
  - run. eexists _, l. split; [reflexivity|].
    split; [solve_grows|]. split; [by hsimpl|]. split; [solve_alive|].
    split; [solve_modifies|].
    left. split; [solve_fresh|]. intros k' Hne. by hsimpl.
  - run. eexists _, r. split; [reflexivity|].
    split; [solve_grows|]. split; [by hsimpl|]. split; [done|].
    split; [|by right].
    eapply modifies_weaken; [| |apply modifies_refl]; solve_sub.
Qed.

Lemma init_module_unit (c : loc) (h : heap) :
  alive h c ->
  module_ok h c = true ->
  exists h' m ru,
    init_module (VRef c) h = (Ok tt, h') /\
    grows h h' /\
    field h' c "module" = VRef m /\
    alive h' m /\
    field h' m "rules" = VRef ru /\
    elems_at h' ru = Some (default [] (rules_of h c)) /\
    modifies [(c, "module")] [] h h' /\
    ((truthy (field h c "module") = false /\ h !! m = None /\
      h !! ru = None) \/
     (field h c "module" = VRef m /\ field h m "rules" = VRef ru /\
      elems_at h ru = Some (default [] (rules_of h c)))).
Proof.
  intros Hc Hm. rewrite <- bind_ret_r. unfold init_module, default_prop.
  apply module_ok_cases in Hm as [Hm|[es Hes]].
  - assert (rules_of h c = None) as ->.
    { unfold rules_of. by destruct (field h c "module"). }
    run. eexists _, l0, l. split; [reflexivity|].
    split; [solve_grows|]. split; [by hsimpl|]. split; [solve_alive|].
    split; [by hsimpl|]. split; [by hsimpl|].
    split; [solve_modifies|]. left. split; [done|]. split; solve_fresh.
  - rewrite Hes. pose proof Hes as Hes'.
    apply rules_of_Some in Hes as (m & a & Hcm & Hma & Ha).
    run. eexists _, m, a. split; [reflexivity|].
    split; [solve_grows|]. split; [by hsimpl|]. split; [solve_alive|].
    split; [by hsimpl|]. split; [by hsimpl|].
    split; [|by right; hsimpl].
    eapply modifies_weaken; [| |apply modifies_refl]; solve_sub.
Qed.

Lemma merge_options_unit (defaults : gmap string val) (options : val)
    (h : heap) :
  valid h options = true ->
  exists h' oo,
    merge_options defaults options h = (Ok (VRef oo), h') /\
    modifies [] [] h h' /\
    h !! oo = None /\
    h' !! oo = Some (Obj ObjectC SNone (own_enumerable h options ∪ defaults)) /\
    forall k,
      field h' oo k
      = default VUndefined ((own_enumerable h options ∪ defaults) !! k).
Proof.
  intros Hv. rewrite <- bind_ret_r. unfold merge_options. run.
  eexists _, l. split; [reflexivity|]. split; [solve_modifies|].
  split; [done|]. split; [by hsimpl|]. intros k. by hsimpl.
Qed.

Lemma module_ok_modifies C A (h h' : heap) (c : loc) :
  modifies C A h h' ->
  alive h c ->
  (c, "module") ∉ C ->
  (forall m, field h c "module" = VRef m -> (m, "rules") ∉ C) ->
  (forall m a, field h c "module" = VRef m -> field h m "rules" = VRef a ->
               a ∉ A) ->
  module_ok h c = true ->
  module_ok h' c = true /\ rules_of h' c = rules_of h c.
Proof.
  intros Hm Hc Hcell Hrules Harr Hok.
  assert (rules_of h' c = rules_of h c) as Heq.
  { unfold rules_of. rewrite (modifies_field C A h h') by done.
    destruct (field h c "module") as [| | | |m] eqn:Em; try done.
    cbn [fieldv].
    destruct (field h m "rules") as [| | | |a] eqn:Ea.
    1-4: destruct (decide (alive h m)) as [Hal|Hal];
      [ rewrite (modifies_field C A h h') by eauto; by rewrite Ea
      | apply module_ok_cases in Hok as [Hok|[es Hes]];
        [ by rewrite Em in Hok
        | apply rules_of_Some in Hes as (m' & a' & Hm' & Ha' & _);
          rewrite Em in Hm'; injection Hm' as <-; congruence ] ].
    assert (alive h m) by (by eapply field_alive).
    rewrite (modifies_field C A h h') by eauto. rewrite Ea. cbn [elems_of].
    destruct (decide (alive h a)) as [Hal|Hal].
    - apply (modifies_elems C A h h'); eauto.
    - apply module_ok_cases in Hok as [Hok|[es Hes]]; [by rewrite Em in Hok|].
      apply rules_of_Some in Hes as (m' & a' & Hm' & Ha' & Hes).
      rewrite Em in Hm'. injection Hm' as <-. rewrite Ea in Ha'.
      injection Ha' as <-. destruct Hal. by eapply elems_at_alive. }
  split; [|done]. unfold module_ok in *. rewrite Heq.
  by rewrite (modifies_field C A h h').
Qed.

Lemma push_rule_unit (c m ru r : loc) (es : list val) (rule : M val)
    (h h1 : heap) :
  field h c "module" = VRef m ->
  field h m "rules" = VRef ru ->
  elems_at h ru = Some es ->
  rule h = (Ok (VRef r), h1) ->
  modifies [] [] h h1 ->
  push_rule (VRef c) rule h = (Ok tt, hset_elems ru (es ++ [VRef r]) h1).
Proof.
  intros Hcm Hmr Hru Hrule Hm1. rewrite <- bind_ret_r. unfold push_rule.
  run. run_eq Hrule. run. done.
Qed.

Lemma css_rule_unit (h : heap) :
  exists h' r,
    css_rule h = (Ok (VRef r), h') /\ modifies [] [] h h' /\ h !! r = None /\
    alive h' r.
Proof.
  rewrite <- bind_ret_r. unfold css_rule. run.
  eexists _, _. split; [reflexivity|]. split; [solve_modifies|].
  split; [solve_fresh|solve_alive].
Qed.

Lemma resolve_ok_cases (h : heap) (c : loc) :
  resolve_ok h c = true ->
  truthy (field h c "resolve") = false \/
  exists r, field h c "resolve" = VRef r /\ alive h r /\
            absent_or_list h r "extensions" = true /\
            absent_or_list h r "modules" = true.
Proof.
  unfold resolve_ok. intros [Ho Hl]%andb_prop.
  apply absent_or_object_cases in Ho as [Ho|(r & Hr & Hal)]; [by left|].
  right. exists r. rewrite Hr in Hl. apply andb_prop in Hl as [? ?]. eauto.
Qed.

Ltac old_ref := right; split; [done|solve_alive].
Ltac new_ref := left; split; [done|solve_fresh].

Lemma typescript_extensions_unit (c : loc) (h : heap) :
  alive h c ->
  resolve_ok h c = true ->
  exists h' r ext mods,
    typescript_extensions (VRef c) h = (Ok tt, h') /\
    field h' c "resolve" = VRef r /\
    field h' r "extensions" = VRef ext /\
    field h' r "modules" = VRef mods /\
    elems_at h' ext
    = Some (default [] (elems_of h (extensions_of h c))
            ++ [VString ".ts"; VString ".tsx"]) /\
    elems_at h' mods = Some (resolve_modules h c) /\
    modifies [(c, "resolve"); (r, "extensions"); (r, "modules")] [ext] h h' /\
    ((truthy (field h c "resolve") = false /\ h !! r = None) \/
     (field h c "resolve" = VRef r /\ alive h r)) /\
    ((truthy (extensions_of h c) = false /\ h !! ext = None) \/
     (extensions_of h c = VRef ext /\ alive h ext)) /\
    ((truthy (modules_of h c) = false /\ h !! mods = None) \/
     (modules_of h c = VRef mods /\ alive h mods)).
Proof.
  intros Hc Hres. rewrite <- bind_ret_r.
  unfold typescript_extensions, default_prop, resolve_modules, extensions_of,
    modules_of.
  apply resolve_ok_cases in Hres as [Hres|(r & Hres & Hr & Hext & Hmods)].
  - rewrite !(fieldv_falsy _ _ _ Hres). run.
    eexists _, l, l0, l1. split; [reflexivity|].
    split; [by hsimpl|]. split; [by hsimpl|]. split; [by hsimpl|].
    split; [by hsimpl|]. split; [by hsimpl|]. split; [weak_modifies|].
    split; [new_ref|]. split; (new_ref).
  - rewrite Hres. cbn [fieldv].
    fold (list_of h r "extensions"). fold (list_of h r "modules").
    apply absent_or_list_cases in Hext as [[Hext Hnil]|(e & Hext & Hes)];
    apply absent_or_list_cases in Hmods as [[Hmods Hnilm]|(m & Hmods & Hms)];
    revert Hext Hmods;
    generalize dependent (list_of h r "extensions");
    generalize dependent (list_of h r "modules"); intros ms Hms es Hes He Hm.
    + subst. run.
      eexists _, r, l, l0. split; [reflexivity|].
      split; [by hsimpl|]. split; [by hsimpl|]. split; [by hsimpl|].
      split; [by hsimpl|]. split; [by hsimpl|]. split; [weak_modifies|].
      split; [old_ref|]. split; (new_ref).
    + subst. run.
      eexists _, r, l, m. split; [reflexivity|].
      split; [by hsimpl|]. split; [by hsimpl|]. split; [by hsimpl|].
      split; [by hsimpl|].
      split; [hsimpl; by destruct (field h r "extensions")|].
      split; [weak_modifies|].
      split; [old_ref|]. split; [new_ref|old_ref].
    + subst. run.
      eexists _, r, e, l. split; [reflexivity|].
      split; [by hsimpl|]. split; [by hsimpl|]. split; [by hsimpl|].
      split; [hsimpl; by rewrite <- app_assoc|]. split; [by hsimpl|].
      split; [weak_modifies|].
      split; [old_ref|]. split; [old_ref|new_ref].
    + rewrite Hm, He. cbn [truthy distinct_refs].
      destruct (decide (m = e)) as [->|Hne].
      * rewrite Hms in Hes. injection Hes as ->.
        rewrite (proj2 (Pos.eqb_eq e e) eq_refl). cbn [negb]. run.
        eexists _, r, e, e. split; [reflexivity|].
        split; [by hsimpl|]. split; [by hsimpl|]. split; [by hsimpl|].
        split; [hsimpl; by rewrite <- app_assoc|].
        split; [hsimpl; by rewrite <- app_assoc|].
        split; [weak_modifies|]. split; [old_ref|]. split; old_ref.
      * rewrite (proj2 (Pos.eqb_neq m e) Hne). cbn [negb]. run.
        eexists _, r, e, m. split; [reflexivity|].
        split; [by hsimpl|]. split; [by hsimpl|]. split; [by hsimpl|].
        split; [hsimpl; by rewrite <- app_assoc|]. split; [by hsimpl|].
        split; [weak_modifies|]. split; [old_ref|]. split; old_ref.
Qed.

Lemma run_spread_elems {B} (v : val) (es : list val) (K : list val -> M B) h :
  spread_elems h v = Some es -> bind (iterate v) K h = K es h.
Proof.
  destruct v as [| | |s|l]; try done.
  - by intros [= <-].
  - apply run_iterate.
Qed.

Lemma typescript_modules_unit (c r mods oo : loc) (ms new : list val)
    (h : heap) :
  field h c "resolve" = VRef r ->
  field h r "modules" = VRef mods ->
  elems_at h mods = Some ms ->
  alive h oo ->
  spread_elems h (field h oo "modules") = Some new ->
  exists h' a,
    typescript_modules (VRef c) (VRef oo) h = (Ok tt, h') /\
    h !! a = None /\
    field h' r "modules" = VRef a /\
    elems_at h' a = Some (ms ++ new) /\
    modifies [(r, "modules")] [] h h'.
Proof.
  intros Hres Hmods Hms Hoo Hnew. rewrite <- bind_ret_r.
  unfold typescript_modules. run.
  rewrite (run_spread_elems _ new) by done. run.
  eexists _, l. split; [reflexivity|]. split; [solve_fresh|].
  split; [by hsimpl|]. split; [by hsimpl|]. solve_modifies.
Qed.

Lemma tslint_rule_unit (oo : loc) (h : heap) :
  alive h oo ->
  exists h' r u loader opts,
    (let* test := new_regexp "\.(ts|tsx)$" in
     let* tsConfigFile := get_prop (VRef oo) "tsConfigFile" in
     let* opts := new_object {[ "tsConfigFile" := tsConfigFile;
                                "emitErrors" := VBool true ]} in
     let* loader := new_object {[ "loader" := VString "tslint-loader";
                                  "options" := opts ]} in
     let* use := new_array [loader] in
     new_object {[ "test" := test; "enforce" := VString "pre";
                   "use" := use ]}) h = (Ok (VRef r), h') /\
    modifies [] [] h h' /\
    field h' r "enforce" = VString "pre" /\
    field h' r "use" = VRef u /\
    elems_at h' u = Some [VRef loader] /\
    field h' loader "loader" = VString "tslint-loader" /\
    field h' loader "options" = VRef opts /\
    field h' opts "tsConfigFile" = field h oo "tsConfigFile" /\
    field h' opts "emitErrors" = VBool true /\
    h !! r = None /\ h !! u = None /\ h !! loader = None /\ h !! opts = None.
Proof.
  intros Hoo. rewrite <- bind_ret_r. run.
  eexists _, _, _, _, _. split; [reflexivity|]. split; [solve_modifies|].
  split; [by hsimpl|]. split; [by hsimpl|]. split; [by hsimpl|].
  split; [by hsimpl|]. split; [by hsimpl|]. split; [by hsimpl|].
  split; [by hsimpl|].
  repeat (split; [solve_fresh|]). solve_fresh.
Qed.

Lemma ts_rule_unit (h : heap) :
  exists h' r,
    (let* test := new_regexp "\.(ts|tsx)$" in
     let* loader := new_object {[ "loader" := VString "ts-loader" ]} in
     let* use := new_array [loader] in
     new_object {[ "test" := test; "use" := use ]}) h = (Ok (VRef r), h') /\
    modifies [] [] h h' /\ h !! r = None.
Proof.
  rewrite <- bind_ret_r. run.
  eexists _, _. split; [reflexivity|]. split; [solve_modifies|solve_fresh].
Qed.

Lemma module_ok_alive (h : heap) (c m : loc) :
  module_ok h c = true ->
  field h c "module" = VRef m ->
  alive h m /\ exists ru, field h m "rules" = VRef ru /\ alive h ru.
Proof.
  intros Hok Hm. apply module_ok_cases in Hok as [Hok|[es Hes]].
  { by rewrite Hm in Hok. }
  apply rules_of_Some in Hes as (m' & a & Hm' & Ha & Hes).
  rewrite Hm in Hm'. injection Hm' as <-.
  split; [by eapply field_alive|]. exists a. split; [done|].
  by eapply elems_at_alive.
Qed.

Lemma typescript_rules_unit (c oo : loc) (h : heap) :
  alive h c ->
  module_ok h c = true ->
  alive h oo ->
  exists h' m ru r1 r2 u loader opts,
    typescript_rules (VRef c) (VRef oo) h = (Ok tt, h') /\
    field h' c "module" = VRef m /\
    field h' m "rules" = VRef ru /\
    elems_at h' ru = Some (default [] (rules_of h c) ++ [VRef r1; VRef r2]) /\
    h !! r1 = None /\ h !! r2 = None /\
    field h' r1 "enforce" = VString "pre" /\
    field h' r1 "use" = VRef u /\
    elems_at h' u = Some [VRef loader] /\
    field h' loader "loader" = VString "tslint-loader" /\
    field h' loader "options" = VRef opts /\
    field h' opts "tsConfigFile" = field h oo "tsConfigFile" /\
    modifies [(c, "module")] [ru] h h' /\
    ((truthy (field h c "module") = false /\ h !! m = None /\
      h !! ru = None) \/
     (field h c "module" = VRef m /\ field h m "rules" = VRef ru)).
Proof.
  intros Hc Hok Hoo. rewrite <- bind_ret_r. unfold typescript_rules.
  destruct (init_module_unit c h Hc Hok)
    as (h1 & m & ru & Hrun1 & Hg1 & Hcm & Hma & Hmr & Hru & Hm1 & Hprov).
  run_eq Hrun1.
  destruct (tslint_rule_unit oo h1)
    as (h2 & r1 & u & loader & opts & Hrun2 & Hm2 & Henf & Huse & Hu & Hld
        & Hopt & Hts & Hemit & Hr1 & Hu1 & Hl1 & Ho1); [solve_alive|].
  pose proof (push_rule_unit c m ru r1 _ _ h1 h2 Hcm Hmr Hru Hrun2 Hm2)
    as Hpush2.
  run_eq Hpush2.
  set (h3 := hset_elems ru _ h2) in *.
  assert (modifies [] [ru] h1 h3) as Hm3 by (subst h3; solve_modifies).
  assert (field h3 c "module" = VRef m) as Hcm3 by (subst h3; by hsimpl).
  assert (field h3 m "rules" = VRef ru) as Hmr3 by (subst h3; by hsimpl).
  assert (elems_at h3 ru = Some (default [] (rules_of h c) ++ [VRef r1]))
    as Hru3 by (subst h3; by hsimpl).
  assert (modifies [] [ru] h2 h3) as Hm23 by (subst h3; solve_modifies).
  clearbody h3.
  destruct (ts_rule_unit h3) as (h4 & r2 & Hrun4 & Hm4 & Hr2).
  pose proof (push_rule_unit c m ru r2 _ _ h3 h4 Hcm3 Hmr3 Hru3 Hrun4 Hm4)
    as Hpush4.
  run_eq Hpush4.
  assert (modifies [(c, "module")] [ru] h h3) as Hm03
    by chain_modifies Hm1 Hm3.
  assert (modifies [] [ru] h3 (hset_elems ru
            ((default [] (rules_of h c) ++ [VRef r1]) ++ [VRef r2]) h4))
    as Hm35 by solve_modifies.
  eexists _, m, ru, r1, r2, u, loader, opts. split; [reflexivity|].
  split; [by hsimpl|]. split; [by hsimpl|].
  split; [hsimpl; by rewrite <- app_assoc|].
  split.
  { destruct (h !! r1) eqn:E; [|done].
    assert (alive h1 r1) as [? ?] by solve_alive. congruence. }
  split.
  { destruct (h !! r2) eqn:E; [|done].
    assert (alive h3 r2) as [? ?] by solve_alive. congruence. }
  split; [by hsimpl|]. split; [by hsimpl|]. split; [by hsimpl|].
  split; [by hsimpl|]. split; [by hsimpl|]. split; [by hsimpl|].
  split; [chain_modifies Hm03 Hm35|].
  destruct Hprov as [Hprov|(? & ? & _)]; [by left|by right].
Qed.

Lemma strings_of_Some (es : list val) (ss : list string) :
  strings_of es = Some ss -> es = VString <$> ss.
Proof.
  unfold strings_of. revert ss. induction es as [|v es IH]; intros ss H.
  - by injection H as <-.
  - cbn in H. destruct v as [| | |s|]; try done. cbn in H.
    destruct (mapM _ es) as [ss'|] eqn:E; [|done]. cbn in H.
    injection H as <-. cbn. f_equal. by apply IH.
Qed.

Lemma strings_of_strings (ss : list string) :
  strings_of (VString <$> ss) = Some ss.
Proof.
  unfold strings_of. induction ss as [|s ss IH]; [done|].
  cbn. cbn in IH. by rewrite IH.
Qed.

Lemma frame_lookup (h0 h : heap) (l : loc) :
  modifies [] [] h0 h -> alive h0 l -> h !! l = h0 !! l.
Proof.
  intros Hm Hl. apply (modifies_lookup [] [] h0 h); [done..| |];
    apply not_elem_of_nil.
Qed.

Lemma frame_field (h0 h : heap) (l : loc) (k : string) :
  modifies [] [] h0 h -> alive h0 l -> field h l k = field h0 l k.
Proof. intros Hm Hl. unfold field. by rewrite (frame_lookup h0 h). Qed.

Lemma frame_elems (h0 h : heap) (l : loc) :
  modifies [] [] h0 h -> alive h0 l -> elems_at h l = elems_at h0 l.
Proof. intros Hm Hl. unfold elems_at. by rewrite (frame_lookup h0 h). Qed.

Lemma resolve_ok_alive (h : heap) (c r : loc) :
  resolve_ok h c = true ->
  field h c "resolve" = VRef r ->
  alive h r /\
  (forall e, field h r "extensions" = VRef e -> alive h e) /\
  (forall m, field h r "modules" = VRef m -> alive h m).
Proof.
  intros Hok Hr.
  apply resolve_ok_cases in Hok as [Hok|(r' & Hr' & Hal & He & Hm)].
  { by rewrite Hr in Hok. }
  rewrite Hr in Hr'. injection Hr' as <-. split; [done|]. split.
  - intros e Hfe.
    apply absent_or_list_cases in He as [[He _]|(a & Ha & Hes)].
    + by rewrite Hfe in He.
    + rewrite Hfe in Ha. injection Ha as <-. by eapply elems_at_alive.
  - intros m Hfm.
    apply absent_or_list_cases in Hm as [[Hm _]|(a & Ha & Hes)].
    + by rewrite Hfm in Hm.
    + rewrite Hfm in Ha. injection Ha as <-. by eapply elems_at_alive.
Qed.

Lemma frame_resolve (h0 h : heap) (c : loc) :
  modifies [] [] h0 h ->
  alive h0 c ->
  resolve_ok h0 c = true ->
  resolve_ok h c = true /\
  field h c "resolve" = field h0 c "resolve" /\
  extensions_of h c = extensions_of h0 c /\
  modules_of h c = modules_of h0 c /\
  elems_of h (extensions_of h c) = elems_of h0 (extensions_of h0 c) /\
  resolve_modules h c = resolve_modules h0 c.
Proof.
  intros Hm Hc Hok.
  assert (field h c "resolve" = field h0 c "resolve") as Hres.
  { by apply frame_field. }
  unfold resolve_ok, resolve_modules, extensions_of, modules_of,
    absent_or_object, absent_or_list, is_list in *.
  rewrite Hres.
  destruct (field h0 c "resolve") as [| | | |r] eqn:Er; try done.
  destruct (resolve_ok_alive h0 c r) as (Hr & He & Hmo); [|done|].
  { unfold resolve_ok, absent_or_object, absent_or_list, is_list.
    by rewrite Er. }
  cbn [fieldv truthy negb orb andb] in *.
  rewrite !(frame_field h0 h r) by done.
  assert (forall k, (forall a, field h0 r k = VRef a -> alive h0 a) ->
            elems_of h (field h0 r k) = elems_of h0 (field h0 r k)) as Hel.
  { intros k Hk. destruct (field h0 r k) as [| | | |a]; try done.
    cbn [elems_of]. apply frame_elems; [done|]. by apply Hk. }
  rewrite !Hel by done.
  split; [|done].
  assert (alive h r) as [o ->] by by eapply modifies_alive.
  cbn. by apply andb_prop in Hok as [_ ->].
Qed.

Lemma own_enumerable_insert_valid (l : loc) (o : obj) (h : heap) (v : val) :
  valid h v = true -> h !! l = None ->
  own_enumerable (<[l := o]> h) v = own_enumerable h v.
Proof.
  intros Hv Hl. destruct v as [| | | |l']; try done.
  apply own_enumerable_insert_ne. intros ->. cbn in Hv.
  apply bool_decide_eq_true in Hv as [? ?]. congruence.
Qed.

Lemma extensions_of_alive (h : heap) (c e : loc) :
  resolve_ok h c = true -> extensions_of h c = VRef e -> alive h e.
Proof.
  intros Hok He. unfold extensions_of in He.
  destruct (field h c "resolve") as [| | | |r] eqn:Er; try done.
  destruct (resolve_ok_alive h c r Hok Er) as (_ & Hal & _). by apply Hal.
Qed.

Lemma fresh_not_alive (h h' : heap) (l : loc) :
  h' !! l = None -> grows h h' -> h !! l = None.
Proof.
  intros Hl Hg. destruct (h !! l) eqn:E; [|done].
  assert (alive h' l) as [? ?]; [|congruence].
  eapply grows_alive; [done|]. by eexists.
Qed.

Lemma typescript_defaults_lookup (ep mo : loc) :
  typescript_defaults ep mo !! "entryPaths" = Some (VRef ep) /\
  typescript_defaults ep mo !! "modules" = Some (VRef mo) /\
  typescript_defaults ep mo !! "tsConfigFile"
  = Some (VString "tsconfig.json").
Proof. by repeat split. Qed.

Lemma module_ok_intro (h : heap) (c m ru : loc) (es : list val) :
  field h c "module" = VRef m ->
  field h m "rules" = VRef ru ->
  elems_at h ru = Some es ->
  module_ok h c = true /\ rules_of h c = Some es.
Proof.
  intros Hm Hr He.
  assert (rules_of h c = Some es) as Hrules.
  { unfold rules_of. rewrite Hm. cbn [fieldv]. by rewrite Hr. }
  split; [|done]. unfold module_ok. rewrite Hrules.
  rewrite bool_decide_eq_true_2 by eauto. apply orb_true_r.
Qed.
Lemma source_map_rule_unit (h : heap) :
  exists h' r t u,
    (let* test := new_regexp "\.js$" in
     let* use := new_array [VString "source-map-loader"] in
     new_object {[ "test" := test; "use" := use;
                   "enforce" := VString "pre" ]}) h = (Ok (VRef r), h') /\
    modifies [] [] h h' /\
    field h' r "enforce" = VString "pre" /\
    field h' r "test" = VRef t /\
    slot_at h' t = Some (SRegExp "\.js$") /\
    field h' r "use" = VRef u /\
    elems_at h' u = Some [VString "source-map-loader"] /\
    h !! r = None /\ h !! t = None /\ h !! u = None.
Proof.
  rewrite <- bind_ret_r. run.
  eexists _, _, _, _. split; [reflexivity|]. split; [solve_modifies|].
  split; [by hsimpl|]. split; [by hsimpl|]. split; [by hsimpl|].
  split; [by hsimpl|]. split; [by hsimpl|].
  split; [solve_fresh|]. split; solve_fresh.
Qed.

Lemma useSourceMap_dev_run (h : heap) (c : loc) :
  alive h c ->
  module_ok h c = true ->
  exists h' m ru r,
    useSourceMap (VRef c) (VBool true) h = (Ok tt, h') /\
    field h' c "devtool" = VString "cheap-module-source-map" /\
    field h' c "module" = VRef m /\
    field h' m "rules" = VRef ru /\
    elems_at h' ru = Some (default [] (rules_of h c) ++ [VRef r]) /\
    h !! r = None /\
    ((truthy (field h c "module") = false /\ h !! m = None /\
      h !! ru = None) \/
     (field h c "module" = VRef m /\ field h m "rules" = VRef ru)) /\
    modifies [(c, "devtool"); (c, "module")] [ru] h h' /\
    field h' r "enforce" = VString "pre".
Proof.
  intros Hc Hok. rewrite <- bind_ret_r. unfold useSourceMap. cbn [truthy].
  run.
  set (h0 := hset c "devtool" _ h) in *.
  assert (modifies [(c, "devtool")] [] h h0) as Hm0
    by (subst h0; solve_modifies).
  destruct (module_ok_modifies _ _ h h0 c Hm0 Hc) as [Hok0 Hrules0];
    [solve_notin|intros; solve_notin|intros; apply not_elem_of_nil|done|].
  assert (field h0 c "devtool" = VString "cheap-module-source-map") as Hdev
    by (subst h0; by hsimpl).
  assert (forall l k, k <> "devtool" -> field h0 l k = field h l k) as Hkeep.
  { intros l k Hk. subst h0. unfold field, hset.
    destruct (decide (l = c)) as [->|Hne].
    - rewrite lookup_alter_eq. destruct (h !! c); [|done]. cbn.
      by rewrite lookup_insert_ne.
    - by rewrite lookup_alter_ne. }
  clearbody h0.
  destruct (init_module_unit c h0)
    as (h1 & m & ru & Hrun1 & Hg1 & Hcm & Hma & Hmr & Hru & Hm1 & Hprov);
    [solve_alive|done|].
  run_eq Hrun1.
  destruct (source_map_rule_unit h1)
    as (h2 & r & t & u & Hrun2 & Hm2 & Henf & _ & _ & _ & _ & Hr & _ & _).
  pose proof (push_rule_unit c m ru r _ _ h1 h2 Hcm Hmr Hru Hrun2 Hm2)
    as Hpush.
  run_eq Hpush.
  assert (modifies [(c, "devtool"); (c, "module")] [] h h1) as Hm01
    by chain_modifies Hm0 Hm1.
  assert (modifies [] [ru] h1 (hset_elems ru
            (default [] (rules_of h0 c) ++ [VRef r]) h2)) as Hm13
    by solve_modifies.
  eexists _, m, ru, r. split; [reflexivity|].
  split; [by hsimpl|]. split; [by hsimpl|]. split; [by hsimpl|].
  split; [hsimpl; by rewrite ?Hrules0|].
  split; [eapply fresh_not_alive; [exact Hr|by eapply modifies_grows]|].
  split.
  { destruct Hprov as [(Hf0 & Hf1 & Hf2)|(Hf1 & Hf2 & _)].
    - left. rewrite <- Hkeep by done. split; [done|].
      split; (eapply fresh_not_alive; [eassumption|by eapply modifies_grows]).
    - right. by rewrite <- !Hkeep. }
  split; [chain_modifies Hm01 Hm13|]. by hsimpl.
Qed.

(** ** Calls that raise *)

Lemma bind_throw {A B} (m : M A) (K : A -> M B) (h h' : heap) (e : exn) :
  m h = (Throw e, h') -> bind m K h = (Throw e, h').
Proof. intros Hm. unfold bind. by rewrite Hm. Qed.

Lemma array_elems_throw (v : val) (h : heap) :
  valid h v = true ->
  elems_of h v = None ->
  array_elems v h = (Throw TypeError, h).
Proof.
  intros Hv He. destruct v as [| | | |l]; try done.
  cbn in Hv, He. apply bool_decide_eq_true in Hv as [o Ho].
  unfold array_elems, elems_at in *. rewrite Ho in *.
  by destruct (internal o).
Qed.

Lemma push_throw (v x : val) (h : heap) :
  valid h v = true ->
  elems_of h v = None ->
  push v x h = (Throw TypeError, h).
Proof.
  intros Hv He. unfold push. apply bind_throw. by apply array_elems_throw.
Qed.

Lemma iterate_throw (v : val) (h : heap) :
  valid h v = true ->
  spread_elems h v = None ->
  iterate v h = (Throw TypeError, h).
Proof.
  intros Hv He. destruct v as [| | |s|l]; try done.
  cbn in Hv, He. apply bool_decide_eq_true in Hv as [o Ho].
  unfold iterate, elems_at in *. rewrite Ho in *.
  by destruct (internal o).
Qed.

(** ** Plugins in a heap that changes *)

Lemma is_zip_grows (h h' : heap) (v : val) :
  grows h h' -> valid h v = true -> is_zip h' v = is_zip h v.
Proof.
  intros Hg Hv. destruct v as [| | | |l]; try done.
  cbn in Hv. apply bool_decide_eq_true in Hv as [o Ho].
  destruct (Hg l o Ho) as (o' & Ho' & Hcls).
  cbn. by rewrite Ho, Ho', Hcls.
Qed.

Lemma is_plugin_valid (h : heap) (v : val) :
  is_plugin h v = true -> valid h v = true.
Proof.
  destruct v as [| | | |l]; try done. cbn.
  destruct (h !! l) eqn:E; [|done]. intros _.
  by rewrite bool_decide_eq_true_2.
Qed.

Lemma is_plugin_same (h h' : heap) (l : loc) :
  h' !! l = h !! l -> is_plugin h' (VRef l) = is_plugin h (VRef l).
Proof. intros Hl. cbn. by rewrite Hl. Qed.

Lemma is_plugin_hset (l : loc) (k : string) (x : val) (h : heap) (v : val) :
  k <> "constructor" -> is_plugin (hset l k x h) v = is_plugin h v.
Proof.
  intros Hk. destruct v as [| | | |l']; try done. unfold is_plugin, hset.
  destruct (decide (l = l')) as [->|Hne].
  - rewrite lookup_alter_eq. destruct (h !! l'); [|done]. cbn.
    by rewrite lookup_insert_ne.
  - by rewrite lookup_alter_ne.
Qed.

Lemma is_plugin_hset_elems (l : loc) (es : list val) (h : heap) (v : val) :
  is_plugin (hset_elems l es h) v = is_plugin h v.
Proof.
  destruct v as [| | | |l']; try done. unfold is_plugin, hset_elems.
  destruct (decide (l = l')) as [->|Hne].
  - rewrite lookup_alter_eq. by destruct (h !! l').
  - by rewrite lookup_alter_ne.
Qed.

(** ** The partition, again *)

Lemma filter_filter_same {A} (P : A -> Prop) `{!forall x, Decision (P x)}
    (l : list A) :
  filter P (filter P l) = filter P l.
Proof.
  induction l as [|x l IH]; [done|].
  rewrite filter_cons. destruct (decide (P x)) as [Hx|Hx]; [|done].
  rewrite filter_cons, decide_True by done. by rewrite IH.
Qed.

Lemma filter_filter_none {A} (P Q : A -> Prop)
    `{!forall x, Decision (P x)} `{!forall x, Decision (Q x)} (l : list A) :
  (forall x, P x -> Q x -> False) ->
  filter P (filter Q l) = [].
Proof.
  intros Hpq. induction l as [|x l IH]; [done|].
  rewrite filter_cons. destruct (decide (Q x)) as [Hx|Hx]; [|done].
  rewrite filter_cons, decide_False by eauto. done.
Qed.

Lemma partitioned_idem {A} (key : A -> bool) (l : list A) :
  partitioned key (partitioned key l) = partitioned key l.
Proof.
  unfold partitioned. rewrite !filter_app, !filter_filter_same.
  rewrite (filter_filter_none (fun x => key x = false) (fun x => key x = true))
    by (intros x; congruence).
  rewrite (filter_filter_none (fun x => key x = true) (fun x => key x = false))
    by (intros x; congruence).
  by rewrite app_nil_r.
Qed.

Lemma forallb_app {A} (f : A -> bool) (l1 l2 : list A) :
  forallb f (l1 ++ l2) = forallb f l1 && forallb f l2.
Proof.
  induction l1 as [|x l1 IH]; [done|]. cbn. by rewrite IH, andb_assoc.
Qed.

Lemma forallb_partitioned {A} (f key : A -> bool) (l : list A) :
  forallb f l = true -> forallb f (partitioned key l) = true.
Proof.
  intros Hl. unfold partitioned. rewrite forallb_app.
  assert (forall P `{!forall x, Decision (P x)},
            forallb f (filter P l) = true) as Hf.
  { intros P ?. induction l as [|x l IH]; [done|].
    cbn in Hl. apply andb_prop in Hl as [Hx Hl].
    rewrite filter_cons. destruct (decide (P x)); [|by apply IH].
    cbn. rewrite Hx. by apply IH. }
  by rewrite !Hf.
Qed.

Lemma filter_ext_Forall {A} (P Q : A -> Prop)
    `{!forall x, Decision (P x)} `{!forall x, Decision (Q x)} (l : list A) :
  Forall (fun x => P x <-> Q x) l -> filter P l = filter Q l.
Proof.
  induction 1 as [|x l Hx Hl IH]; [done|].
  rewrite !filter_cons, IH.
  destruct (decide (P x)) as [HP|HP], (decide (Q x)) as [HQ|HQ];
    try done; tauto.
Qed.

Lemma partitioned_ext {A} (key key' : A -> bool) (l : list A) :
  Forall (fun x => key x = key' x) l ->
  partitioned key l = partitioned key' l.
Proof.
  intros Hl. unfold partitioned. f_equal.
  - apply filter_ext_Forall. eapply Forall_impl; [exact Hl|].
    intros x Hx. cbn. by rewrite Hx.
  - apply filter_ext_Forall. eapply Forall_impl; [exact Hl|].
    intros x Hx. cbn. by rewrite Hx.
Qed.

(** ** Well-formed fields, from what they hold *)

Lemma absent_or_list_intro (h : heap) (l a : loc) (k : string)
    (es : list val) :
  field h l k = VRef a ->
  elems_at h a = Some es ->
  absent_or_list h l k = true /\ list_of h l k = es.
Proof.
  intros Hf He. unfold absent_or_list, is_list, list_of. rewrite Hf.
  cbn [elems_of]. rewrite He. cbn [default id]. split; [|done].
  rewrite (bool_decide_eq_true_2 (is_Some (Some es))) by eauto.
  apply orb_true_r.
Qed.

Lemma forallb_pointwise {A} (f g : A -> bool) (l : list A) :
  (forall x, f x = g x) -> forallb f l = forallb g l.
Proof.
  intros Hfg. induction l as [|x l IH]; [done|]. cbn. by rewrite Hfg, IH.
Qed.

Lemma extensions_of_list (h : heap) (c e : loc) :
  resolve_ok h c = true ->
  extensions_of h c = VRef e ->
  is_Some (elems_at h e).
Proof.
  intros Hok He. unfold extensions_of in He.
  destruct (field h c "resolve") as [| | | |r] eqn:Er; try done.
  cbn [fieldv] in He.
  apply resolve_ok_cases in Hok as [Hok|(r' & Hr' & _ & Hl & _)].
  { by rewrite Er in Hok. }
  rewrite Er in Hr'. injection Hr' as <-.
  apply absent_or_list_cases in Hl as [[Hl _]|(a & Ha & Hes)].
  - by rewrite He in Hl.
  - rewrite He in Ha. injection Ha as <-. by eexists.
Qed.

Lemma modules_of_alive (h : heap) (c a : loc) :
  resolve_ok h c = true -> modules_of h c = VRef a -> alive h a.
Proof.
  intros Hok Ha. unfold modules_of in Ha.
  destruct (field h c "resolve") as [| | | |r] eqn:Er; try done.
  destruct (resolve_ok_alive h c r Hok Er) as (_ & _ & Hal). by apply Hal.
Qed.

(** * The claims *)

Section Claims.

Variable path_join : list string -> string.
Variable path_resolve : list string -> string.
Variable getEntries : list val -> obj.
Variable object_to_string : heap -> loc -> string.

(** ** [fixZipPackage] *)

Lemma isZipPlugin_run (h : heap) (v : val) :
  is_plugin h v = true ->
  isZipPlugin object_to_string v h = (Ok (is_zip h v), h).
Proof.
  unfold is_plugin, is_zip, isZipPlugin, bind, instanceof, zip_class,
    get_constructor_name, loose_eq_name.
  destruct v as [| | | |l]; try done.
  destruct (h !! l) as [o|] eqn:Ho; [|done].
  intros Hc%bool_decide_eq_true.
  destruct (extends (cls o) ZipPlugin); [done|].
  by rewrite Ho, Hc.
Qed.

Lemma filter_defined_plugins (h : heap) (ps : list val) :
  forallb (is_plugin h) ps = true ->
  filter (fun x => is_undefined x = false) ps = ps /\
  filter (fun x => is_undefined x = true) ps = [].
Proof.
  induction ps as [|p ps IH]; [done|].
  cbn [forallb]. intros [Hp Hps]%andb_prop. destruct (IH Hps) as [IH1 IH2].
  rewrite !filter_cons. destruct p; try done.
  rewrite decide_True, decide_False by done. by rewrite IH1, IH2.
Qed.

Lemma run_sort_plugins {B} (l : loc) (ps : list val) (K : val -> M B) h :
  elems_at h l = Some ps ->
  forallb (is_plugin h) ps = true ->
  bind (array_sort (fun a b =>
          let* aIsZip := isZipPlugin object_to_string a in
          let* bIsZip := isZipPlugin object_to_string b in
          ret ((if aIsZip then 1 else 0) - (if bIsZip then 1 else 0))%Z)
          (VRef l)) K h
  = K (VRef l) (hset_elems l (partitioned (is_zip h) ps) h).
Proof.
  intros Hl Hps. unfold array_sort.
  rewrite bind_assoc. rewrite (run_array_elems l ps) by done.
  destruct (filter_defined_plugins h ps Hps) as [-> ->].
  rewrite bind_assoc.
  erewrite bind_run; cycle 1.
  { apply (sort_by_partition (is_zip h) _ h (fun v => is_plugin h v = true)).
    - intros x y Hx Hy. unfold bind.
      rewrite (isZipPlugin_run h x Hx), (isZipPlugin_run h y Hy).
      by destruct (is_zip h x), (is_zip h y).
    - apply Forall_forall. intros x Hx.
      rewrite forallb_forall in Hps. apply Hps. by apply list_elem_of_In. }
  rewrite bind_assoc, app_nil_r.
  rewrite (run_set_elems l ps) by done.
  by rewrite run_ret.
Qed.

(** C1.  [fixZipPackage] is a no-op when the configuration has no plugin
    list.  On a list of plugins, some matching the packaging kind through
    [instanceof] or through the class name and some not, it leaves in the
    same array a list in which the non-matching plugins keep their relative
    order, the matching plugins keep theirs, every matching plugin comes
    after every non-matching one and the length is unchanged; no other
    object changes, and on the empty list the heap is unchanged. *)
Theorem fixZipPackage_moves_zip_plugins_last (h : heap) (c : loc) :
  alive h c ->
  (truthy (field h c "plugins") = false ->
   fixZipPackage object_to_string (VRef c) h = (Ok tt, h)) /\
  (forall a ps,
      field h c "plugins" = VRef a ->
      elems_at h a = Some ps ->
      forallb (is_plugin h) ps = true ->
      exists h' ps',
        fixZipPackage object_to_string (VRef c) h = (Ok tt, h') /\
        field h' c "plugins" = VRef a /\
        elems_at h' a = Some ps' /\
        filter (fun p => is_zip h p = false) ps'
          = filter (fun p => is_zip h p = false) ps /\
        filter (fun p => is_zip h p = true) ps'
          = filter (fun p => is_zip h p = true) ps /\
        (forall i j p q,
            ps' !! i = Some p -> ps' !! j = Some q ->
            is_zip h p = true -> is_zip h q = false -> j < i) /\
        length ps' = length ps /\
        (forall p, is_zip h' p = is_zip h p) /\
        (forall l, l <> a -> l <> c -> h' !! l = h !! l) /\
        (ps = [] -> h' = h)).
Proof.
  intros Hc. split.
  - intros Hp. rewrite <- bind_ret_r. unfold fixZipPackage. run. done.
  - intros a ps Ha Hps Hpl.
    rewrite <- bind_ret_r. unfold fixZipPackage. run.
    rewrite (run_sort_plugins a ps) by done. run.
    eexists _, (partitioned (is_zip h) ps). split; [reflexivity|].
    split; [by hsimpl|]. split; [by hsimpl|].
    split; [apply partitioned_false|]. split; [apply partitioned_true|].
    split; [apply partitioned_order|]. split; [apply partitioned_length|].
    split; [intros p; by rewrite is_zip_hset, is_zip_hset_elems|].
    split; [intros l Hla Hlc; by hsimpl|].
    intros ->. rewrite partitioned_nil, hset_elems_id by done.
    by apply hset_ref_id.
Qed.

(** ** [getDedupeAliases] *)

Lemma dedupe_aliases_lookup folder names m :
  m ∈ names ->
  m <> "__proto__" ->
  dedupe_aliases path_join path_resolve folder names !! m
  = Some (alias_path path_join path_resolve folder m).
Proof.
  intros Hm Hp. unfold dedupe_aliases.
  induction names as [|n names IH] using rev_ind; [by apply elem_of_nil in Hm|].
  rewrite fmap_app. cbn [fmap list_fmap]. rewrite assign_all_snoc.
  destruct (decide (n = m)) as [->|Hne].
  { rewrite assign_other by done. apply lookup_insert_eq. }
  rewrite assign_lookup_ne by done. apply IH.
  apply elem_of_app in Hm as [Hm|Hm]; [done|].
  apply list_elem_of_singleton in Hm. congruence.
Qed.

Lemma dedupe_aliases_absent folder names m :
  m ∉ names ->
  dedupe_aliases path_join path_resolve folder names !! m = None.
Proof.
  intros Hm. unfold dedupe_aliases. rewrite assign_all_absent; [done|].
  rewrite <- list_fmap_compose. by rewrite list_fmap_id.
Qed.

Lemma dedupe_aliases_proto folder names :
  dedupe_aliases path_join path_resolve folder names !! "__proto__" = None.
Proof. by apply assign_all_proto. Qed.

Lemma for_each_alias (l : loc) (f : string) (names : list string)
    (acc : gmap string val) (h : heap) :
  for_each (VString <$> names) (fun mod_ =>
    let* joined := path_join_js path_join [VString f; mod_] in
    let* resolved := path_resolve_js path_resolve [joined] in
    let* key := to_string object_to_string mod_ in
    set_computed (VRef l) key resolved) (<[l := Obj ObjectC SNone acc]> h)
  = (Ok tt,
     <[l := Obj ObjectC SNone
              (assign_all ((fun m => (m, alias_path path_join path_resolve f m))
                             <$> names) acc)]> h).
Proof.
  revert acc. induction names as [|n names IH]; intros acc; [done|].
  cbn [fmap list_fmap for_each].
  erewrite bind_run; [apply IH|].
  unfold path_join_js, path_resolve_js. cbn.
  unfold bind, ret, to_string, js_string, set_computed, set_prop, assign.
  rewrite lookup_insert_eq. cbn.
  destruct (_ && _); [done|]. f_equal. by rewrite insert_insert_eq.
Qed.

Lemma run_getDedupeAliases {B} (ml : loc) (names : list string)
    (folder : val) (f : string) (K : val -> M B) (h : heap) :
  elems_at h ml = Some (VString <$> names) ->
  folder_name folder = Some f ->
  bind (getDedupeAliases path_join path_resolve object_to_string
          (VRef ml) folder) K h
  = K (VRef (fresh_loc h))
      (<[fresh_loc h := Obj ObjectC SNone
                          (dedupe_aliases path_join path_resolve f names)]> h).
Proof.
  intros Hml Hf.
  assert (default_param folder (VString "./node_modules") = VString f) as Hd.
  { destruct folder; try done; cbn in *; congruence. }
  unfold getDedupeAliases. rewrite Hd.
  rewrite bind_assoc. unfold new_object. rewrite run_alloc.
  pose proof (fresh_loc_None h) as Hl.
  generalize dependent (fresh_loc h). intros l Hl.
  rewrite bind_assoc. erewrite run_iterate by solve_obs.
  rewrite bind_assoc.
  rewrite (bind_run _ _ _ _ _ (for_each_alias l f names ∅ h)).
  by rewrite run_ret.
Qed.


(** ** [dedupeModules] *)

Ltac finish :=
  split; [solve_grows|]; split; [by hsimpl|]; split; [same_ref|];
  split; [solve_alive|]; split; [by hsimpl|]; split; [solve_fresh|];
  split; [by hsimpl|]; split; [by hsimpl|]; split; [same_ref|];
  split; [by hsimpl|].

(** The footprint is proved last, when the objects it names are known. *)
Ltac new_resolve :=
  first
    [ intros _; solve_fresh
    | done
    | let F := fresh in
      intros F;
      match goal with
      | H : field _ _ "resolve" = VRef _ |- _ => rewrite H in F; done
      end ].

Ltac finish_steps := split; [|split; [|finish]]; cycle 2.

Lemma dedupeModules_full (h : heap) (c ml : loc) (names : list string)
    (folder : val) (f : string) :
  alive h c ->
  absent_or_object h c "resolve" = true ->
  valid h (fieldv h (field h c "resolve") "alias") = true ->
  elems_at h ml = Some (VString <$> names) ->
  folder_name folder = Some f ->
  absent_or_list h c "plugins" = true ->
  forallb (valid h) (list_of h c "plugins") = true ->
  exists h' r al p added,
    dedupeModules path_join path_resolve object_to_string
      (VRef c) (VRef ml) folder h = (Ok tt, h') /\
    modifies [(c, "resolve"); (r, "alias"); (c, "plugins")] [p] h h' /\
    (truthy (field h c "resolve") = false -> h !! r = None) /\
    grows h h' /\
    field h' c "resolve" = VRef r /\
    (forall r0, field h c "resolve" = VRef r0 -> r = r0) /\
    alive h' r /\
    field h' r "alias" = VRef al /\
    h !! al = None /\
    h' !! al
    = Some (Obj ObjectC SNone
              (dedupe_aliases path_join path_resolve f names
               ∪ own_enumerable h (fieldv h (field h c "resolve") "alias"))) /\
    field h' c "plugins" = VRef p /\
    (forall p0, field h c "plugins" = VRef p0 -> p = p0) /\
    elems_at h' p = Some (list_of h c "plugins" ++ added) /\
    (if existsb (is_checker h) (list_of h c "plugins") then added = []
     else exists k, added = [VRef k] /\ h !! k = None /\
                    is_checker h' (VRef k) = true) /\
    (truthy (field h c "plugins") = false -> h !! p = None) /\
    (p <> ml -> elems_at h' ml = elems_at h ml).
Proof.
  intros Hc Hres Hal Hml Hf Hpl Hval.
  rewrite <- bind_ret_r. unfold dedupeModules, default_prop.
  rewrite (folder_name_default folder f Hf).
  apply absent_or_object_cases in Hres as [Hres|(r & Hres & Hr)];
  apply absent_or_list_cases in Hpl as [[Hpl Hnil]|(p & Hpl & Hps)].
  - rewrite (fieldv_falsy _ _ _ Hres) in *. run.
    erewrite run_getDedupeAliases by solve_obs. gen_fresh.
    run.
    erewrite (run_some_checker _ []) by solve_obs.
    rewrite Hnil. cbn [existsb negb app]. run.
    eexists _, _, _, _, _. split; [reflexivity|]. finish_steps.
    split; [eexists; split; [reflexivity|]; split; [solve_fresh|]|].
    + unfold is_checker. by hsimpl.
    + split; [intros _; solve_fresh|]. intros _. by hsimpl.
    + weak_modifies.
    + new_resolve.
  - rewrite (fieldv_falsy _ _ _ Hres) in *. run.
    erewrite run_getDedupeAliases by solve_obs. gen_fresh.
    run.
    erewrite (run_some_checker _ (list_of h c "plugins"))
      by first [solve_obs | solve_valid].
    erewrite grows_existsb_checker by first [solve_grows | eassumption].
    destruct (existsb (is_checker h) (list_of h c "plugins")) eqn:Hfound;
      cbn [negb]; run.
    + eexists _, _, _, _, []. split; [reflexivity|]. rewrite app_nil_r. finish_steps.
      split; [done|]. split; [done|]. intros _. by hsimpl.
      weak_modifies. new_resolve.
    + eexists _, _, _, _, _. split; [reflexivity|]. finish_steps.
      split; [eexists; split; [reflexivity|]; split; [solve_fresh|]|].
      * unfold is_checker. by hsimpl.
      * split; [done|]. intros Hne. by hsimpl.
      * weak_modifies.
      * new_resolve.
  - rewrite Hres in Hal. cbn [fieldv] in Hal. run.
    erewrite run_getDedupeAliases by solve_obs. gen_fresh.
    run.
    erewrite (run_some_checker _ []) by solve_obs.
    rewrite Hnil. cbn [existsb negb app]. run.
    eexists _, _, _, _, _. split; [reflexivity|]. finish_steps.
    split; [eexists; split; [reflexivity|]; split; [solve_fresh|]|].
    + unfold is_checker. by hsimpl.
    + split; [intros _; solve_fresh|]. intros _. by hsimpl.
    + weak_modifies.
    + new_resolve.
  - rewrite Hres in Hal. cbn [fieldv] in Hal. run.
    erewrite run_getDedupeAliases by solve_obs. gen_fresh.
    run.
    erewrite (run_some_checker _ (list_of h c "plugins"))
      by first [solve_obs | solve_valid].
    erewrite grows_existsb_checker by first [solve_grows | eassumption].
    destruct (existsb (is_checker h) (list_of h c "plugins")) eqn:Hfound;
      cbn [negb]; run.
    + eexists _, _, _, _, []. split; [reflexivity|]. rewrite app_nil_r. finish_steps.
      split; [done|]. split; [done|]. intros _. by hsimpl.
      weak_modifies. new_resolve.
    + eexists _, _, _, _, _. split; [reflexivity|]. finish_steps.
      split; [eexists; split; [reflexivity|]; split; [solve_fresh|]|].
      * unfold is_checker. by hsimpl.
      * split; [done|]. intros Hne. by hsimpl.
      * weak_modifies.
      * new_resolve.
Qed.

Lemma dedupeModules_steps (h : heap) (c ml : loc) (names : list string)
    (folder : val) (f : string) :
  alive h c ->
  absent_or_object h c "resolve" = true ->
  valid h (fieldv h (field h c "resolve") "alias") = true ->
  elems_at h ml = Some (VString <$> names) ->
  folder_name folder = Some f ->
  absent_or_list h c "plugins" = true ->
  forallb (valid h) (list_of h c "plugins") = true ->
  exists h' r al p added,
    dedupeModules path_join path_resolve object_to_string
      (VRef c) (VRef ml) folder h = (Ok tt, h') /\
    modifies [(c, "resolve"); (r, "alias"); (c, "plugins")] [p] h h' /\
    grows h h' /\
    field h' c "resolve" = VRef r /\
    (forall r0, field h c "resolve" = VRef r0 -> r = r0) /\
    alive h' r /\
    field h' r "alias" = VRef al /\
    h !! al = None /\
    h' !! al
    = Some (Obj ObjectC SNone
              (dedupe_aliases path_join path_resolve f names
               ∪ own_enumerable h (fieldv h (field h c "resolve") "alias"))) /\
    field h' c "plugins" = VRef p /\
    (forall p0, field h c "plugins" = VRef p0 -> p = p0) /\
    elems_at h' p = Some (list_of h c "plugins" ++ added) /\
    (if existsb (is_checker h) (list_of h c "plugins") then added = []
     else exists k, added = [VRef k] /\ h !! k = None /\
                    is_checker h' (VRef k) = true) /\
    (truthy (field h c "plugins") = false -> h !! p = None) /\
    (p <> ml -> elems_at h' ml = elems_at h ml).
Proof.
  intros Hc Hres Hal Hml Hf Hpl Hval.
  destruct (dedupeModules_full h c ml names folder f
              Hc Hres Hal Hml Hf Hpl Hval)
    as (h' & r & al & p & added & Hrun & Hm & _ & Hrest).
  exists h', r, al, p, added. split; [done|]. split; [done|]. exact Hrest.
Qed.

Lemma dedupeModules_run (h : heap) (c ml : loc) (names : list string)
    (folder : val) (f : string) :
  alive h c ->
  absent_or_object h c "resolve" = true ->
  valid h (fieldv h (field h c "resolve") "alias") = true ->
  elems_at h ml = Some (VString <$> names) ->
  folder_name folder = Some f ->
  absent_or_list h c "plugins" = true ->
  forallb (valid h) (list_of h c "plugins") = true ->
  exists h' r al p added,
    dedupeModules path_join path_resolve object_to_string
      (VRef c) (VRef ml) folder h = (Ok tt, h') /\
    grows h h' /\
    field h' c "resolve" = VRef r /\
    (forall r0, field h c "resolve" = VRef r0 -> r = r0) /\
    alive h' r /\
    field h' r "alias" = VRef al /\
    h !! al = None /\
    h' !! al
    = Some (Obj ObjectC SNone
              (dedupe_aliases path_join path_resolve f names
               ∪ own_enumerable h (fieldv h (field h c "resolve") "alias"))) /\
    field h' c "plugins" = VRef p /\
    (forall p0, field h c "plugins" = VRef p0 -> p = p0) /\
    elems_at h' p = Some (list_of h c "plugins" ++ added) /\
    (if existsb (is_checker h) (list_of h c "plugins") then added = []
     else exists k, added = [VRef k] /\ h !! k = None /\
                    is_checker h' (VRef k) = true) /\
    (truthy (field h c "plugins") = false -> h !! p = None) /\
    (p <> ml -> elems_at h' ml = elems_at h ml).
Proof.
  intros Hc Hres Hal Hml Hf Hpl Hval.
  destruct (dedupeModules_steps h c ml names folder f
              Hc Hres Hal Hml Hf Hpl Hval)
    as (h' & r & al & p & added & Hrun & _ & Hrest).
  by exists h', r, al, p, added.
Qed.

(** C9.  [dedupeModules] leaves in [config.resolve.alias] a new mapping
    that holds every newly computed alias, whatever its key was mapped to
    before, and for every key without a newly computed alias the value the
    key had in the mapping that was there before.  The newly computed
    aliases are the entries of the mapping [getDedupeAliases] returns: a
    module name has its path in the folder and a key that is not a module
    name has no entry; neither has ['__proto__'], which no assignment
    makes a key. *)
Theorem dedupeModules_alias_precedence (h : heap) (c ml : loc)
    (names : list string) (folder : val) (f : string) :
  alive h c ->
  absent_or_object h c "resolve" = true ->
  valid h (fieldv h (field h c "resolve") "alias") = true ->
  elems_at h ml = Some (VString <$> names) ->
  folder_name folder = Some f ->
  absent_or_list h c "plugins" = true ->
  forallb (valid h) (list_of h c "plugins") = true ->
  let old := own_enumerable h (fieldv h (field h c "resolve") "alias") in
  let computed := dedupe_aliases path_join path_resolve f names in
  exists h' r al merged,
    dedupeModules path_join path_resolve object_to_string
      (VRef c) (VRef ml) folder h = (Ok tt, h') /\
    field h' c "resolve" = VRef r /\
    field h' r "alias" = VRef al /\
    h !! al = None /\
    h' !! al = Some (Obj ObjectC SNone merged) /\
    (forall k v, computed !! k = Some v -> merged !! k = Some v) /\
    (forall k, computed !! k = None -> merged !! k = old !! k) /\
    (forall k, k ∈ names -> k <> "__proto__" ->
       merged !! k = Some (alias_path path_join path_resolve f k)) /\
    (forall k, k ∉ names -> merged !! k = old !! k) /\
    merged !! "__proto__" = old !! "__proto__".
Proof.
  intros Hc Hres Hal Hml Hf Hpl Hval old computed.
  destruct (dedupeModules_run h c ml names folder f Hc Hres Hal Hml Hf Hpl Hval)
    as (h' & r & al & p & added & Hrun & _ & Hr & _ & _ & Ha & Hfresh & Hal'
        & _).
  eexists h', r, al, _. split; [done|]. split; [done|]. split; [done|].
  split; [done|]. split; [done|]. split; [|split; [|split; [|split]]].
  - intros k v Hk. by apply lookup_union_Some_l.
  - intros k Hk. by apply lookup_union_r.
  - intros k Hk Hp. apply lookup_union_Some_l. by apply dedupe_aliases_lookup.
  - intros k Hk. apply lookup_union_r. by apply dedupe_aliases_absent.
  - apply lookup_union_r. apply dedupe_aliases_proto.
Qed.

(** C3, as amended.  After two calls of [dedupeModules] on one
    configuration the plugin list holds [max 1 n] instances of the
    duplicate-package checker, [n] being the number it held before the
    first call: exactly one when it held none or one.  The second call adds
    nothing to the list. *)
Theorem dedupeModules_twice_adds_one_checker (h : heap) (c ml : loc)
    (names : list string) (folder : val) (f : string) :
  alive h c ->
  absent_or_object h c "resolve" = true ->
  valid h (fieldv h (field h c "resolve") "alias") = true ->
  elems_at h ml = Some (VString <$> names) ->
  folder_name folder = Some f ->
  absent_or_list h c "plugins" = true ->
  forallb (valid h) (list_of h c "plugins") = true ->
  field h c "plugins" <> VRef ml ->
  exists h1 h2,
    dedupeModules path_join path_resolve object_to_string
      (VRef c) (VRef ml) folder h = (Ok tt, h1) /\
    dedupeModules path_join path_resolve object_to_string
      (VRef c) (VRef ml) folder h1 = (Ok tt, h2) /\
    list_of h2 c "plugins" = list_of h1 c "plugins" /\
    length (checkers h2 c) = Nat.max 1 (length (checkers h c)) /\
    (length (checkers h c) <= 1 -> length (checkers h2 c) = 1).
Proof.
  intros Hc Hres Hal Hml Hf Hpl Hval Hsep.
  destruct (dedupeModules_run h c ml names folder f Hc Hres Hal Hml Hf Hpl Hval)
    as (h1 & r & al & p & added & Hrun1 & Hg1 & Hr & _ & Hra & Ha & _ & Hal1
        & Hp & Hp0 & Hps & Hadded & Hpfresh & Hmlkeep).
  assert (p <> ml) as Hpml.
  { apply absent_or_list_cases in Hpl as [[Hpl _]|(p0 & Hpl & _)].
    - intros ->. specialize (Hpfresh Hpl).
      apply elems_at_alive in Hml as [? ?]. congruence.
    - rewrite (Hp0 p0 Hpl). congruence. }
  assert (list_of h1 c "plugins" = list_of h c "plugins" ++ added) as Hl1
    by (by apply (list_of_elems h1 c "plugins" p)).
  assert (forallb (valid h1) (list_of h1 c "plugins") = true) as Hval1.
  { rewrite Hl1, forallb_app. apply andb_true_intro. split.
    - by apply (grows_forall_valid h).
    - destruct (existsb (is_checker h) (list_of h c "plugins")).
      + by subst added.
      + destruct Hadded as (k & -> & _ & Hk). cbn [forallb].
        by rewrite (is_checker_valid h1 (VRef k)). }
  assert (existsb (is_checker h1) (list_of h1 c "plugins") = true) as Hfound1.
  { rewrite Hl1, existsb_app.
    rewrite (grows_existsb_checker h h1) by done.
    destruct (existsb (is_checker h) (list_of h c "plugins")); [done|].
    destruct Hadded as (k & -> & _ & Hk). cbn [existsb]. by rewrite Hk. }
  destruct (dedupeModules_run h1 c ml names folder f) as
    (h2 & r2 & al2 & p2 & added2 & Hrun2 & Hg2 & _ & _ & _ & _ & _ & _
     & Hp2 & Hp02 & Hps2 & Hadded2 & _).
  { destruct Hc as [oc Hoc]. destruct (Hg1 c oc Hoc) as (o' & Ho' & _).
    by exists o'. }
  { unfold absent_or_object. rewrite Hr. cbn [truthy negb orb].
    by apply bool_decide_eq_true. }
  { rewrite Hr. cbn [fieldv]. rewrite Ha.
    apply valid_alive. unfold alive. rewrite Hal1. eauto. }
  { by rewrite Hmlkeep. }
  { done. }
  { unfold absent_or_list, is_list. rewrite Hp. cbn [truthy negb orb elems_of].
    rewrite Hps. apply bool_decide_eq_true. eauto. }
  { done. }
  rewrite Hfound1 in Hadded2. subst added2. rewrite app_nil_r in Hps2.
  assert (list_of h2 c "plugins" = list_of h1 c "plugins") as Hl2
    by (by apply (list_of_elems h2 c "plugins" p2)).
  exists h1, h2. split; [done|]. split; [done|]. split; [done|].
  assert (length (checkers h2 c) = Nat.max 1 (length (checkers h c))) as Hcount.
  { unfold checkers. rewrite Hl2.
    rewrite (grows_filter_checker h1 h2) by done.
    rewrite Hl1, filter_app, length_app.
    rewrite (grows_filter_checker h h1) by done.
    destruct (existsb (is_checker h) (list_of h c "plugins")) eqn:Hfound.
    - subst added. apply existsb_filter_pos in Hfound. cbn. lia.
    - destruct Hadded as (k & -> & _ & Hk).
      rewrite (existsb_filter_nil _ _ Hfound).
      rewrite filter_cons, decide_True by done. done. }
  split; [done|]. intros Hle. rewrite Hcount. lia.
Qed.

(** ** [useExternal] *)

Ltac useExternal_post :=
  (split; [solve_grows|]); (split; [solve_fresh|]); (split; [by hsimpl|]);
  (split;
    [ first [ by hsimpl
            | split; by hsimpl
            | eexists; split; [by hsimpl|]; split; [solve_fresh|by hsimpl] ]
    | ]);
  (split; [by hsimpl|]); (split; [by hsimpl|]);
  first
    [ reflexivity
    | eexists _, _, _; split; [reflexivity|]; split; [solve_fresh|];
      repeat (split; [by hsimpl|]);
      eexists; split; [by hsimpl|]; split; [solve_fresh|by hsimpl] ].

Ltac useExternal_copy :=
  run; cbn [andb];
  match goal with
  | |- context [<[?x := {| cls := ObjectC; internal := SNone;
                           own := {[ _ := _ ]} |}]> _] =>
      eexists _, x, _, _; split; [reflexivity|]
  end;
  split; [|split; [|useExternal_post]]; cbv beta iota;
  [ weak_modifies | first [by right | left; split; [done|solve_fresh]] ].

Ltac useExternal_no_copy :=
  run; cbn [andb];
  match goal with
  | |- context [<[?x := {| cls := ObjectC; internal := SNone;
                           own := {[ _ := _ ]} |}]> _] =>
      eexists _, x, _, []; rewrite app_nil_r; split; [reflexivity|]
  end;
  split; [|split; [|useExternal_post]]; cbv beta iota;
  [ weak_modifies | first [by right | left; split; [done|solve_fresh]] ].

Ltac useExternal_go h d :=
  run; rewrite ?run_to_string; cbn [js_string]; run;
  (destruct (truthy (field h d "from")) eqn:?;
   [ destruct (truthy (field h d "to")) eqn:?;
     [ useExternal_copy | useExternal_no_copy ]
   | useExternal_no_copy ]).

Lemma useExternal_steps (h : heap) (c d : loc) (name : string) :
  alive h c ->
  field h d "module" = VString name ->
  valid h (field h c "externals") = true ->
  absent_or_list h c "plugins" = true ->
  distinct_refs (field h c "externals") (field h c "plugins") = true ->
  exists h' ext p added,
    useExternal object_to_string (VRef c) (VRef d) h = (Ok tt, h') /\
    modifies [(c, "externals"); (c, "plugins")]
      match externals_of h c with
      | ExtList a _ => [a; p]
      | _ => [p]
      end h h' /\
    ((truthy (field h c "plugins") = false /\ h !! p = None) \/
     field h c "plugins" = VRef p) /\
    grows h h' /\
    h !! ext = None /\
    h' !! ext = Some (Obj ObjectC SNone {[ name := field h d "global" ]}) /\
    match externals_of h c with
    | ExtAbsent => field h' c "externals" = VRef ext
    | ExtList a es =>
        field h' c "externals" = VRef a /\
        elems_at h' a = Some (es ++ [VRef ext])
    | ExtSingle v =>
        exists b, field h' c "externals" = VRef b /\ h !! b = None /\
                  elems_at h' b = Some [v; VRef ext]
    end /\
    field h' c "plugins" = VRef p /\
    elems_at h' p = Some (list_of h c "plugins" ++ added) /\
    if copy_requested h d then
      exists k pats pat,
        added = [VRef k] /\ h !! k = None /\
        class_at h' k = Some CopyPlugin /\
        field h' k "patterns" = VRef pats /\
        elems_at h' pats = Some [VRef pat] /\
        field h' pat "from" = field h d "from" /\
        field h' pat "to" = field h d "to" /\
        field h' pat "cache" = VBool true /\
        exists o,
          h' !! k = Some (Obj CopyPlugin SNone
                            {[ "patterns" := VRef pats;
                               "options" := VRef o ]}) /\
          h !! o = None /\ h' !! o = Some (Obj ObjectC SNone ∅)
    else added = [].
Proof.
  intros Hc Hd Hv Hpl Hsep.
  assert (alive h d) as Hda.
  { unfold field in Hd. unfold alive. by destruct (h !! d). }
  rewrite <- bind_ret_r. unfold useExternal, default_prop, new_copy_plugin.
  pose proof (externals_of_cases h c Hv) as Hext.
  unfold copy_requested.
  apply absent_or_list_cases in Hpl as [[Hpl Hnil]|(p & Hpl & Hps)];
    [rewrite Hnil|];
    (destruct (externals_of h c) as [|a es|v];
     [ | destruct Hext as [Hext Hes]
       | destruct Hext as (Hext & Htr & Hkind) ]).
  - useExternal_go h d.
  - useExternal_go h d.
  - destruct Hkind as [(o & -> & Ho & Hoe)|Hprim].
    + useExternal_go h d.
    + destruct v as [| |b|s|o]; try done.
      * useExternal_go h d.
      * useExternal_go h d.
      * by destruct (Hprim o).
  - useExternal_go h d.
  - rewrite Hext, Hpl in Hsep. apply distinct_refs_ne in Hsep.
    useExternal_go h d.
  - destruct Hkind as [(o & -> & Ho & Hoe)|Hprim].
    + useExternal_go h d.
    + destruct v as [| |b|s|o]; try done.
      * useExternal_go h d.
      * useExternal_go h d.
      * by destruct (Hprim o).
Qed.

Lemma useExternal_run (h : heap) (c d : loc) (name : string) :
  alive h c ->
  field h d "module" = VString name ->
  valid h (field h c "externals") = true ->
  absent_or_list h c "plugins" = true ->
  distinct_refs (field h c "externals") (field h c "plugins") = true ->
  exists h' ext p added,
    useExternal object_to_string (VRef c) (VRef d) h = (Ok tt, h') /\
    grows h h' /\
    h !! ext = None /\
    h' !! ext = Some (Obj ObjectC SNone {[ name := field h d "global" ]}) /\
    match externals_of h c with
    | ExtAbsent => field h' c "externals" = VRef ext
    | ExtList a es =>
        field h' c "externals" = VRef a /\
        elems_at h' a = Some (es ++ [VRef ext])
    | ExtSingle v =>
        exists b, field h' c "externals" = VRef b /\ h !! b = None /\
                  elems_at h' b = Some [v; VRef ext]
    end /\
    field h' c "plugins" = VRef p /\
    elems_at h' p = Some (list_of h c "plugins" ++ added) /\
    if copy_requested h d then
      exists k pats pat,
        added = [VRef k] /\ h !! k = None /\
        class_at h' k = Some CopyPlugin /\
        field h' k "patterns" = VRef pats /\
        elems_at h' pats = Some [VRef pat] /\
        field h' pat "from" = field h d "from" /\
        field h' pat "to" = field h d "to" /\
        field h' pat "cache" = VBool true
    else added = [].
Proof.
  intros Hc Hd Hv Hpl Hsep.
  destruct (useExternal_steps h c d name Hc Hd Hv Hpl Hsep)
    as (h' & ext & p & added & Hrun & _ & _ & Hg & Hf & Hext & Hmerge & Hp
        & Hes & Hadded).
  exists h', ext, p, added. repeat (split; [done|]).
  destruct (copy_requested h d); [|done].
  destruct Hadded as (k & pats & pat & ? & ? & ? & ? & ? & ? & ? & ? & _).
  by exists k, pats, pat.
Qed.

(** C2, as amended.  [useExternal] builds a new mapping from the module
    name to the global and merges it by the state of [config.externals]:
    when nothing truthy is there (the field is absent, or holds a falsy
    value such as the empty string) the field becomes the new mapping; when
    a list of length [N] is there the mapping is pushed onto that same
    list, which then has length [N + 1] and ends with it; when one truthy
    value that is not a list is there the field becomes a new two-element
    list of the old value and the new mapping. *)
Theorem useExternal_merges_externals (h : heap) (c d : loc) (name : string) :
  alive h c ->
  field h d "module" = VString name ->
  valid h (field h c "externals") = true ->
  absent_or_list h c "plugins" = true ->
  distinct_refs (field h c "externals") (field h c "plugins") = true ->
  exists h' ext,
    useExternal object_to_string (VRef c) (VRef d) h = (Ok tt, h') /\
    h !! ext = None /\
    h' !! ext = Some (Obj ObjectC SNone {[ name := field h d "global" ]}) /\
    match externals_of h c with
    | ExtAbsent => field h' c "externals" = VRef ext
    | ExtList a es =>
        field h' c "externals" = VRef a /\
        elems_at h' a = Some (es ++ [VRef ext]) /\
        length (es ++ [VRef ext]) = S (length es) /\
        last (es ++ [VRef ext]) = Some (VRef ext)
    | ExtSingle v =>
        exists b, field h' c "externals" = VRef b /\ h !! b = None /\
                  elems_at h' b = Some [v; VRef ext]
    end.
Proof.
  intros Hc Hd Hv Hpl Hsep.
  destruct (useExternal_run h c d name Hc Hd Hv Hpl Hsep)
    as (h' & ext & p & added & Hrun & _ & Hfresh & Hext & Hmerge & _).
  exists h', ext. split; [done|]. split; [done|]. split; [done|].
  destruct (externals_of h c) as [|a es|v]; [done| |done].
  destruct Hmerge as [Ha Hes]. split; [done|]. split; [done|].
  split; [rewrite length_app; cbn; lia|apply last_snoc].
Qed.

Lemma copy_requested_empty (h : heap) (d : loc) :
  field h d "from" = VString "" \/ field h d "to" = VString "" ->
  copy_requested h d = false.
Proof.
  unfold copy_requested. intros [-> | ->]; [done|].
  by destruct (truthy (field h d "from")).
Qed.

(** C10.  When [from] or [to] of the definition is the empty string,
    [useExternal] pushes nothing onto the plugin list, just as when one of
    them is omitted; the externals mapping is merged all the same, and in
    every case [config.plugins] ends up holding a list. *)
Theorem useExternal_empty_path_copies_nothing (h : heap) (c d : loc)
    (name : string) :
  alive h c ->
  field h d "module" = VString name ->
  valid h (field h c "externals") = true ->
  absent_or_list h c "plugins" = true ->
  distinct_refs (field h c "externals") (field h c "plugins") = true ->
  exists h' ext p added,
    useExternal object_to_string (VRef c) (VRef d) h = (Ok tt, h') /\
    field h' c "plugins" = VRef p /\
    elems_at h' p = Some (list_of h c "plugins" ++ added) /\
    (field h d "from" = VString "" \/ field h d "to" = VString "" ->
     added = []) /\
    (field h d "from" = VUndefined \/ field h d "to" = VUndefined ->
     added = []) /\
    h' !! ext = Some (Obj ObjectC SNone {[ name := field h d "global" ]}) /\
    match externals_of h c with
    | ExtAbsent => field h' c "externals" = VRef ext
    | ExtList a es =>
        field h' c "externals" = VRef a /\
        elems_at h' a = Some (es ++ [VRef ext])
    | ExtSingle v =>
        exists b, field h' c "externals" = VRef b /\ h !! b = None /\
                  elems_at h' b = Some [v; VRef ext]
    end.
Proof.
  intros Hc Hd Hv Hpl Hsep.
  destruct (useExternal_run h c d name Hc Hd Hv Hpl Hsep)
    as (h' & ext & p & added & Hrun & _ & Hfresh & Hext & Hmerge & Hp & Hps
        & Hadded).
  exists h', ext, p, added. split; [done|]. split; [done|]. split; [done|].
  split; [|split; [|done]].
  - intros He. by rewrite (copy_requested_empty h d He) in Hadded.
  - intros Hu. unfold copy_requested in Hadded.
    destruct Hu as [Hu|Hu]; rewrite Hu in Hadded; [done|].
    by destruct (truthy (field h d "from")).
Qed.

(** ** [useSourceMap] *)

(** C5, as amended.  On a configuration whose [module] is absent or has a
    [rules] list, [useSourceMap] with the development flag set makes
    [devtool] the string ['cheap-module-source-map'] and appends exactly
    one rule to [module.rules]: a new object whose [enforce] is ['pre'],
    whose [test] is the regular expression for [.js] files and whose [use]
    is the source-map loader.  With the flag cleared it makes [devtool] the
    string ['source-map'], leaves the rule list as it was and changes no
    object other than the configuration. *)
Theorem useSourceMap_devtool_and_rule (h : heap) (c : loc) :
  alive h c ->
  module_ok h c = true ->
  (exists h',
      useSourceMap (VRef c) (VBool true) h = (Ok tt, h') /\
      field h' c "devtool" = VString "cheap-module-source-map" /\
      exists r,
        rules_of h' c = Some (default [] (rules_of h c) ++ [VRef r]) /\
        h !! r = None /\
        field h' r "enforce" = VString "pre" /\
        (exists t, field h' r "test" = VRef t /\
                   slot_at h' t = Some (SRegExp "\.js$")) /\
        (exists u, field h' r "use" = VRef u /\
                   elems_at h' u = Some [VString "source-map-loader"])) /\
  (exists h',
      useSourceMap (VRef c) (VBool false) h = (Ok tt, h') /\
      field h' c "devtool" = VString "source-map" /\
      rules_of h' c = rules_of h c /\
      forall l, l <> c -> h' !! l = h !! l).
Proof.
  intros Hc Hm. split.
  - rewrite <- bind_ret_r. unfold useSourceMap, init_module, push_rule, default_prop.
    apply module_ok_cases in Hm as [Hm|[es Hes]].
    + assert (rules_of h c = None) as ->.
      { unfold rules_of. by destruct (field h c "module"). }
      run. eexists; split; [reflexivity|].
      split; [by hsimpl|].
      eexists; split; [unfold rules_of; by hsimpl|].
      split; [solve_fresh|]. split; [by hsimpl|].
      split; eexists; (split; [by hsimpl|]); by hsimpl.
    + rewrite Hes.
      apply rules_of_Some in Hes as (m & a & Hcm & Hma & Ha).
      run. eexists; split; [reflexivity|].
      split; [by hsimpl|].
      eexists; split; [unfold rules_of; by hsimpl|].
      split; [solve_fresh|]. split; [by hsimpl|].
      split; eexists; (split; [by hsimpl|]); by hsimpl.
  - rewrite <- bind_ret_r. unfold useSourceMap. run.
    eexists; split; [reflexivity|]. split; [by hsimpl|].
    split.
    + unfold rules_of. hsimpl.
      destruct (field h c "module") as [| | | |m]; try done.
      cbn [fieldv]. hsimpl.
      destruct (field h m "rules"); try done. cbn [elems_of]. by hsimpl.
    + intros l Hl. by hsimpl.
Qed.

(** ** [useCss] *)

Lemma image_rule_unit (oo : loc) (h : heap) :
  alive h oo ->
  exists h' r u file image fo io hm,
    image_rule object_to_string (VRef oo) h = (Ok (VRef r), h') /\
    modifies [] [] h h' /\
    field h' r "use" = VRef u /\
    elems_at h' u = Some [VRef file; VRef image] /\
    field h' file "loader" = VString "file-loader" /\
    field h' file "options" = VRef fo /\
    field h' image "loader" = VString "image-webpack-loader" /\
    field h' image "options" = VRef io /\
    field h' fo "outputPath"
    = VString (js_string object_to_string hm (field h oo "imagePath") +:+ "/") /\
    field h' fo "publicPath"
    = VString ("/" +:+ js_string object_to_string hm (field h oo "imagePath")
               +:+ "/") /\
    field h' io "disable"
    = VBool (negb (truthy (field h oo "optimizeImages"))) /\
    modifies [] [] h hm /\
    h !! r = None /\ h !! u = None /\ h !! file = None /\ h !! image = None /\
    h !! fo = None /\ h !! io = None.
Proof.
  intros Hoo. rewrite <- bind_ret_r. unfold image_rule. run.
  eexists _, _, _, _, _, _, _, _. split; [reflexivity|].
  split; [solve_modifies|].
  split; [by hsimpl|]. split; [by hsimpl|]. split; [by hsimpl|].
  split; [by hsimpl|]. split; [by hsimpl|]. split; [by hsimpl|].
  split; [hsimpl; reflexivity|]. split; [hsimpl; reflexivity|].
  split; [by hsimpl|]. split; [solve_modifies|].
  repeat (split; [solve_fresh|]). solve_fresh.
Qed.

Lemma useCss_steps (h : heap) (c : loc) (options : val) :
  alive h c ->
  module_ok h c = true ->
  valid h options = true ->
  exists h' oo m ru css img u file image fo io hm,
    useCss object_to_string (VRef c) options h = (Ok tt, h') /\
    h !! oo = None /\
    h' !! oo
    = Some (Obj ObjectC SNone (own_enumerable h options ∪ css_defaults)) /\
    field h' c "module" = VRef m /\
    field h' m "rules" = VRef ru /\
    elems_at h' ru = Some (default [] (rules_of h c) ++ [VRef css; VRef img]) /\
    h !! css = None /\ h !! img = None /\
    field h' img "use" = VRef u /\
    elems_at h' u = Some [VRef file; VRef image] /\
    field h' file "loader" = VString "file-loader" /\
    field h' file "options" = VRef fo /\
    field h' image "loader" = VString "image-webpack-loader" /\
    field h' image "options" = VRef io /\
    field h' fo "outputPath"
    = VString (js_string object_to_string hm (field h' oo "imagePath") +:+ "/") /\
    field h' fo "publicPath"
    = VString ("/" +:+ js_string object_to_string hm (field h' oo "imagePath")
               +:+ "/") /\
    field h' io "disable"
    = VBool (negb (truthy (field h' oo "optimizeImages"))) /\
    modifies [(c, "module")] [ru] h hm /\
    modifies [(c, "module")] [ru] h h' /\
    ((truthy (field h c "module") = false /\ h !! m = None /\
      h !! ru = None) \/
     (field h c "module" = VRef m /\ field h m "rules" = VRef ru)).
Proof.
  intros Hc Hm Hv. rewrite <- bind_ret_r. unfold useCss.
  destruct (merge_options_unit css_defaults options h Hv)
    as (h1 & oo & Hrun1 & Hm1 & Hoo & Hoo1 & Hfield).
  unfold css_defaults in Hrun1. run_eq Hrun1.
  destruct (module_ok_modifies [] [] h h1 c Hm1 Hc) as [Hm' Hrules];
    [apply not_elem_of_nil | intros; apply not_elem_of_nil
    | intros; apply not_elem_of_nil | done |].
  destruct (init_module_unit c h1)
    as (h2 & m & ru & Hrun2 & Hg2 & Hcm & Hma & Hmr & Hru & Hm2 & Hprov);
    [solve_alive|done|].
  pose proof Hprov as Hprov0.
  run_eq Hrun2.
  assert (ru <> oo) as Hne.
  { destruct Hprov as [(_ & _ & Hprov)|(_ & _ & Hprov)]; [solve_ne|].
    intros ->. unfold elems_at in Hprov. by rewrite Hoo1 in Hprov. }
  destruct (css_rule_unit h2) as (h3 & css & Hrun3 & Hm3 & Hcss & Hcss3).
  pose proof (push_rule_unit c m ru css _ _ h2 h3 Hcm Hmr Hru Hrun3 Hm3)
    as Hpush3.
  run_eq Hpush3.
  set (h4 := hset_elems ru _ h3) in *.
  assert (modifies [] [ru] h2 h4) as Hm4 by (subst h4; solve_modifies).
  assert (field h4 c "module" = VRef m) as Hcm4 by (subst h4; by hsimpl).
  assert (field h4 m "rules" = VRef ru) as Hmr4 by (subst h4; by hsimpl).
  assert (elems_at h4 ru = Some ((default [] (rules_of h1 c) ++ [VRef css])))
    as Hru4 by (subst h4; by hsimpl).
  clearbody h4.
  destruct (image_rule_unit oo h4)
    as (h5 & img & u & file & image & fo & io & hm & Hrun5 & Hm5 & Huse
        & Hu & Hfl & Hfo & Hil & Hio & Hout & Hpub & Hdis & Hmm & Himg & Hu4
        & Hfile4 & Himage4 & Hfo4 & Hio4);
    [solve_alive|].
  pose proof (push_rule_unit c m ru img _ _ h4 h5 Hcm4 Hmr4 Hru4 Hrun5 Hm5)
    as Hpush5.
  run_eq Hpush5.
  assert (modifies [(c, "module")] [ru] h1 h4) as Hm14
    by chain_modifies Hm2 Hm4.
  assert (modifies [(c, "module")] [ru] h h4) as Hm04
    by chain_modifies Hm1 Hm14.
  assert (modifies [] [ru] h4 (hset_elems ru
            ((default [] (rules_of h1 c) ++ [VRef css]) ++ [VRef img]) h5))
    as Hm46 by solve_modifies.
  assert (h1 !! css = None) as Hcss1.
  { destruct (h1 !! css) eqn:E; [|done].
    assert (alive h2 css) as [? ?] by solve_alive. congruence. }
  eexists _, oo, m, ru, css, img, u, file, image, fo, io, hm.
  split; [reflexivity|]. split; [done|].
  split; [by hsimpl|]. split; [by hsimpl|]. split; [by hsimpl|].
  split; [hsimpl; by rewrite ?Hrules, <- app_assoc|].
  split.
  { destruct (h !! css) eqn:E; [|done].
    assert (alive h1 css) as [? ?] by solve_alive. congruence. }
  split.
  { destruct (h !! img) eqn:E; [|done].
    assert (alive h4 img) as [? ?] by solve_alive. congruence. }
  split; [by hsimpl|]. split; [by hsimpl|]. split; [by hsimpl|].
  split; [by hsimpl|]. split; [by hsimpl|]. split; [by hsimpl|].
  split; [by hsimpl|]. split; [by hsimpl|]. split; [by hsimpl|].
  split; [chain_modifies Hm04 Hmm|].
  split; [chain_modifies Hm04 Hm46|].
  assert (field h1 c "module" = field h c "module") as Hcm01.
  { apply (modifies_field _ _ h h1 c _ Hm1); [done|apply not_elem_of_nil]. }
  destruct Hprov0 as [(Hf0 & Hf1 & Hf2)|(Hf1 & Hf2 & _)].
  - left. rewrite <- Hcm01. split; [done|].
    split; (eapply fresh_not_alive; [eassumption|by eapply modifies_grows]).
  - right. rewrite Hcm01 in Hf1. split; [done|].
    destruct (module_ok_alive h c m Hm Hf1) as [Hma0 _].
    rewrite <- Hf2. symmetry.
    apply (modifies_field _ _ h h1 m _ Hm1); [done|apply not_elem_of_nil].
Qed.

Lemma useCss_run (h : heap) (c : loc) (options : val) :
  alive h c ->
  module_ok h c = true ->
  valid h options = true ->
  exists h' oo m ru css img u file image fo io hm,
    useCss object_to_string (VRef c) options h = (Ok tt, h') /\
    h !! oo = None /\
    h' !! oo
    = Some (Obj ObjectC SNone (own_enumerable h options ∪ css_defaults)) /\
    field h' c "module" = VRef m /\
    field h' m "rules" = VRef ru /\
    elems_at h' ru = Some (default [] (rules_of h c) ++ [VRef css; VRef img]) /\
    h !! css = None /\ h !! img = None /\
    field h' img "use" = VRef u /\
    elems_at h' u = Some [VRef file; VRef image] /\
    field h' file "loader" = VString "file-loader" /\
    field h' file "options" = VRef fo /\
    field h' image "loader" = VString "image-webpack-loader" /\
    field h' image "options" = VRef io /\
    field h' fo "outputPath"
    = VString (js_string object_to_string hm (field h' oo "imagePath") +:+ "/") /\
    field h' fo "publicPath"
    = VString ("/" +:+ js_string object_to_string hm (field h' oo "imagePath")
               +:+ "/") /\
    field h' io "disable"
    = VBool (negb (truthy (field h' oo "optimizeImages"))) /\
    modifies [(c, "module")] [ru] h hm /\
    modifies [(c, "module")] [ru] h h'.
Proof.
  intros Hc Hm Hv.
  destruct (useCss_steps h c options Hc Hm Hv)
    as (h' & oo & m & ru & css & img & u & file & image & fo & io & hm & H).
  exists h', oo, m, ru, css, img, u, file, image, fo, io, hm.
  repeat lazymatch goal with
         | |- _ /\ _ => split; [apply H|destruct H as [_ H]]
         end.
  apply H.
Qed.

(** ** [useTypescript] *)

Lemma typescript_options_unit (c : loc) (options : val) (dir : string)
    (h : heap) :
  alive h c ->
  context_dir h c = Some dir ->
  valid h options = true ->
  exists h' oo ep mo,
    typescript_options path_resolve (VRef c) options h = (Ok (VRef oo), h') /\
    modifies [] [] h h' /\
    h !! oo = None /\ h !! ep = None /\ h !! mo = None /\
    elems_at h' ep = Some [VString (path_resolve [dir; "**"])] /\
    elems_at h' mo = Some [VString "./node_modules"] /\
    h' !! oo
    = Some (Obj ObjectC SNone
              (own_enumerable h options ∪ typescript_defaults ep mo)) /\
    forall k,
      field h' oo k
      = default VUndefined
          ((own_enumerable h options ∪ typescript_defaults ep mo) !! k).
Proof.
  intros Hc Hdir Hv. rewrite <- bind_ret_r.
  unfold typescript_options, merge_options. unfold context_dir, js_or in Hdir.
  run. unfold path_resolve_js, strings_of. revert Hdir.
  destruct (if truthy (field h c "context") then field h c "context"
            else VString "app") as [| | |s|]; try done.
  intros [= ->]. cbn [mapM mbind option_bind mret option_ret]. run.
  eexists _, l1, l, l0. split; [reflexivity|]. split; [solve_modifies|].
  split; [solve_fresh|]. split; [solve_fresh|]. split; [solve_fresh|].
  rewrite !own_enumerable_insert_valid by (assumption || solve_valid).
  split; [by hsimpl|]. split; [by hsimpl|]. split; [by hsimpl|].
  intros k. by hsimpl.
Qed.

Lemma map_each_globs (paths : list string) (h : heap) :
  map_each (fun p => path_resolve_js path_resolve [p; VString ENTRY_FILES])
    (VString <$> paths) h
  = (Ok (entry_globs path_resolve paths), h).
Proof.
  induction paths as [|p paths IH]; [done|].
  cbn [fmap list_fmap map_each]. unfold bind at 1.
  unfold path_resolve_js at 1, strings_of.
  cbn [mapM mbind option_bind mret option_ret ret].
  unfold bind at 1. cbn [fmap list_fmap] in IH. rewrite IH. done.
Qed.

Lemma typescript_entry_unit (c oo ep : loc) (paths : list string) (h : heap) :
  alive h c ->
  field h oo "entryPaths" = VRef ep ->
  elems_at h ep = Some (VString <$> paths) ->
  exists h' e,
    typescript_entry path_resolve getEntries (VRef c) (VRef oo) h
    = (Ok tt, h') /\
    h !! e = None /\
    field h' c "entry" = VRef e /\
    h' !! e = Some (getEntries (entry_globs path_resolve paths)) /\
    modifies [(c, "entry")] [] h h'.
Proof.
  intros Hc Hep Hes. rewrite <- bind_ret_r.
  unfold typescript_entry, array_map. run.
  run_eq (map_each_globs paths h). run.
  eexists _, l0. split; [reflexivity|]. split; [solve_fresh|].
  split; [by hsimpl|]. split; [by hsimpl|]. solve_modifies.
Qed.

(** The statements of [useTypescript] before the rules: the call comes to
    the last group of statements at a heap [h4] in which the options are
    merged, [resolve] is set up and [entry] replaced. *)
Lemma useTypescript_prefix (h : heap) (c : loc) (options : val) (dir : string)
    (paths : list string) (dirs : list val) :
  alive h c ->
  context_dir h c = Some dir ->
  valid h options = true ->
  resolve_ok h c = true ->
  search_paths path_resolve h c options = Some paths ->
  module_dirs h c options = Some dirs ->
  exists h1 h2 h3 h4 oo ep mo r ext a3 e,
    useTypescript path_resolve getEntries (VRef c) options h
    = typescript_rules (VRef c) (VRef oo) h4 /\
    modifies [] [] h h1 /\
    modifies [(c, "resolve"); (r, "extensions"); (r, "modules")] [ext] h1 h2 /\
    modifies [(r, "modules")] [] h2 h3 /\
    modifies [(c, "entry")] [] h3 h4 /\
    modifies [(c, "resolve"); (r, "extensions"); (r, "modules")] [ext] h h2 /\
    modifies [(c, "resolve"); (r, "extensions"); (r, "modules")] [ext] h h3 /\
    modifies [(c, "resolve"); (r, "extensions"); (r, "modules"); (c, "entry")]
      [ext] h h4 /\
    modifies [(r, "modules"); (c, "entry")] [] h2 h4 /\
    h !! oo = None /\ h !! ep = None /\ h !! mo = None /\
    h1 !! oo
    = Some (Obj ObjectC SNone
              (own_enumerable h options ∪ typescript_defaults ep mo)) /\
    oo <> c /\ oo <> r /\
    (forall k,
        field h2 oo k
        = default VUndefined
            ((own_enumerable h options ∪ typescript_defaults ep mo) !! k)) /\
    elems_at h1 ep = Some [VString (path_resolve [dir; "**"])] /\
    elems_at h1 mo = Some [VString "./node_modules"] /\
    elems_at h2 ep = Some [VString (path_resolve [dir; "**"])] /\
    elems_at h2 mo = Some [VString "./node_modules"] /\
    field h2 c "resolve" = VRef r /\
    ((truthy (field h c "resolve") = false /\ h !! r = None) \/
     (field h c "resolve" = VRef r /\ alive h r)) /\
    field h2 r "extensions" = VRef ext /\
    ((truthy (extensions_of h c) = false /\ h !! ext = None) \/
     (extensions_of h c = VRef ext /\ alive h ext)) /\
    elems_at h2 ext
    = Some (default [] (elems_of h (extensions_of h c))
            ++ [VString ".ts"; VString ".tsx"]) /\
    h2 !! a3 = None /\
    field h3 r "modules" = VRef a3 /\
    elems_at h3 a3 = Some (resolve_modules h c ++ dirs) /\
    h3 !! e = None /\
    field h4 c "entry" = VRef e /\
    h4 !! e = Some (getEntries (entry_globs path_resolve paths)).
Proof.
  intros Hc Hdir Hv Hres Hpaths Hdirs.
  unfold useTypescript.
  (* the options *)
  destruct (typescript_options_unit c options dir h Hc Hdir Hv)
    as (h1 & oo & ep & mo & Hrun1 & Hm1 & Hoo & Hep & Hmo & Hep1 & Hmo1
        & Hoo1 & Hfield).
  run_eq Hrun1.
  destruct (frame_resolve h h1 c Hm1 Hc Hres)
    as (Hres1 & Hr01 & Hext01 & Hmods01 & Hel01 & Hrm01).
  (* resolve and its lists *)
  destruct (typescript_extensions_unit c h1)
    as (h2 & r & ext & mods & Hrun2 & Hcr & Hrext & Hrmods & Hext2 & Hmods2
        & Hm2 & Hpr & Hpext & Hpmods); [solve_alive|done|].
  run_eq Hrun2.
  rewrite Hr01, Hext01, Hmods01 in *. rewrite Hel01, Hrm01 in *.
  assert ((truthy (field h c "resolve") = false /\ h !! r = None) \/
          (field h c "resolve" = VRef r /\ alive h r))
    as Hpr0.
  { destruct Hpr as [[Hpa Hpr]|[Hpr _]]; [left|right].
    - split; [done|]. destruct (h !! r) eqn:E; [|done].
      assert (alive h1 r) as [? ?] by solve_alive. congruence.
    - split; [done|]. by destruct (resolve_ok_alive h c r Hres Hpr). }
  assert ((truthy (extensions_of h c) = false /\ h !! ext = None) \/
          (extensions_of h c = VRef ext /\ alive h ext))
    as Hpext0.
  { destruct Hpext as [[Hpa Hpext]|[Hpext _]]; [left|right].
    - split; [done|]. eapply fresh_not_alive; [done|].
      by eapply modifies_grows.
    - split; [done|]. by eapply extensions_of_alive. }
  assert (oo <> c) as Hooc by solve_ne.
  assert (oo <> r) as Hoor.
  { destruct Hpr as [[_ Hpr]|[Hpr _]]; [solve_ne|].
    destruct (resolve_ok_alive h c r Hres Hpr) as [Hal _]. solve_ne. }
  assert (forall a, h !! a = None -> alive h1 a -> a <> ext) as Hfresh_ext.
  { intros a Ha Ha1. destruct Hpext as [[_ Hpext]|[Hpext _]]; [solve_ne|].
    pose proof (extensions_of_alive h c ext Hres Hpext). solve_ne. }
  assert (forall a, alive h a ->
            distinct_refs (VRef a) (extensions_of h c) = true ->
            elems_at h2 a = elems_at h a) as Hgiven.
  { intros a Ha Hd.
    assert (a <> ext) as Hne.
    { destruct Hpext as [[_ Hpext]|[Hpext _]]; [solve_ne|].
      rewrite Hpext in Hd. by apply distinct_refs_ne. }
    rewrite (modifies_elems _ _ h1 h2 a Hm2); [by apply frame_elems|solve_alive|].
    solve_notin. }
  assert (forall k,
            field h2 oo k
            = default VUndefined
                ((own_enumerable h options ∪ typescript_defaults ep mo) !! k))
    as Hfield2.
  { intros k. rewrite <- Hfield.
    apply (modifies_field _ _ h1 h2 oo k Hm2); [solve_alive|]. solve_notin. }
  destruct (typescript_defaults_lookup ep mo) as (Hdep & Hdmo & Hdts).
  assert (elems_at h2 ep = Some [VString (path_resolve [dir; "**"])]) as Hep2.
  { rewrite <- Hep1. apply (modifies_elems _ _ h1 h2 ep Hm2); [solve_alive|].
    apply not_elem_of_cons. split; [|apply not_elem_of_nil].
    apply Hfresh_ext; [done|solve_alive]. }
  assert (elems_at h2 mo = Some [VString "./node_modules"]) as Hmo2.
  { rewrite <- Hmo1. apply (modifies_elems _ _ h1 h2 mo Hm2); [solve_alive|].
    apply not_elem_of_cons. split; [|apply not_elem_of_nil].
    apply Hfresh_ext; [done|solve_alive]. }
  assert (spread_elems h2 (field h2 oo "modules") = Some dirs) as Hspread.
  { rewrite Hfield2. unfold module_dirs in Hdirs.
    destruct (own_enumerable h options !! "modules") as [v|] eqn:Ev.
    - rewrite (lookup_union_Some_l _ _ _ v) by done. cbn [default id].
      destruct (distinct_refs v (extensions_of h c)) eqn:Ed; [|done].
      destruct v as [| | |s|a]; try done. cbn [spread_elems] in *.
      rewrite Hgiven; [done| by eapply elems_at_alive | done].
    - rewrite lookup_union_r, Hdmo by done. injection Hdirs as <-. done. }
  assert (exists ep', field h2 oo "entryPaths" = VRef ep' /\
                      elems_at h2 ep' = Some (VString <$> paths))
    as (ep' & Hoep & Hep').
  { rewrite Hfield2. unfold search_paths in Hpaths.
    destruct (own_enumerable h options !! "entryPaths") as [v|] eqn:Ev.
    - rewrite (lookup_union_Some_l _ _ _ v) by done. cbn [default id].
      destruct (distinct_refs v (extensions_of h c)) eqn:Ed; [|done].
      destruct v as [| | |s|a]; try done. cbn [elems_of] in Hpaths.
      destruct (elems_at h a) as [es|] eqn:Ea; [|done]. cbn in Hpaths.
      apply strings_of_Some in Hpaths as ->.
      exists a. split; [done|]. rewrite Hgiven; [done| |done].
      by eapply elems_at_alive.
    - rewrite lookup_union_r, Hdep by done. exists ep. split; [done|].
      rewrite Hdir in Hpaths. by injection Hpaths as <-. }
  (* resolve.modules *)
  destruct (typescript_modules_unit c r mods oo _ dirs h2 Hcr Hrmods Hmods2)
    as (h3 & a3 & Hrun3 & Ha3 & Hrmods3 & Hel3 & Hm3); [solve_alive|done|].
  run_eq Hrun3.
  (* entry *)
  assert (field h3 oo "entryPaths" = VRef ep') as Hoep3.
  { rewrite <- Hoep. apply (modifies_field _ _ h2 h3 oo _ Hm3); [solve_alive|].
    solve_notin. }
  assert (elems_at h3 ep' = Some (VString <$> paths)) as Hep3.
  { rewrite <- Hep'. apply (modifies_elems _ _ h2 h3 ep' Hm3); [solve_alive|].
    apply not_elem_of_nil. }
  destruct (typescript_entry_unit c oo ep' paths h3)
    as (h4 & e & Hrun4 & He3 & Hce & He4 & Hm4); [solve_alive|done|done|].
  run_eq Hrun4.
  assert (modifies [(c, "resolve"); (r, "extensions"); (r, "modules")] [ext]
            h h2) as Hm02 by chain_modifies Hm1 Hm2.
  assert (modifies [(c, "resolve"); (r, "extensions"); (r, "modules")] [ext]
            h h3) as Hm03 by chain_modifies Hm02 Hm3.
  assert (modifies [(c, "resolve"); (r, "extensions"); (r, "modules");
                    (c, "entry")] [ext] h h4) as Hm04
    by chain_modifies Hm03 Hm4.
  assert (modifies [(r, "modules"); (c, "entry")] [] h2 h4) as Hm24
    by chain_modifies Hm3 Hm4.
  exists h1, h2, h3, h4, oo, ep, mo, r, ext, a3, e.
  split; [reflexivity|].
  repeat lazymatch goal with |- _ /\ _ => split; [assumption|] end.
  assumption.
Qed.

Lemma useTypescript_full (h : heap) (c : loc) (options : val) (dir : string)
    (paths : list string) (dirs : list val) :
  alive h c ->
  context_dir h c = Some dir ->
  valid h options = true ->
  resolve_ok h c = true ->
  module_ok h c = true ->
  search_paths path_resolve h c options = Some paths ->
  module_dirs h c options = Some dirs ->
  exists h' oo ep mo r ext mods e m ru old r1 r2 u loader opts,
    useTypescript path_resolve getEntries (VRef c) options h = (Ok tt, h') /\
    h !! oo = None /\ h !! ep = None /\ h !! mo = None /\
    (forall k,
        field h' oo k
        = default VUndefined
            ((own_enumerable h options ∪ typescript_defaults ep mo) !! k)) /\
    elems_at h' ep = Some [VString (path_resolve [dir; "**"])] /\
    elems_at h' mo = Some [VString "./node_modules"] /\
    field h' c "resolve" = VRef r /\
    (h !! r = None \/ field h c "resolve" = VRef r) /\
    field h' r "extensions" = VRef ext /\
    (h !! ext = None \/ extensions_of h c = VRef ext) /\
    is_Some (elems_at h' ext) /\
    field h' r "modules" = VRef mods /\
    h !! mods = None /\
    elems_at h' mods = Some (resolve_modules h c ++ dirs) /\
    field h' c "entry" = VRef e /\
    h !! e = None /\
    h' !! e = Some (getEntries (entry_globs path_resolve paths)) /\
    field h' c "module" = VRef m /\
    field h' m "rules" = VRef ru /\
    (h !! ru = None \/
     (field h c "module" = VRef m /\ field h m "rules" = VRef ru)) /\
    elems_at h' ru = Some (old ++ [VRef r1; VRef r2]) /\
    (distinct_refs (fieldv h (field h c "module") "rules") (extensions_of h c)
     = true -> old = default [] (rules_of h c)) /\
    h !! r1 = None /\ h !! r2 = None /\
    field h' r1 "enforce" = VString "pre" /\
    field h' r1 "use" = VRef u /\
    elems_at h' u = Some [VRef loader] /\
    field h' loader "loader" = VString "tslint-loader" /\
    field h' loader "options" = VRef opts /\
    field h' opts "tsConfigFile" = field h' oo "tsConfigFile" /\
    modifies [(c, "resolve"); (r, "extensions"); (r, "modules"); (c, "entry");
              (c, "module")] [ext; ru] h h' /\
    (ext <> ru ->
     elems_at h' ext
     = Some (default [] (elems_of h (extensions_of h c))
             ++ [VString ".ts"; VString ".tsx"])) /\
    ((truthy (field h c "resolve") = false /\ h !! r = None) \/
     field h c "resolve" = VRef r) /\
    ((truthy (extensions_of h c) = false /\ h !! ext = None) \/
     extensions_of h c = VRef ext) /\
    ((truthy (field h c "module") = false /\ h !! m = None /\
      h !! ru = None) \/
     (field h c "module" = VRef m /\ field h m "rules" = VRef ru)) /\
    (distinct_refs (fieldv h (field h c "module") "rules") (extensions_of h c)
     = true -> ext <> ru).
Proof.
  intros Hc Hdir Hv Hres Hok Hpaths Hdirs.
  destruct (useTypescript_prefix h c options dir paths dirs
              Hc Hdir Hv Hres Hpaths Hdirs)
    as (h1 & h2 & h3 & h4 & oo & ep & mo & r & ext & a3 & e & Hrun & Hm1
        & Hm2 & Hm3 & Hm4 & Hm02 & Hm03 & Hm04 & Hm24 & Hoo & Hep & Hmo
        & Hoo1 & Hooc & Hoor & Hfield2 & Hep1 & Hmo1 & Hep2 & Hmo2 & Hcr
        & Hpr0 & Hrext & Hpext0 & Hext2 & Ha3 & Hrmods3 & Hel3 & He3 & Hce
        & He4).
  rewrite Hrun, <- bind_ret_r.
  (* module.rules *)
  assert (field h4 c "module" = field h c "module") as Hcm04.
  { apply (modifies_field _ _ h h4 c _ Hm04); [done|]. solve_notin. }
  assert (module_ok h4 c = true /\
          (forall m ru, field h c "module" = VRef m ->
                        field h m "rules" = VRef ru ->
                        alive h ru /\ field h4 m "rules" = VRef ru) /\
          (distinct_refs (fieldv h (field h c "module") "rules")
             (extensions_of h c) = true ->
           rules_of h4 c = rules_of h c)) as (Hok4 & Hrules4 & Hsame4).
  { apply module_ok_cases in Hok as [Hok|[es Hes]].
    - split; [|split].
      + unfold module_ok. rewrite Hcm04, Hok. done.
      + intros m ru Hm. by rewrite Hm in Hok.
      + intros _. unfold rules_of. rewrite Hcm04.
        by destruct (field h c "module").
    - pose proof Hes as Hes'.
      apply rules_of_Some in Hes as (m0 & ru0 & Hcm0 & Hmr0 & Hru0).
      assert (alive h m0) as Hm0 by solve_alive.
      assert (alive h ru0) as Hal0 by solve_alive.
      assert (field h4 m0 "rules" = VRef ru0) as Hmr4.
      { rewrite <- Hmr0. apply (modifies_field _ _ h h4 m0 _ Hm04); [done|].
        solve_notin. }
      assert (exists es4, elems_at h4 ru0 = Some es4 /\
                (distinct_refs (VRef ru0) (extensions_of h c) = true ->
                 es4 = es)) as (es4 & Hru4 & Hes4).
      { destruct (decide (ru0 = ext)) as [->|Hne].
        - eexists. split.
          + rewrite <- Hext2.
            apply (modifies_elems _ _ h2 h4 ext Hm24); [solve_alive|].
            apply not_elem_of_nil.
          + intros Hd. destruct Hpext0 as [[_ Hf]|[Hf _]].
            * destruct Hal0. congruence.
            * rewrite Hf in Hd. by apply distinct_refs_ne in Hd.
        - exists es. split; [|done]. rewrite <- Hru0.
          apply (modifies_elems _ _ h h4 ru0 Hm04); [done|]. solve_notin. }
      rewrite Hcm0 in Hcm04.
      destruct (module_ok_intro h4 c m0 ru0 es4 Hcm04 Hmr4 Hru4) as [? Hr4].
      split; [done|]. split.
      + intros m ru Hm Hru. rewrite Hcm0 in Hm. injection Hm as <-.
        rewrite Hmr0 in Hru. by injection Hru as <-.
      + rewrite Hcm0. cbn [fieldv]. rewrite Hmr0. intros Hd.
        rewrite Hr4, Hes'. f_equal. by apply Hes4. }
  destruct (typescript_rules_unit c oo h4)
    as (h5 & m & ru & r1 & r2 & u & loader & opts & Hrun5 & Hcm5 & Hmr5
        & Hru5 & Hr1 & Hr2 & Henf & Huse & Hu5 & Hld & Hlo & Hts & Hm5
        & Hprov5); [solve_alive|done|solve_alive|].
  run_eq Hrun5.
  (* the heap at the end *)
  assert (grows h h4) as Hg04 by by eapply modifies_grows.
  assert ((truthy (field h c "module") = false /\ h !! m = None /\
           h4 !! ru = None /\ h !! ru = None) \/
          (field h c "module" = VRef m /\ field h m "rules" = VRef ru /\
           alive h ru)) as Hpru.
  { destruct Hprov5 as [(Hf0 & Hfm & Hf)|[Hf1 Hf2]].
    { left. rewrite <- Hcm04. split; [done|].
      split; [by eapply fresh_not_alive|]. split; [done|].
      by eapply fresh_not_alive. }
    right. rewrite Hcm04 in Hf1.
    destruct (module_ok_alive h c m Hok Hf1) as (_ & ru' & Hru' & _).
    destruct (Hrules4 m ru' Hf1 Hru') as [Hal Hf4].
    rewrite Hf2 in Hf4. by injection Hf4 as <-. }
  assert (forall a, h !! a = None -> alive h4 a -> a <> ru) as Hne_ru.
  { intros a Ha Ha4. destruct Hpru as [(_ & _ & Hf & _)|(_ & _ & Hf)]; solve_ne. }
  assert (h !! a3 = None) as Ha30.
  { eapply fresh_not_alive; [exact Ha3|]. by eapply modifies_grows. }
  assert (h !! e = None) as He0.
  { eapply fresh_not_alive; [exact He3|]. by eapply modifies_grows. }
  assert (forall l k, alive h2 l -> k <> "modules" -> k <> "entry" ->
            k <> "module" -> field h5 l k = field h2 l k) as Hkeys.
  { intros l k Hl H1 H2 H3.
    rewrite (modifies_field _ _ h4 h5 l k Hm5); [|solve_alive|solve_notin].
    apply (modifies_field _ _ h2 h4 l k Hm24); [done|solve_notin]. }
  assert (forall k, field h5 oo k = field h2 oo k) as Hoo5.
  { intros k.
    rewrite (modifies_field _ _ h4 h5 oo k Hm5); [|solve_alive|solve_notin].
    apply (modifies_field _ _ h2 h4 oo k Hm24); [solve_alive|solve_notin]. }
  assert (forall a, h !! a = None -> alive h2 a ->
            elems_at h5 a = elems_at h2 a) as Hfresh5.
  { intros a Ha Ha2.
    rewrite (modifies_elems _ _ h4 h5 a Hm5); [|solve_alive|].
    - apply (modifies_elems _ _ h2 h4 a Hm24); [done|apply not_elem_of_nil].
    - apply not_elem_of_cons. split; [|apply not_elem_of_nil].
      apply Hne_ru; [done|solve_alive]. }
  eexists h5, oo, ep, mo, r, ext, a3, e, m, ru, _, r1, r2, u, loader, opts.
  split; [reflexivity|].
  split; [done|]. split; [done|]. split; [done|].
  split; [intros k; by rewrite Hoo5|].
  split; [rewrite Hfresh5; [done|done|solve_alive]|].
  split; [rewrite Hfresh5; [done|done|solve_alive]|].
  split; [rewrite Hkeys; [done|solve_alive|done..]|].
  split; [destruct Hpr0 as [[_ ?]|[? _]]; [by left|by right]|].
  split; [rewrite Hkeys; [done|solve_alive|done..]|].
  split; [destruct Hpext0 as [[_ ?]|[? _]]; [by left|by right]|].
  split.
  { destruct (decide (ext = ru)) as [->|Hne]; [by eexists|].
    rewrite (modifies_elems _ _ h4 h5 ext Hm5); [|solve_alive|solve_notin].
    rewrite (modifies_elems _ _ h2 h4 ext Hm24);
      [by eexists|solve_alive|apply not_elem_of_nil]. }
  split.
  { rewrite (modifies_field _ _ h4 h5 r _ Hm5); [|solve_alive|solve_notin].
    rewrite (modifies_field _ _ h3 h4 r _ Hm4); [done|solve_alive|solve_notin]. }
  split; [done|].
  split.
  { rewrite (modifies_elems _ _ h4 h5 a3 Hm5); [|solve_alive|].
    - rewrite (modifies_elems _ _ h3 h4 a3 Hm4);
        [done|solve_alive|apply not_elem_of_nil].
    - apply not_elem_of_cons. split; [|apply not_elem_of_nil].
      apply Hne_ru; [done|solve_alive]. }
  split.
  { rewrite (modifies_field _ _ h4 h5 c _ Hm5); [done|solve_alive|solve_notin]. }
  split; [done|].
  split.
  { rewrite <- He4. apply (modifies_lookup _ _ h4 h5 e Hm5); [solve_alive| |].
    - assert (e <> c) by solve_ne. solve_notin.
    - apply not_elem_of_cons. split; [|apply not_elem_of_nil].
      apply Hne_ru; [done|solve_alive]. }
  split; [done|]. split; [done|].
  split; [destruct Hpru as [(_ & _ & _ & ?)|(? & ? & _)]; [by left|by right]|].
  split; [done|].
  split.
  { intros Hd. by rewrite Hsame4. }
  split; [by eapply fresh_not_alive|]. split; [by eapply fresh_not_alive|].
  split; [done|]. split; [done|]. split; [done|]. split; [done|].
  split; [done|]. split; [by rewrite Hts, <- (modifies_field _ _ h4 h5 oo _ Hm5)
                             by (solve_alive || solve_notin)|].
  split; [chain_modifies Hm04 Hm5|].
  split.
  { intros Hne.
    rewrite (modifies_elems _ _ h4 h5 ext Hm5); [|solve_alive|solve_notin].
    rewrite (modifies_elems _ _ h2 h4 ext Hm24);
      [done|solve_alive|apply not_elem_of_nil]. }
  split; [destruct Hpr0 as [?|[? _]]; [by left|by right]|].
  split; [destruct Hpext0 as [?|[? _]]; [by left|by right]|].
  split.
  { destruct Hpru as [(? & ? & _ & ?)|(? & ? & _)]; [by left|by right]. }
  intros Hd. destruct Hpru as [(_ & _ & Hf & _)|(Hf1 & Hf2 & Hal)].
  - assert (alive h4 ext) as Hal4 by solve_alive.
    intros ->. destruct Hal4. congruence.
  - destruct Hpext0 as [[_ Hf]|[Hf _]].
    + intros ->. destruct Hal. congruence.
    + rewrite Hf1 in Hd. cbn [fieldv] in Hd. rewrite Hf2, Hf in Hd.
      apply distinct_refs_ne in Hd. congruence.
Qed.

Lemma useTypescript_steps (h : heap) (c : loc) (options : val) (dir : string)
    (paths : list string) (dirs : list val) :
  alive h c ->
  context_dir h c = Some dir ->
  valid h options = true ->
  resolve_ok h c = true ->
  module_ok h c = true ->
  search_paths path_resolve h c options = Some paths ->
  module_dirs h c options = Some dirs ->
  exists h' oo ep mo r ext mods e m ru old r1 r2 u loader opts,
    useTypescript path_resolve getEntries (VRef c) options h = (Ok tt, h') /\
    h !! oo = None /\ h !! ep = None /\ h !! mo = None /\
    (forall k,
        field h' oo k
        = default VUndefined
            ((own_enumerable h options ∪ typescript_defaults ep mo) !! k)) /\
    elems_at h' ep = Some [VString (path_resolve [dir; "**"])] /\
    elems_at h' mo = Some [VString "./node_modules"] /\
    field h' c "resolve" = VRef r /\
    (h !! r = None \/ field h c "resolve" = VRef r) /\
    field h' r "extensions" = VRef ext /\
    (h !! ext = None \/ extensions_of h c = VRef ext) /\
    is_Some (elems_at h' ext) /\
    field h' r "modules" = VRef mods /\
    h !! mods = None /\
    elems_at h' mods = Some (resolve_modules h c ++ dirs) /\
    field h' c "entry" = VRef e /\
    h !! e = None /\
    h' !! e = Some (getEntries (entry_globs path_resolve paths)) /\
    field h' c "module" = VRef m /\
    field h' m "rules" = VRef ru /\
    (h !! ru = None \/
     (field h c "module" = VRef m /\ field h m "rules" = VRef ru)) /\
    elems_at h' ru = Some (old ++ [VRef r1; VRef r2]) /\
    (distinct_refs (fieldv h (field h c "module") "rules") (extensions_of h c)
     = true -> old = default [] (rules_of h c)) /\
    h !! r1 = None /\ h !! r2 = None /\
    field h' r1 "enforce" = VString "pre" /\
    field h' r1 "use" = VRef u /\
    elems_at h' u = Some [VRef loader] /\
    field h' loader "loader" = VString "tslint-loader" /\
    field h' loader "options" = VRef opts /\
    field h' opts "tsConfigFile" = field h' oo "tsConfigFile" /\
    modifies [(c, "resolve"); (r, "extensions"); (r, "modules"); (c, "entry");
              (c, "module")] [ext; ru] h h' /\
    (ext <> ru ->
     elems_at h' ext
     = Some (default [] (elems_of h (extensions_of h c))
             ++ [VString ".ts"; VString ".tsx"])).
Proof.
  intros Hc Hdir Hv Hres Hok Hpaths Hdirs.
  destruct (useTypescript_full h c options dir paths dirs
              Hc Hdir Hv Hres Hok Hpaths Hdirs)
    as (h' & oo & ep & mo & r & ext & mods & e & m & ru & old & r1 & r2 & u
        & loader & opts & H).
  exists h', oo, ep, mo, r, ext, mods, e, m, ru, old, r1, r2, u, loader, opts.
  repeat lazymatch goal with
         | |- _ /\ _ => split; [apply H|destruct H as [_ H]]
         end.
  apply H.
Qed.

Lemma useTypescript_run (h : heap) (c : loc) (options : val) (dir : string)
    (paths : list string) (dirs : list val) :
  alive h c ->
  context_dir h c = Some dir ->
  valid h options = true ->
  resolve_ok h c = true ->
  module_ok h c = true ->
  search_paths path_resolve h c options = Some paths ->
  module_dirs h c options = Some dirs ->
  exists h' oo ep mo r ext mods e m ru old r1 r2 u loader opts,
    useTypescript path_resolve getEntries (VRef c) options h = (Ok tt, h') /\
    h !! oo = None /\ h !! ep = None /\ h !! mo = None /\
    (forall k,
        field h' oo k
        = default VUndefined
            ((own_enumerable h options ∪ typescript_defaults ep mo) !! k)) /\
    elems_at h' ep = Some [VString (path_resolve [dir; "**"])] /\
    elems_at h' mo = Some [VString "./node_modules"] /\
    field h' c "resolve" = VRef r /\
    (h !! r = None \/ field h c "resolve" = VRef r) /\
    field h' r "extensions" = VRef ext /\
    (h !! ext = None \/ extensions_of h c = VRef ext) /\
    is_Some (elems_at h' ext) /\
    field h' r "modules" = VRef mods /\
    h !! mods = None /\
    elems_at h' mods = Some (resolve_modules h c ++ dirs) /\
    field h' c "entry" = VRef e /\
    h !! e = None /\
    h' !! e = Some (getEntries (entry_globs path_resolve paths)) /\
    field h' c "module" = VRef m /\
    field h' m "rules" = VRef ru /\
    (h !! ru = None \/
     (field h c "module" = VRef m /\ field h m "rules" = VRef ru)) /\
    elems_at h' ru = Some (old ++ [VRef r1; VRef r2]) /\
    (distinct_refs (fieldv h (field h c "module") "rules") (extensions_of h c)
     = true -> old = default [] (rules_of h c)) /\
    h !! r1 = None /\ h !! r2 = None /\
    field h' r1 "enforce" = VString "pre" /\
    field h' r1 "use" = VRef u /\
    elems_at h' u = Some [VRef loader] /\
    field h' loader "loader" = VString "tslint-loader" /\
    field h' loader "options" = VRef opts /\
    field h' opts "tsConfigFile" = field h' oo "tsConfigFile" /\
    modifies [(c, "resolve"); (r, "extensions"); (r, "modules"); (c, "entry");
              (c, "module")] [ext; ru] h h'.
Proof.
  intros Hc Hdir Hv Hres Hok Hpaths Hdirs.
  destruct (useTypescript_steps h c options dir paths dirs
              Hc Hdir Hv Hres Hok Hpaths Hdirs)
    as (h' & oo & ep & mo & r & ext & mods & e & m & ru & old & r1 & r2 & u
        & loader & opts & H).
  exists h', oo, ep, mo, r, ext, mods, e, m, ru, old, r1, r2, u, loader, opts.
  repeat lazymatch goal with
         | |- _ /\ _ => split; [apply H|destruct H as [_ H]]
         end.
  apply H.
Qed.

(** ** The options records *)

Lemma merged_field (given defaults : gmap string val) (f : string -> val) :
  (forall k, f k = default VUndefined ((given ∪ defaults) !! k)) ->
  (forall k v, given !! k = Some v -> f k = v) /\
  (forall k, given !! k = None -> f k = default VUndefined (defaults !! k)).
Proof.
  intros Hf. split.
  - intros k v Hk. by rewrite Hf, (lookup_union_Some_l _ _ _ v).
  - intros k Hk. by rewrite Hf, lookup_union_r.
Qed.

(** C4.  [useCss] and [useTypescript] read their options off a new object
    [oo] that holds every own property of the caller's record with the
    caller's value (a reference is shared, not copied) and the default for
    every other key.  What the functions build from the options shows the
    merged values: the image rule of [useCss] has the merged [imagePath]
    and [optimizeImages], [useTypescript] hands the merged [tsConfigFile]
    to tslint, adds the merged [modules] to [config.resolve.modules] and
    scans the merged [entryPaths].  Every object of the heap other than the
    configuration and the containers it holds ([resolve], its
    [extensions] list and the [rules] list) is left as it was, the caller's
    record among them. *)
Theorem options_override_defaults (h : heap) (c : loc) (options : val) :
  alive h c ->
  module_ok h c = true ->
  valid h options = true ->
  (exists h' oo m ru css img u file image fo io,
      useCss object_to_string (VRef c) options h = (Ok tt, h') /\
      h !! oo = None /\
      h' !! oo
      = Some (Obj ObjectC SNone (own_enumerable h options ∪ css_defaults)) /\
      (forall k v, own_enumerable h options !! k = Some v ->
                   field h' oo k = v) /\
      (forall k, own_enumerable h options !! k = None ->
                 field h' oo k = default VUndefined (css_defaults !! k)) /\
      field h' c "module" = VRef m /\
      field h' m "rules" = VRef ru /\
      elems_at h' ru
      = Some (default [] (rules_of h c) ++ [VRef css; VRef img]) /\
      field h' img "use" = VRef u /\
      elems_at h' u = Some [VRef file; VRef image] /\
      field h' file "options" = VRef fo /\
      (forall s, field h' oo "imagePath" = VString s ->
                 field h' fo "outputPath" = VString (s +:+ "/") /\
                 field h' fo "publicPath" = VString ("/" +:+ s +:+ "/")) /\
      field h' image "options" = VRef io /\
      field h' io "disable"
      = VBool (negb (truthy (field h' oo "optimizeImages"))) /\
      (forall l, alive h l -> l <> c -> l <> ru -> h' !! l = h !! l)) /\
  (forall dir paths dirs,
      context_dir h c = Some dir ->
      resolve_ok h c = true ->
      search_paths path_resolve h c options = Some paths ->
      module_dirs h c options = Some dirs ->
      exists h' oo ep mo r ext mods e m ru old r1 r2 u loader opts,
        useTypescript path_resolve getEntries (VRef c) options h
        = (Ok tt, h') /\
        h !! oo = None /\ h !! ep = None /\ h !! mo = None /\
        elems_at h' ep = Some [VString (path_resolve [dir; "**"])] /\
        elems_at h' mo = Some [VString "./node_modules"] /\
        (forall k v, own_enumerable h options !! k = Some v ->
                     field h' oo k = v) /\
        (forall k, own_enumerable h options !! k = None ->
                   field h' oo k
                   = default VUndefined (typescript_defaults ep mo !! k)) /\
        field h' c "resolve" = VRef r /\
        field h' r "extensions" = VRef ext /\
        field h' r "modules" = VRef mods /\
        elems_at h' mods = Some (resolve_modules h c ++ dirs) /\
        field h' c "entry" = VRef e /\
        h' !! e = Some (getEntries (entry_globs path_resolve paths)) /\
        field h' c "module" = VRef m /\
        field h' m "rules" = VRef ru /\
        elems_at h' ru = Some (old ++ [VRef r1; VRef r2]) /\
        field h' r1 "use" = VRef u /\
        elems_at h' u = Some [VRef loader] /\
        field h' loader "options" = VRef opts /\
        field h' opts "tsConfigFile" = field h' oo "tsConfigFile" /\
        (forall l, alive h l -> l <> c -> l <> r -> l <> ext -> l <> ru ->
                   h' !! l = h !! l)).
Proof.
  intros Hc Hok Hv. split.
  - destruct (useCss_run h c options Hc Hok Hv)
      as (h' & oo & m & ru & css & img & u & file & image & fo & io & hm
          & Hrun & Hoo & Hoo' & Hcm & Hmr & Hru & _ & _ & Huse & Hu & _ & Hfo
          & _ & Hio & Hout & Hpub & Hdis & _ & Hm).
    assert (forall k,
              field h' oo k
              = default VUndefined
                  ((own_enumerable h options ∪ css_defaults) !! k)) as Hf.
    { intros k. unfold field. by rewrite Hoo'. }
    destruct (merged_field _ _ _ Hf) as [Hgiven Hdflt].
    exists h', oo, m, ru, css, img, u, file, image, fo, io.
    split; [done|]. split; [done|]. split; [done|]. split; [done|].
    split; [done|]. split; [done|]. split; [done|]. split; [done|].
    split; [done|]. split; [done|]. split; [done|].
    split. { intros s Hs. rewrite Hs in Hout, Hpub. by split. }
    split; [done|]. split; [done|].
    intros l Hl Hlc Hlr.
    apply (modifies_lookup _ _ h h' l Hm); [done|solve_notin..].
  - intros dir paths dirs Hdir Hres Hpaths Hdirs.
    destruct (useTypescript_run h c options dir paths dirs
                Hc Hdir Hv Hres Hok Hpaths Hdirs)
      as (h' & oo & ep & mo & r & ext & mods & e & m & ru & old & r1 & r2 & u
          & loader & opts & Hrun & Hoo & Hep & Hmo & Hf & Hep' & Hmo' & Hcr
          & _ & Hrext & _ & _ & Hrmods & _ & Hmods & Hce & _ & He & Hcm & Hmr
          & _ & Hru & _ & _ & _ & _ & Huse & Hu & _ & Hlo & Hts & Hm).
    destruct (merged_field _ _ _ Hf) as [Hgiven Hdflt].
    exists h', oo, ep, mo, r, ext, mods, e, m, ru, old, r1, r2, u, loader,
      opts.
    repeat (split; [done|]).
    intros l Hl Hlc Hlr Hle Hlru.
    apply (modifies_lookup _ _ h h' l Hm); [done|solve_notin..].
Qed.

(** ** The entry mapping *)

(** C6.  After [useTypescript], [config.entry] is a new object: the one
    [GlobEntriesPlugin.getEntries] returns for the entry search paths of
    the merged options, each joined with the glob of entry files.  Nothing
    of the previous [entry] goes into it, whatever it was. *)
Theorem useTypescript_replaces_entry (h : heap) (c : loc) (options : val)
    (dir : string) (paths : list string) (dirs : list val) :
  alive h c ->
  context_dir h c = Some dir ->
  valid h options = true ->
  resolve_ok h c = true ->
  module_ok h c = true ->
  search_paths path_resolve h c options = Some paths ->
  module_dirs h c options = Some dirs ->
  exists h' e,
    useTypescript path_resolve getEntries (VRef c) options h = (Ok tt, h') /\
    field h' c "entry" = VRef e /\
    h !! e = None /\
    h' !! e = Some (getEntries (entry_globs path_resolve paths)) /\
    (forall e0, field h c "entry" = VRef e0 -> alive h e0 -> e <> e0).
Proof.
  intros Hc Hdir Hv Hres Hok Hpaths Hdirs.
  destruct (useTypescript_run h c options dir paths dirs
              Hc Hdir Hv Hres Hok Hpaths Hdirs)
    as (h' & oo & ep & mo & r & ext & mods & e & m & ru & old & r1 & r2 & u
        & loader & opts & Hrun & _ & _ & _ & _ & _ & _ & _ & _ & _ & _ & _
        & _ & _ & _ & Hce & He0 & He & _).
  exists h', e. split; [done|]. split; [done|]. split; [done|].
  split; [done|]. intros e0 _ Hal. solve_ne.
Qed.

(** ** Absent containers *)

Lemma fixZipPackage_absent (h : heap) (c : loc) :
  alive h c ->
  truthy (field h c "plugins") = false ->
  fixZipPackage object_to_string (VRef c) h = (Ok tt, h).
Proof.
  intros Hc Hp. rewrite <- bind_ret_r. unfold fixZipPackage. run. done.
Qed.

(** C7, as amended.  On a configuration whose [module] is absent or has a
    [rules] list, whose [resolve] is absent or an object with [extensions]
    and [modules] each absent or a list, and whose [plugins] is absent or a
    list, every operation returns without raising when its arguments are
    of the kinds it is declared for.  A container that was absent is a new
    object afterwards and holds only what the operation adds; one that was
    present is the same object and holds what it held, followed by what
    the operation adds.  [useTypescript] makes a new list for
    [resolve.modules] in either case, and [dedupeModules] a new alias
    mapping.  [fixZipPackage] and [useSourceMap] for a production build
    make no container: an absent [plugins] stays absent. *)
Theorem absent_containers_are_initialised (h : heap) (c : loc) :
  alive h c ->
  module_ok h c = true ->
  resolve_ok h c = true ->
  absent_or_list h c "plugins" = true ->
  (exists h' m ru r,
      useSourceMap (VRef c) (VBool true) h = (Ok tt, h') /\
      field h' c "module" = VRef m /\
      field h' m "rules" = VRef ru /\
      elems_at h' ru = Some (default [] (rules_of h c) ++ [VRef r]) /\
      (truthy (field h c "module") = false ->
       h !! m = None /\ h !! ru = None /\ elems_at h' ru = Some [VRef r]) /\
      (forall m0, field h c "module" = VRef m0 ->
                  m = m0 /\ field h m0 "rules" = VRef ru)) /\
  (exists h',
      useSourceMap (VRef c) (VBool false) h = (Ok tt, h') /\
      field h' c "module" = field h c "module") /\
  (forall options,
      valid h options = true ->
      exists h' m ru css img,
        useCss object_to_string (VRef c) options h = (Ok tt, h') /\
        field h' c "module" = VRef m /\
        field h' m "rules" = VRef ru /\
        elems_at h' ru
        = Some (default [] (rules_of h c) ++ [VRef css; VRef img]) /\
        (truthy (field h c "module") = false ->
         h !! m = None /\ h !! ru = None /\
         elems_at h' ru = Some [VRef css; VRef img]) /\
        (forall m0, field h c "module" = VRef m0 ->
                    m = m0 /\ field h m0 "rules" = VRef ru)) /\
  (forall options dir paths dirs,
      valid h options = true ->
      context_dir h c = Some dir ->
      search_paths path_resolve h c options = Some paths ->
      module_dirs h c options = Some dirs ->
      distinct_refs (fieldv h (field h c "module") "rules")
        (extensions_of h c) = true ->
      exists h' r ext mods m ru r1 r2,
        useTypescript path_resolve getEntries (VRef c) options h
        = (Ok tt, h') /\
        field h' c "resolve" = VRef r /\
        (truthy (field h c "resolve") = false -> h !! r = None) /\
        (forall r0, field h c "resolve" = VRef r0 -> r = r0) /\
        field h' r "extensions" = VRef ext /\
        (truthy (extensions_of h c) = false ->
         h !! ext = None /\
         elems_at h' ext = Some [VString ".ts"; VString ".tsx"]) /\
        (forall e0 es, extensions_of h c = VRef e0 ->
                       elems_at h e0 = Some es ->
                       ext = e0 /\
                       elems_at h' ext
                       = Some (es ++ [VString ".ts"; VString ".tsx"])) /\
        field h' r "modules" = VRef mods /\
        h !! mods = None /\
        elems_at h' mods = Some (resolve_modules h c ++ dirs) /\
        (truthy (modules_of h c) = false -> elems_at h' mods = Some dirs) /\
        field h' c "module" = VRef m /\
        field h' m "rules" = VRef ru /\
        elems_at h' ru
        = Some (default [] (rules_of h c) ++ [VRef r1; VRef r2]) /\
        (truthy (field h c "module") = false ->
         h !! m = None /\ h !! ru = None /\
         elems_at h' ru = Some [VRef r1; VRef r2]) /\
        (forall m0, field h c "module" = VRef m0 ->
                    m = m0 /\ field h m0 "rules" = VRef ru)) /\
  (forall ml names folder f,
      valid h (fieldv h (field h c "resolve") "alias") = true ->
      elems_at h ml = Some (VString <$> names) ->
      folder_name folder = Some f ->
      forallb (valid h) (list_of h c "plugins") = true ->
      exists h' r al p added,
        dedupeModules path_join path_resolve object_to_string
          (VRef c) (VRef ml) folder h = (Ok tt, h') /\
        field h' c "resolve" = VRef r /\
        (truthy (field h c "resolve") = false -> h !! r = None) /\
        (forall r0, field h c "resolve" = VRef r0 -> r = r0) /\
        field h' r "alias" = VRef al /\
        h !! al = None /\
        field h' c "plugins" = VRef p /\
        (truthy (field h c "plugins") = false -> h !! p = None) /\
        (forall p0, field h c "plugins" = VRef p0 -> p = p0) /\
        elems_at h' p = Some (list_of h c "plugins" ++ added) /\
        length added <= 1) /\
  (forall d name,
      field h d "module" = VString name ->
      valid h (field h c "externals") = true ->
      distinct_refs (field h c "externals") (field h c "plugins") = true ->
      exists h' p added,
        useExternal object_to_string (VRef c) (VRef d) h = (Ok tt, h') /\
        field h' c "plugins" = VRef p /\
        (truthy (field h c "plugins") = false -> h !! p = None) /\
        (forall p0, field h c "plugins" = VRef p0 -> p = p0) /\
        elems_at h' p = Some (list_of h c "plugins" ++ added) /\
        length added <= 1) /\
  (truthy (field h c "plugins") = false ->
   fixZipPackage object_to_string (VRef c) h = (Ok tt, h)) /\
  (forall a ps,
      field h c "plugins" = VRef a ->
      elems_at h a = Some ps ->
      forallb (is_plugin h) ps = true ->
      exists h',
        fixZipPackage object_to_string (VRef c) h = (Ok tt, h') /\
        field h' c "plugins" = VRef a /\
        elems_at h' a = Some (partitioned (is_zip h) ps)).
Proof.
  intros Hc Hok Hres Hpl.
  assert (truthy (field h c "module") = false -> rules_of h c = None)
    as Hnorules.
  { intros Hf. unfold rules_of. by destruct (field h c "module"). }
  split; [|split; [|split; [|split; [|split; [|split; [|split]]]]]].
  - destruct (useSourceMap_dev_run h c Hc Hok)
      as (h' & m & ru & r & Hrun & _ & Hcm & Hmr & Hru & _ & Hprov & _).
    exists h', m, ru, r. split; [done|]. split; [done|]. split; [done|].
    split; [done|]. split.
    + intros Hf. destruct Hprov as [(_ & Hm & Hr)|[Hm _]].
      * split; [done|]. split; [done|]. by rewrite Hru, (Hnorules Hf).
      * by rewrite Hm in Hf.
    + intros m0 Hm0. destruct Hprov as [(Hf & _)|[Hm Hr]].
      * by rewrite Hm0 in Hf.
      * rewrite Hm0 in Hm. injection Hm as ->. by split.
  - unfold useSourceMap. cbn [truthy]. rewrite <- bind_ret_r. run.
    eexists. split; [reflexivity|]. by hsimpl.
  - intros options Hv.
    destruct (useCss_steps h c options Hc Hok Hv)
      as (h' & oo & m & ru & css & img & u & file & image & fo & io & hm
          & Hrun & _ & _ & Hcm & Hmr & Hru & _ & _ & _ & _ & _ & _ & _ & _
          & _ & _ & _ & _ & _ & Hprov).
    exists h', m, ru, css, img. split; [done|]. split; [done|].
    split; [done|]. split; [done|]. split.
    + intros Hf. destruct Hprov as [(_ & Hm & Hr)|[Hm _]].
      * split; [done|]. split; [done|]. by rewrite Hru, (Hnorules Hf).
      * by rewrite Hm in Hf.
    + intros m0 Hm0. destruct Hprov as [(Hf & _)|[Hm Hr]].
      * by rewrite Hm0 in Hf.
      * rewrite Hm0 in Hm. injection Hm as ->. by split.
  - intros options dir paths dirs Hv Hdir Hpaths Hdirs Hd.
    destruct (useTypescript_full h c options dir paths dirs
                Hc Hdir Hv Hres Hok Hpaths Hdirs)
      as (h' & oo & ep & mo & r & ext & mods & e & m & ru & old & r1 & r2 & u
          & loader & opts & Hrun & _ & _ & _ & _ & _ & _ & Hcr & _ & Hrext
          & _ & _ & Hrmods & Hmods0 & Hmods & _ & _ & _ & Hcm & Hmr & _
          & Hru & Hold & _ & _ & _ & _ & _ & _ & _ & _ & _ & Hext & Hsr
          & Hse & Hsm & Hne).
    specialize (Hold Hd). subst old. specialize (Hne Hd).
    specialize (Hext Hne).
    exists h', r, ext, mods, m, ru, r1, r2.
    split; [done|]. split; [done|]. split.
    { intros Hf. destruct Hsr as [[_ ?]|Hr]; [done|]. by rewrite Hr in Hf. }
    split.
    { intros r0 Hr0. destruct Hsr as [[Hf _]|Hr]; [by rewrite Hr0 in Hf|].
      congruence. }
    split; [done|]. split.
    { intros Hf. destruct Hse as [[_ ?]|He]; [|by rewrite He in Hf].
      split; [done|]. rewrite Hext.
      by destruct (extensions_of h c) as [| |[]|[]|]. }
    split.
    { intros e0 es He0 Hes. destruct Hse as [[Hf _]|He].
      - by rewrite He0 in Hf.
      - rewrite He0 in He. injection He as <-. split; [done|].
        rewrite Hext, He0. cbn [elems_of]. by rewrite Hes. }
    split; [done|]. split; [done|]. split; [done|]. split.
    { intros Hf. rewrite Hmods. unfold resolve_modules. by rewrite Hf. }
    split; [done|]. split; [done|]. split; [done|]. split.
    + intros Hf. destruct Hsm as [(_ & Hm & Hr)|[Hm _]].
      * split; [done|]. split; [done|]. by rewrite Hru, (Hnorules Hf).
      * by rewrite Hm in Hf.
    + intros m0 Hm0. destruct Hsm as [(Hf & _)|[Hm Hr]].
      * by rewrite Hm0 in Hf.
      * rewrite Hm0 in Hm. injection Hm as ->. by split.
  - intros ml names folder f Hal Hml Hf Hval.
    apply andb_prop in Hres as [Hobj _].
    destruct (dedupeModules_full h c ml names folder f
                Hc Hobj Hal Hml Hf Hpl Hval)
      as (h' & r & al & p & added & Hrun & _ & Hrnew & _ & Hcr & Hr0 & _
          & Hra & Hal0 & _ & Hcp & Hp0 & Hp & Hadded & Hpnew & _).
    exists h', r, al, p, added. repeat (split; [done|]).
    destruct (existsb (is_checker h) (list_of h c "plugins")).
    + subst added. cbn. lia.
    + destruct Hadded as (k & -> & _). cbn. lia.
  - intros d name Hd Hv Hdist.
    destruct (useExternal_steps h c d name Hc Hd Hv Hpl Hdist)
      as (h' & ext & p & added & Hrun & _ & Hprov & _ & _ & _ & _ & Hcp & Hp
          & Hadded).
    exists h', p, added. split; [done|]. split; [done|]. split.
    { intros Hf. destruct Hprov as [[_ ?]|Hq]; [done|]. by rewrite Hq in Hf. }
    split.
    { intros p0 Hp0. destruct Hprov as [[Hf _]|Hq]; [by rewrite Hp0 in Hf|].
      congruence. }
    split; [done|].
    destruct (copy_requested h d).
    + destruct Hadded as (k & pats & pat & -> & _). cbn. lia.
    + subst added. cbn. lia.
  - by apply fixZipPackage_absent.
  - intros a ps Ha Hps Hplug.
    rewrite <- bind_ret_r. unfold fixZipPackage. run.
    rewrite (run_sort_plugins a ps) by done. run.
    eexists. split; [reflexivity|]. split; by hsimpl.
Qed.

(** * Further properties of the functions *)

(** ** [fixZipPackage] *)

(** X1.  [fixZipPackage] is idempotent: on a list of plugins, a second call
    finds the packaging plugins already last and leaves the heap as the
    first call left it. *)
Theorem fixZipPackage_idempotent (h : heap) (c a : loc) (ps : list val) :
  alive h c ->
  field h c "plugins" = VRef a ->
  elems_at h a = Some ps ->
  forallb (is_plugin h) ps = true ->
  exists h1,
    fixZipPackage object_to_string (VRef c) h = (Ok tt, h1) /\
    elems_at h1 a = Some (partitioned (is_zip h) ps) /\
    fixZipPackage object_to_string (VRef c) h1 = (Ok tt, h1).
Proof.
  intros Hc Ha Hps Hpl.
  set (h1 := hset c "plugins" (VRef a)
               (hset_elems a (partitioned (is_zip h) ps) h)).
  assert (fixZipPackage object_to_string (VRef c) h = (Ok tt, h1)) as Hrun1.
  { rewrite <- bind_ret_r. unfold fixZipPackage. run.
    rewrite (run_sort_plugins a ps) by done. run. done. }
  assert (field h1 c "plugins" = VRef a) as Ha1 by (subst h1; by hsimpl).
  assert (elems_at h1 a = Some (partitioned (is_zip h) ps)) as Hps1
    by (subst h1; by hsimpl).
  assert (forall p, is_zip h1 p = is_zip h p) as Hzip.
  { intros p. subst h1. by rewrite is_zip_hset, is_zip_hset_elems. }
  assert (forallb (is_plugin h1) (partitioned (is_zip h) ps) = true) as Hpl1.
  { apply forallb_partitioned. rewrite <- Hpl. apply forallb_pointwise.
    intros p. subst h1. by rewrite is_plugin_hset, is_plugin_hset_elems. }
  assert (alive h1 c) as Hc1 by (subst h1; solve_alive).
  exists h1. split; [done|]. split; [done|].
  clearbody h1.
  rewrite <- bind_ret_r. unfold fixZipPackage. run.
  rewrite (run_sort_plugins a (partitioned (is_zip h) ps)) by done. run.
  rewrite (partitioned_ext (is_zip h1) (is_zip h))
    by (apply Forall_forall; intros; apply Hzip).
  rewrite partitioned_idem, hset_elems_id by done.
  f_equal. by apply hset_ref_id.
Qed.

(** X2.  When [config.plugins] holds a value that is not a list and has no
    [sort] of its own, [fixZipPackage] raises [TypeError] and changes
    nothing. *)
Theorem fixZipPackage_not_a_list (h : heap) (c : loc) :
  alive h c ->
  truthy (field h c "plugins") = true ->
  valid h (field h c "plugins") = true ->
  elems_of h (field h c "plugins") = None ->
  fieldv h (field h c "plugins") "sort" = VUndefined ->
  fixZipPackage object_to_string (VRef c) h = (Throw TypeError, h).
Proof.
  intros Hc Ht Hv He _. unfold fixZipPackage.
  rewrite (run_get_prop c) by done. rewrite Ht. cbn [negb].
  rewrite (run_get_prop c) by done.
  apply bind_throw. unfold array_sort. apply bind_throw.
  by apply array_elems_throw.
Qed.

(** ** [useSourceMap] *)

(** X3.  For a production build, [useSourceMap] assigns [devtool] and does
    nothing else: whatever falsy value the flag is and whatever
    [config.module] holds, the call returns and the heap differs in that
    one property. *)
Theorem useSourceMap_production_only_devtool (h : heap) (c : loc)
    (dev : val) :
  alive h c ->
  truthy dev = false ->
  exists h',
    useSourceMap (VRef c) dev h = (Ok tt, h') /\
    field h' c "devtool" = VString "source-map" /\
    (forall l k, (l, k) <> (c, "devtool") -> field h' l k = field h l k) /\
    (forall l, slot_at h' l = slot_at h l) /\
    (forall l, class_at h' l = class_at h l) /\
    (forall l, l <> c -> h' !! l = h !! l).
Proof.
  intros Hc Hdev. exists (hset c "devtool" (VString "source-map") h).
  split.
  { rewrite <- bind_ret_r. unfold useSourceMap. rewrite Hdev. run. done. }
  split; [by hsimpl|]. split.
  { intros l k Hne. by apply field_hset_cell. }
  split; [intros l; apply slot_at_hset|].
  split; [intros l; apply class_at_hset|].
  intros l Hl. by apply lookup_hset_ne.
Qed.

(** X4.  [useSourceMap] for a development build is not idempotent: each
    call appends a source-map rule of its own, so after two calls the rule
    list ends with two different rules. *)
Theorem useSourceMap_twice_two_rules (h : heap) (c : loc) :
  alive h c ->
  module_ok h c = true ->
  exists h1 h2 r1 r2,
    useSourceMap (VRef c) (VBool true) h = (Ok tt, h1) /\
    useSourceMap (VRef c) (VBool true) h1 = (Ok tt, h2) /\
    rules_of h2 c = Some (default [] (rules_of h c) ++ [VRef r1; VRef r2]) /\
    r1 <> r2 /\
    field h2 r1 "enforce" = VString "pre" /\
    field h2 r2 "enforce" = VString "pre".
Proof.
  intros Hc Hok.
  destruct (useSourceMap_dev_run h c Hc Hok)
    as (h1 & m & ru & r1 & Hrun1 & _ & Hcm & Hmr & Hru & Hr1 & _ & Hm1
        & Henf1).
  destruct (module_ok_intro h1 c m ru _ Hcm Hmr Hru) as [Hok1 Hrules1].
  assert (alive h1 c) as Hc1 by solve_alive.
  destruct (useSourceMap_dev_run h1 c Hc1 Hok1)
    as (h2 & m2 & ru2 & r2 & Hrun2 & _ & Hcm2 & Hmr2 & Hru2 & Hr2 & Hprov
        & Hm2 & Henf2).
  destruct (module_ok_intro h2 c m2 ru2 _ Hcm2 Hmr2 Hru2) as [_ Hrules2].
  exists h1, h2, r1, r2. split; [done|]. split; [done|].
  split. { rewrite Hrules2, Hrules1. cbn [default id]. by rewrite <- app_assoc. }
  assert (alive h1 r1) as Hal1 by solve_alive.
  split; [solve_ne|]. split; [|done].
  rewrite <- Henf1.
  apply (modifies_field _ _ h1 h2 r1 _ Hm2); [done|].
  assert (r1 <> c) by solve_ne. solve_notin.
Qed.

(** X5.  When [config.module] is a record whose [rules] is not a list,
    [useSourceMap] for a development build raises [TypeError]; by then it
    has assigned [devtool], and that is all it has changed. *)
Theorem useSourceMap_rules_missing (h : heap) (c m : loc) :
  alive h c ->
  field h c "module" = VRef m ->
  alive h m ->
  valid h (field h m "rules") = true ->
  elems_of h (field h m "rules") = None ->
  fieldv h (field h m "rules") "push" = VUndefined ->
  exists h',
    useSourceMap (VRef c) (VBool true) h = (Throw TypeError, h') /\
    field h' c "devtool" = VString "cheap-module-source-map" /\
    modifies [(c, "devtool")] [] h h'.
Proof.
  intros Hc Hcm Hm Hv He _.
  unfold useSourceMap, init_module, push_rule, default_prop. cbn [truthy].
  run.
  rewrite (hset_ref_id c m "module") in * by by hsimpl.
  eexists. split.
  { apply push_throw; [solve_valid|].
    destruct (field h m "rules") as [| | | |a] eqn:Ea; try done.
    cbn [elems_of valid] in *. apply bool_decide_eq_true in Hv.
    change (alive h a) in Hv. by hsimpl. }
  split; [by hsimpl|]. solve_modifies.
Qed.

(** ** [useTypescript] *)

(** X6.  [useTypescript] extends the list of [config.resolve.extensions]
    in place: a list that is there is the same object afterwards, in the
    same [resolve] record, with ['.ts'] and ['.tsx'] pushed at its end.
    It replaces [config.resolve.modules] by a new list of the old elements
    followed by the options' modules: the list that was there before
    keeps the elements it had.  The list of rules is another object than
    these lists. *)
Theorem useTypescript_extends_and_replaces (h : heap) (c r0 e0 : loc)
    (es : list val) (options : val) (dir : string) (paths : list string)
    (dirs : list val) :
  alive h c ->
  context_dir h c = Some dir ->
  valid h options = true ->
  resolve_ok h c = true ->
  module_ok h c = true ->
  search_paths path_resolve h c options = Some paths ->
  module_dirs h c options = Some dirs ->
  field h c "resolve" = VRef r0 ->
  field h r0 "extensions" = VRef e0 ->
  elems_at h e0 = Some es ->
  distinct_refs (fieldv h (field h c "module") "rules") (VRef e0) = true ->
  exists h' mods,
    useTypescript path_resolve getEntries (VRef c) options h = (Ok tt, h') /\
    field h' c "resolve" = VRef r0 /\
    field h' r0 "extensions" = VRef e0 /\
    elems_at h' e0 = Some (es ++ [VString ".ts"; VString ".tsx"]) /\
    field h' r0 "modules" = VRef mods /\
    h !! mods = None /\
    elems_at h' mods = Some (resolve_modules h c ++ dirs) /\
    (forall a, field h r0 "modules" = VRef a -> a <> e0 ->
               fieldv h (field h c "module") "rules" <> VRef a ->
               elems_at h' a = elems_at h a).
Proof.
  intros Hc Hdir Hv Hres Hok Hpaths Hdirs Hr0 He0 Hes Hd.
  assert (extensions_of h c = VRef e0) as Hext0.
  { unfold extensions_of. by rewrite Hr0. }
  destruct (useTypescript_full h c options dir paths dirs
              Hc Hdir Hv Hres Hok Hpaths Hdirs)
    as (h' & oo & ep & mo & r & ext & mods & e & m & ru & old & r1 & r2 & u
        & loader & opts & Hrun & _ & _ & _ & _ & _ & _ & Hcr & _ & Hrext
        & _ & _ & Hrmods & Hmods0 & Hmods & _ & _ & _ & Hcm & Hmr & _ & _
        & _ & _ & _ & _ & _ & _ & _ & _ & _ & Hm & Hext & Hsr & Hse & Hsm
        & Hne).
  assert (r = r0) as ->.
  { destruct Hsr as [[Hf _]|Hf]; [by rewrite Hr0 in Hf|]. congruence. }
  assert (ext = e0) as ->.
  { destruct Hse as [[Hf _]|Hf]; [by rewrite Hext0 in Hf|]. congruence. }
  rewrite Hext0 in *. cbn [elems_of] in Hext. rewrite Hes in Hext.
  specialize (Hne Hd). specialize (Hext Hne).
  exists h', mods.
  split; [done|]. split; [done|]. split; [done|]. split; [done|].
  split; [done|]. split; [done|]. split; [done|].
  intros a Ha Hae Har.
  assert (modules_of h c = VRef a) as Hmo.
  { unfold modules_of. by rewrite Hr0. }
  assert (a <> ru) as Hru.
  { pose proof (modules_of_alive h c a Hres Hmo) as Hal.
    destruct Hsm as [(_ & _ & Hf)|[Hf1 Hf2]].
    - intros ->. destruct Hal. congruence.
    - rewrite Hf1 in Har. cbn [fieldv] in Har. rewrite Hf2 in Har. congruence. }
  apply (modifies_elems _ _ h h' a Hm); [|solve_notin].
  by eapply modules_of_alive.
Qed.

(** X7.  An options record that has the key [modules] with a value that
    cannot be spread, [undefined] for one, does not get the default:
    [useTypescript] raises [TypeError].  By then it has set up
    [config.resolve] and pushed the two extensions; [entry] and [module]
    are as they were. *)
Theorem useTypescript_modules_not_iterable (h : heap) (c : loc)
    (options v : val) (dir : string) :
  alive h c ->
  context_dir h c = Some dir ->
  valid h options = true ->
  resolve_ok h c = true ->
  own_enumerable h options !! "modules" = Some v ->
  valid h v = true ->
  spread_elems h v = None ->
  exists h' r ext,
    useTypescript path_resolve getEntries (VRef c) options h
    = (Throw TypeError, h') /\
    field h' c "resolve" = VRef r /\
    field h' r "extensions" = VRef ext /\
    elems_at h' ext
    = Some (default [] (elems_of h (extensions_of h c))
            ++ [VString ".ts"; VString ".tsx"]) /\
    field h' c "entry" = field h c "entry" /\
    field h' c "module" = field h c "module".
Proof.
  intros Hc Hdir Hv Hres Hgiven Hvv Hspread. unfold useTypescript.
  destruct (typescript_options_unit c options dir h Hc Hdir Hv)
    as (h1 & oo & ep & mo & Hrun1 & Hm1 & Hoo & Hep & Hmo & Hep1 & Hmo1
        & Hoo1 & Hfield).
  run_eq Hrun1.
  destruct (frame_resolve h h1 c Hm1 Hc Hres)
    as (Hres1 & Hr01 & Hext01 & Hmods01 & Hel01 & Hrm01).
  destruct (typescript_extensions_unit c h1)
    as (h2 & r & ext & mods & Hrun2 & Hcr & Hrext & Hrmods & Hext2 & Hmods2
        & Hm2 & Hpr & Hpext & Hpmods); [solve_alive|done|].
  run_eq Hrun2.
  rewrite Hr01, Hext01, Hmods01 in *. rewrite Hel01, Hrm01 in *.
  assert (oo <> c) as Hooc by solve_ne.
  assert (oo <> r) as Hoor.
  { destruct Hpr as [[_ Hpr]|[Hpr _]]; [solve_ne|].
    destruct (resolve_ok_alive h c r Hres Hpr) as [Hal _]. solve_ne. }
  assert (field h2 oo "modules" = v) as Hov.
  { rewrite (modifies_field _ _ h1 h2 oo _ Hm2); [|solve_alive|solve_notin].
    by rewrite Hfield, (lookup_union_Some_l _ _ _ v). }
  assert (valid h2 v = true) as Hvv2.
  { eapply grows_valid; [|exact Hvv].
    eapply grows_trans; by eapply modifies_grows. }
  assert (spread_elems h2 v = None) as Hspread2.
  { destruct v as [| | |s|a]; try done. cbn [spread_elems valid] in *.
    apply bool_decide_eq_true in Hvv. change (alive h a) in Hvv.
    assert (a <> ext) as Hne.
    { destruct Hpext as [[_ Hf]|[Hf _]]; [solve_ne|].
      destruct (extensions_of_list h c ext Hres Hf) as [es Hes].
      intros ->. congruence. }
    rewrite (modifies_elems _ _ h1 h2 a Hm2); [|solve_alive|solve_notin].
    by rewrite (frame_elems h h1 a). }
  exists h2, r, ext. split.
  { apply bind_throw. unfold typescript_modules. run. rewrite ?Hov.
    apply bind_throw. by apply iterate_throw. }
  split; [done|]. split; [done|]. split; [done|].
  split.
  - rewrite (modifies_field _ _ h1 h2 c _ Hm2); [|solve_alive|solve_notin].
    by apply frame_field.
  - rewrite (modifies_field _ _ h1 h2 c _ Hm2); [|solve_alive|solve_notin].
    by apply frame_field.
Qed.

(** ** [useExternal] *)

(** X8.  When [from] and [to] of the definition are both truthy,
    [useExternal] pushes exactly one new [CopyPlugin] after the plugins
    that are there; its [patterns] are one record of [from], [to] and
    [cache: true].  The call changes the configuration, its plugin list
    and a list of externals, and no other object that was there. *)
Theorem useExternal_copies_script (h : heap) (c d : loc) (name : string) :
  alive h c ->
  field h d "module" = VString name ->
  valid h (field h c "externals") = true ->
  absent_or_list h c "plugins" = true ->
  distinct_refs (field h c "externals") (field h c "plugins") = true ->
  truthy (field h d "from") = true ->
  truthy (field h d "to") = true ->
  exists h' p k pats pat,
    useExternal object_to_string (VRef c) (VRef d) h = (Ok tt, h') /\
    field h' c "plugins" = VRef p /\
    elems_at h' p = Some (list_of h c "plugins" ++ [VRef k]) /\
    h !! k = None /\
    class_at h' k = Some CopyPlugin /\
    field h' k "patterns" = VRef pats /\
    elems_at h' pats = Some [VRef pat] /\
    field h' pat "from" = field h d "from" /\
    field h' pat "to" = field h d "to" /\
    field h' pat "cache" = VBool true /\
    (forall l, alive h l -> l <> c -> l <> p ->
               field h c "externals" <> VRef l ->
               h' !! l = h !! l).
Proof.
  intros Hc Hd Hv Hpl Hsep Hfrom Hto.
  destruct (useExternal_steps h c d name Hc Hd Hv Hpl Hsep)
    as (h' & ext & p & added & Hrun & Hm & _ & _ & _ & _ & _ & Hp & Hes
        & Hadded).
  unfold copy_requested in Hadded. rewrite Hfrom, Hto in Hadded.
  destruct Hadded as (k & pats & pat & -> & Hk & Hcls & Hkp & Hpats & Hf & Ht
                      & Hcache & _).
  exists h', p, k, pats, pat. repeat (split; [done|]).
  intros l Hl Hlc Hlp Hle.
  apply (modifies_lookup _ _ h h' l Hm); [done|solve_notin|].
  pose proof (externals_of_cases h c Hv) as Hcases.
  destruct (externals_of h c) as [|a es|v]; [solve_notin| |solve_notin].
  destruct Hcases as [Ha _].
  assert (l <> a) by (intros ->; by rewrite Ha in Hle).
  solve_notin.
Qed.

(** X9.  Externals accumulate in call order: on a configuration without
    externals the first call of [useExternal] stores its mapping, and the
    second turns the field into a list of the first mapping followed by
    its own. *)
Theorem useExternal_twice_makes_a_list (h : heap) (c d1 d2 : loc)
    (n1 n2 : string) :
  alive h c ->
  field h d1 "module" = VString n1 ->
  field h d2 "module" = VString n2 ->
  truthy (field h c "externals") = false ->
  absent_or_list h c "plugins" = true ->
  exists h1 h2 e1 e2 b,
    useExternal object_to_string (VRef c) (VRef d1) h = (Ok tt, h1) /\
    useExternal object_to_string (VRef c) (VRef d2) h1 = (Ok tt, h2) /\
    field h1 c "externals" = VRef e1 /\
    field h2 c "externals" = VRef b /\
    elems_at h2 b = Some [VRef e1; VRef e2] /\
    h2 !! e1 = Some (Obj ObjectC SNone {[ n1 := field h d1 "global" ]}) /\
    h2 !! e2 = Some (Obj ObjectC SNone {[ n2 := field h d2 "global" ]}).
Proof.
  intros Hc Hd1 Hd2 Hext Hpl.
  assert (valid h (field h c "externals") = true) as Hv.
  { by destruct (field h c "externals"). }
  assert (distinct_refs (field h c "externals") (field h c "plugins") = true)
    as Hsep.
  { by destruct (field h c "externals"). }
  assert (externals_of h c = ExtAbsent) as Habs.
  { unfold externals_of. by rewrite Hext. }
  destruct (useExternal_steps h c d1 n1 Hc Hd1 Hv Hpl Hsep)
    as (h1 & e1 & p1 & added1 & Hrun1 & Hm1 & Hprov1 & _ & He1 & He11
        & Hmerge1 & Hp1 & Hes1 & _).
  rewrite Habs in Hmerge1, Hm1.
  assert (alive h d2) as Hd2a by solve_alive.
  assert (alive h1 c) as Hc1 by solve_alive.
  assert (field h1 d2 "module" = VString n2) as Hd21.
  { rewrite <- Hd2.
    apply (modifies_field _ _ h h1 d2 _ Hm1); [done|solve_notin]. }
  assert (field h1 d2 "global" = field h d2 "global") as Hg21.
  { apply (modifies_field _ _ h h1 d2 _ Hm1); [done|solve_notin]. }
  assert (alive h1 e1) as He1a by solve_alive.
  assert (elems_at h1 e1 = None) as Hno.
  { unfold elems_at. by rewrite He11. }
  assert (valid h1 (field h1 c "externals") = true) as Hv1.
  { rewrite Hmerge1. by apply valid_alive. }
  destruct (absent_or_list_intro h1 c p1 "plugins" _ Hp1 Hes1) as [Hpl1 _].
  assert (e1 <> p1) as Hne.
  { intros ->. congruence. }
  assert (distinct_refs (field h1 c "externals") (field h1 c "plugins")
          = true) as Hsep1.
  { rewrite Hmerge1, Hp1. cbn. apply negb_true_iff. by apply Pos.eqb_neq. }
  assert (externals_of h1 c = ExtSingle (VRef e1)) as Hsingle.
  { unfold externals_of. rewrite Hmerge1. cbn [truthy elems_of].
    by rewrite Hno. }
  destruct (useExternal_steps h1 c d2 n2 Hc1 Hd21 Hv1 Hpl1 Hsep1)
    as (h2 & e2 & p2 & added2 & Hrun2 & Hm2 & Hprov2 & _ & He2 & He22
        & Hmerge2 & Hp2 & Hes2 & _).
  rewrite Hsingle in Hmerge2, Hm2.
  destruct Hmerge2 as (b & Hb & _ & Hbes).
  exists h1, h2, e1, e2, b. repeat (split; [done|]).
  split; [|by rewrite He22, Hg21].
  rewrite <- He11.
  assert (e1 <> c) by solve_ne.
  assert (e1 <> p2).
  { destruct Hprov2 as [[_ Hf]|Hf]; [solve_ne|]. congruence. }
  apply (modifies_lookup _ _ h1 h2 e1 Hm2); [done|solve_notin..].
Qed.

(** X10.  [fixZipPackage] after [useExternal] does what the source asks
    the caller to do it for: the copy plugin that [useExternal] pushed at
    the end of the list comes before every packaging plugin, and the
    plugins that were there keep their order on either side of it.  The
    plugins are objects other than the configuration and its lists. *)
Theorem fixZipPackage_after_useExternal (h : heap) (c d p : loc)
    (name : string) (ps : list val) :
  alive h c ->
  field h d "module" = VString name ->
  valid h (field h c "externals") = true ->
  field h c "plugins" = VRef p ->
  elems_at h p = Some ps ->
  distinct_refs (field h c "externals") (VRef p) = true ->
  truthy (field h d "from") = true ->
  truthy (field h d "to") = true ->
  forallb (is_plugin h) ps = true ->
  forallb (fun v => distinct_refs v (VRef c) && distinct_refs v (VRef p)
                    && distinct_refs v (field h c "externals")) ps = true ->
  exists h1 h2 k,
    useExternal object_to_string (VRef c) (VRef d) h = (Ok tt, h1) /\
    elems_at h1 p = Some (ps ++ [VRef k]) /\
    h !! k = None /\
    class_at h1 k = Some CopyPlugin /\
    fixZipPackage object_to_string (VRef c) h1 = (Ok tt, h2) /\
    field h2 c "plugins" = VRef p /\
    elems_at h2 p
    = Some (filter (fun v => is_zip h v = false) ps ++ [VRef k]
            ++ filter (fun v => is_zip h v = true) ps).
Proof.
  intros Hc Hd Hv Hp Hps Hsep Hfrom Hto Hpl Hapart.
  destruct (absent_or_list_intro h c p "plugins" ps Hp Hps) as [Hlist Hlof].
  rewrite <- Hp in Hsep.
  destruct (useExternal_steps h c d name Hc Hd Hv Hlist Hsep)
    as (h1 & ext & p1 & added & Hrun & Hm & Hprov & Hg & _ & _ & _ & Hp1
        & Hes & Hadded).
  unfold copy_requested in Hadded. rewrite Hfrom, Hto in Hadded.
  destruct Hadded as (k & pats & pat & -> & Hk & Hcls & _ & _ & _ & _ & _
                      & o & Hobj & _).
  rewrite Hlof in Hes.
  assert (p1 = p) as ->.
  { destruct Hprov as [[Hf _]|Hf]; [|congruence]. by rewrite Hp in Hf. }
  assert (Forall (fun v => is_plugin h1 v = true /\ is_zip h1 v = is_zip h v)
            ps) as Hkept.
  { apply Forall_forall. intros v Hin.
    rewrite forallb_forall in Hpl, Hapart.
    apply list_elem_of_In in Hin.
    specialize (Hpl v Hin). specialize (Hapart v Hin).
    apply andb_prop in Hapart as [[Hvc Hvp]%andb_prop Hve].
    split; [|apply is_zip_grows; [done|by apply is_plugin_valid]].
    destruct v as [| | | |l]; try done.
    apply distinct_refs_ne in Hvc, Hvp.
    rewrite <- Hpl. apply is_plugin_same.
    assert (alive h l) as Hl.
    { apply is_plugin_valid in Hpl. by apply bool_decide_eq_true in Hpl. }
    apply (modifies_lookup _ _ h h1 l Hm); [done|solve_notin|].
    pose proof (externals_of_cases h c Hv) as Hcases.
    destruct (externals_of h c) as [|a es|w]; [solve_notin| |solve_notin].
    destruct Hcases as [Ha _]. rewrite Ha in Hve.
    apply distinct_refs_ne in Hve. solve_notin. }
  assert (is_plugin h1 (VRef k) = true) as Hkp.
  { cbn. rewrite Hobj. cbn. by apply bool_decide_eq_true. }
  assert (is_zip h1 (VRef k) = false) as Hkz.
  { cbn. by rewrite Hobj. }
  assert (forallb (is_plugin h1) (ps ++ [VRef k]) = true) as Hpl1.
  { rewrite forallb_app. cbn [forallb]. rewrite Hkp.
    rewrite andb_true_r. apply forallb_forall. intros v Hin.
    rewrite Forall_forall in Hkept. apply Hkept. by apply list_elem_of_In. }
  assert (alive h1 c) as Hc1 by solve_alive.
  exists h1, (hset c "plugins" (VRef p)
               (hset_elems p (partitioned (is_zip h1) (ps ++ [VRef k])) h1)),
    k.
  split; [done|]. split; [done|]. split; [done|]. split; [done|].
  split.
  { rewrite <- bind_ret_r. unfold fixZipPackage. run.
    rewrite (run_sort_plugins p (ps ++ [VRef k])) by done. run. done. }
  split; [by hsimpl|].
  hsimpl. f_equal. unfold partitioned.
  rewrite !filter_app, !filter_cons, !filter_nil.
  rewrite decide_True, decide_False by (by rewrite Hkz).
  rewrite app_nil_r, <- app_assoc. cbn [app].
  f_equal; [|f_equal]; apply filter_ext_Forall;
    (eapply Forall_impl; [exact Hkept|]); intros v [_ Hz]; cbn;
    by rewrite Hz.
Qed.

(** ** [dedupeModules] and [getDedupeAliases] *)

(** X11.  [dedupeModules] keeps the plugins that are there in place and
    pushes at most one checker after them: none when some plugin is an
    instance of the checker class, a new instance otherwise.  The alias
    mapping it installs is a new object, and the call changes no object
    other than the configuration, its [resolve] record and its plugin
    list: the list of module names and the alias mapping that was there
    before are as they were. *)
Theorem dedupeModules_footprint (h : heap) (c ml : loc)
    (names : list string) (folder : val) (f : string) :
  alive h c ->
  absent_or_object h c "resolve" = true ->
  valid h (fieldv h (field h c "resolve") "alias") = true ->
  elems_at h ml = Some (VString <$> names) ->
  folder_name folder = Some f ->
  absent_or_list h c "plugins" = true ->
  forallb (valid h) (list_of h c "plugins") = true ->
  exists h' r al p added,
    dedupeModules path_join path_resolve object_to_string
      (VRef c) (VRef ml) folder h = (Ok tt, h') /\
    field h' c "resolve" = VRef r /\
    field h' r "alias" = VRef al /\
    h !! al = None /\
    field h' c "plugins" = VRef p /\
    elems_at h' p = Some (list_of h c "plugins" ++ added) /\
    (if existsb (is_checker h) (list_of h c "plugins") then added = []
     else exists k, added = [VRef k] /\ h !! k = None /\
                    is_checker h' (VRef k) = true) /\
    (forall l, alive h l -> l <> c -> l <> r -> l <> p -> h' !! l = h !! l).
Proof.
  intros Hc Hres Hal Hml Hf Hpl Hval.
  destruct (dedupeModules_steps h c ml names folder f
              Hc Hres Hal Hml Hf Hpl Hval)
    as (h' & r & al & p & added & Hrun & Hm & _ & Hcr & _ & _ & Hra & Hal0
        & _ & Hcp & _ & Hes & Hadded & _).
  exists h', r, al, p, added. repeat (split; [done|]).
  intros l Hl Hlc Hlr Hlp.
  apply (modifies_lookup _ _ h h' l Hm); [done|solve_notin..].
Qed.

Lemma loaded_apart_no_checker (h : heap) (ps : list val) :
  Forall (fun v => exists l n i parent,
            v = VRef l /\ class_at h l = Some (Loaded n i parent) /\
            extends parent DuplicatePackageCheckerPlugin = false) ps ->
  existsb (is_checker h) ps = false /\ forallb (valid h) ps = true.
Proof.
  induction 1 as [|v ps (l & n & i & parent & -> & Hcls & Hpar) _ [IH1 IH2]];
    [done|].
  cbn [existsb forallb]. rewrite IH1, IH2.
  unfold class_at in Hcls. unfold is_checker, valid.
  destruct (h !! l) as [o|] eqn:Ho; [|done]. cbn in Hcls.
  injection Hcls as Hcls. rewrite Hcls. cbn [extends class_eqb orb].
  rewrite Hpar. split; [done|].
  rewrite (bool_decide_eq_true_2 (is_Some (Some o))) by eauto. done.
Qed.

(** X12.  [dedupeModules] recognises a checker by [instanceof] alone.
    When every plugin is an instance of a class that comes from elsewhere
    and does not derive from the checker class this module imports,
    whatever the class is called, the call pushes a checker of its own;
    a plugin of a class named [DuplicatePackageCheckerPlugin] in another
    copy of the package does not count, where [fixZipPackage] would go by
    the name. *)
Theorem dedupeModules_checker_by_identity (h : heap) (c ml p : loc)
    (names : list string) (folder : val) (f : string) (ps : list val) :
  alive h c ->
  absent_or_object h c "resolve" = true ->
  valid h (fieldv h (field h c "resolve") "alias") = true ->
  elems_at h ml = Some (VString <$> names) ->
  folder_name folder = Some f ->
  field h c "plugins" = VRef p ->
  elems_at h p = Some ps ->
  Forall (fun v => exists l n i parent,
            v = VRef l /\ class_at h l = Some (Loaded n i parent) /\
            extends parent DuplicatePackageCheckerPlugin = false) ps ->
  exists h' k,
    dedupeModules path_join path_resolve object_to_string
      (VRef c) (VRef ml) folder h = (Ok tt, h') /\
    field h' c "plugins" = VRef p /\
    elems_at h' p = Some (ps ++ [VRef k]) /\
    h !! k = None /\
    is_checker h' (VRef k) = true.
Proof.
  intros Hc Hres Hal Hml Hf Hp Hps Hall.
  destruct (absent_or_list_intro h c p "plugins" ps Hp Hps) as [Hlist Hlof].
  destruct (loaded_apart_no_checker h ps Hall) as [Hnone Hvalid].
  rewrite <- Hlof in Hvalid.
  destruct (dedupeModules_steps h c ml names folder f
              Hc Hres Hal Hml Hf Hlist Hvalid)
    as (h' & r & al & p' & added & Hrun & _ & _ & _ & _ & _ & _ & _
        & _ & Hcp & Hp0 & Hes & Hadded & _).
  rewrite Hlof in Hes, Hadded. rewrite Hnone in Hadded.
  destruct Hadded as (k & -> & Hk & Hck).
  rewrite (Hp0 p Hp) in *. by exists h', k.
Qed.

Lemma for_each_app (xs ys : list val) (body : val -> M unit) (h : heap) :
  for_each (xs ++ ys) body h = (for_each xs body ;; for_each ys body) h.
Proof.
  revert h. induction xs as [|x xs IH]; intros h; [done|].
  cbn [app for_each]. rewrite bind_assoc. unfold bind.
  destruct (body x h) as [[a|e] h1]; [|done].
  rewrite IH. reflexivity.
Qed.

(** X13.  A module name that is not a string makes [getDedupeAliases]
    raise [TypeError], as [path.join] does on it; no object that was there
    has changed. *)
Theorem getDedupeAliases_name_not_a_string (h : heap) (ml : loc)
    (pre : list string) (v : val) (post : list val) (folder : val)
    (f : string) :
  elems_at h ml = Some ((VString <$> pre) ++ v :: post) ->
  (forall s, v <> VString s) ->
  folder_name folder = Some f ->
  exists h',
    getDedupeAliases path_join path_resolve object_to_string
      (VRef ml) folder h = (Throw TypeError, h') /\
    (forall l, alive h l -> h' !! l = h !! l).
Proof.
  intros Hml Hv Hf.
  assert (default_param folder (VString "./node_modules") = VString f) as Hd.
  { destruct folder; try done; cbn in *; congruence. }
  unfold getDedupeAliases. rewrite Hd.
  unfold new_object. rewrite run_alloc.
  pose proof (fresh_loc_None h) as Hl.
  generalize dependent (fresh_loc h). intros l Hl.
  erewrite run_iterate by solve_obs.
  eexists. split.
  - apply bind_throw. rewrite for_each_app.
    rewrite (bind_run _ _ _ _ _ (for_each_alias l f pre ∅ h)).
    cbn [for_each]. apply bind_throw. apply bind_throw.
    unfold path_join_js, strings_of. cbn [mapM]. cbn.
    destruct v as [| | |s|]; try done. by destruct (Hv s).
  - intros j Hj. by hsimpl.
Qed.

Lemma union_absorb (a b : gmap string val) : a ∪ (a ∪ b) = a ∪ b.
Proof.
  apply map_eq. intros k. rewrite !lookup_union.
  by destruct (a !! k), (b !! k).
Qed.

(** X14.  A second call of [dedupeModules] with the same module names
    installs one more new alias object, holding the mapping the first call
    made: the aliases are the same after two calls as after one. *)
Theorem dedupeModules_twice_same_aliases (h : heap) (c ml : loc)
    (names : list string) (folder : val) (f : string) :
  alive h c ->
  absent_or_object h c "resolve" = true ->
  valid h (fieldv h (field h c "resolve") "alias") = true ->
  elems_at h ml = Some (VString <$> names) ->
  folder_name folder = Some f ->
  absent_or_list h c "plugins" = true ->
  forallb (valid h) (list_of h c "plugins") = true ->
  field h c "plugins" <> VRef ml ->
  exists h1 h2 r al1 al2 merged,
    dedupeModules path_join path_resolve object_to_string
      (VRef c) (VRef ml) folder h = (Ok tt, h1) /\
    dedupeModules path_join path_resolve object_to_string
      (VRef c) (VRef ml) folder h1 = (Ok tt, h2) /\
    field h1 c "resolve" = VRef r /\
    field h2 c "resolve" = VRef r /\
    field h1 r "alias" = VRef al1 /\
    field h2 r "alias" = VRef al2 /\
    al1 <> al2 /\
    h1 !! al1 = Some (Obj ObjectC SNone merged) /\
    h2 !! al2 = Some (Obj ObjectC SNone merged).
Proof.
  intros Hc Hres Hal Hml Hf Hpl Hval Hsep.
  destruct (dedupeModules_steps h c ml names folder f
              Hc Hres Hal Hml Hf Hpl Hval)
    as (h1 & r & al & p & added & Hrun1 & Hm1 & Hg1 & Hr & _ & Hra & Ha
        & Hfresh & Hal1 & Hp & Hp0 & Hps & Hadded & Hpfresh & Hmlkeep).
  assert (p <> ml) as Hpml.
  { apply absent_or_list_cases in Hpl as [[Hpl _]|(p0 & Hpl & _)].
    - intros ->. specialize (Hpfresh Hpl).
      apply elems_at_alive in Hml as [? ?]. congruence.
    - rewrite (Hp0 p0 Hpl). congruence. }
  assert (list_of h1 c "plugins" = list_of h c "plugins" ++ added) as Hl1
    by (by apply (list_of_elems h1 c "plugins" p)).
  assert (forallb (valid h1) (list_of h1 c "plugins") = true) as Hval1.
  { rewrite Hl1, forallb_app. apply andb_true_intro. split.
    - by apply (grows_forall_valid h).
    - destruct (existsb (is_checker h) (list_of h c "plugins")).
      + by subst added.
      + destruct Hadded as (k & -> & _ & Hk). cbn [forallb].
        by rewrite (is_checker_valid h1 (VRef k)). }
  assert (alive h1 al) as Hal1a by (unfold alive; rewrite Hal1; eauto).
  destruct (dedupeModules_steps h1 c ml names folder f) as
    (h2 & r2 & al2 & p2 & added2 & Hrun2 & Hm2 & _ & Hr2 & Hr02 & _ & Ha2
     & Hfresh2 & Hal2 & _).
  { solve_alive. }
  { unfold absent_or_object. rewrite Hr. cbn [truthy negb orb].
    by apply bool_decide_eq_true. }
  { rewrite Hr. cbn [fieldv]. rewrite Ha. by apply valid_alive. }
  { by rewrite Hmlkeep. }
  { done. }
  { unfold absent_or_list, is_list. rewrite Hp. cbn [truthy negb orb elems_of].
    rewrite Hps. apply bool_decide_eq_true. eauto. }
  { done. }
  pose proof (Hr02 r Hr) as ->.
  rewrite Hr in Hal2. cbn [fieldv] in Hal2. rewrite Ha in Hal2.
  unfold own_enumerable at 1 in Hal2. rewrite Hal1 in Hal2.
  cbn [internal own] in Hal2. rewrite union_absorb in Hal2.
  eexists h1, h2, r, al, al2, _.
  split; [done|]. split; [done|]. split; [done|]. split; [done|].
  split; [done|]. split; [done|].
  assert (al <> al2) as Hne by solve_ne.
  split; [done|]. split; [done|]. done.
Qed.

(** ** [useCss] *)

(** X15.  An options record of [useCss] that has a key with the value
    [undefined] does not get the default for it either.  With
    [imagePath: undefined] the two paths of the file loader are built from
    the text ['undefined'], and with [optimizeImages: undefined] the image
    loader is disabled, where the default would have it enabled. *)
Theorem useCss_given_undefined (h : heap) (c : loc) (options : val) :
  alive h c ->
  module_ok h c = true ->
  valid h options = true ->
  exists h' m ru css img u file image fo io,
    useCss object_to_string (VRef c) options h = (Ok tt, h') /\
    field h' c "module" = VRef m /\
    field h' m "rules" = VRef ru /\
    elems_at h' ru
    = Some (default [] (rules_of h c) ++ [VRef css; VRef img]) /\
    field h' img "use" = VRef u /\
    elems_at h' u = Some [VRef file; VRef image] /\
    field h' file "options" = VRef fo /\
    field h' image "options" = VRef io /\
    (own_enumerable h options !! "imagePath" = Some VUndefined ->
     field h' fo "outputPath" = VString "undefined/" /\
     field h' fo "publicPath" = VString "/undefined/") /\
    (own_enumerable h options !! "imagePath" = None ->
     field h' fo "outputPath" = VString "images/" /\
     field h' fo "publicPath" = VString "/images/") /\
    (own_enumerable h options !! "optimizeImages" = Some VUndefined ->
     field h' io "disable" = VBool true) /\
    (own_enumerable h options !! "optimizeImages" = None ->
     field h' io "disable" = VBool false).
Proof.
  intros Hc Hok Hv.
  destruct (useCss_run h c options Hc Hok Hv)
    as (h' & oo & m & ru & css & img & u & file & image & fo & io & hm
        & Hrun & Hoo & Hoo' & Hcm & Hmr & Hru & _ & _ & Huse & Hu & _ & Hfo
        & _ & Hio & Hout & Hpub & Hdis & _ & Hm).
  assert (forall k,
            field h' oo k
            = default VUndefined
                ((own_enumerable h options ∪ css_defaults) !! k)) as Hf.
  { intros k. unfold field. by rewrite Hoo'. }
  destruct (merged_field _ _ _ Hf) as [Hgiven Hdflt].
  exists h', m, ru, css, img, u, file, image, fo, io.
  repeat (split; [done|]).
  split; [|split; [|split]].
  - intros Hk. rewrite (Hgiven _ _ Hk) in Hout, Hpub. by split.
  - intros Hk. rewrite (Hdflt _ Hk) in Hout, Hpub. by split.
  - intros Hk. by rewrite (Hgiven _ _ Hk) in Hdis.
  - intros Hk. by rewrite (Hdflt _ Hk) in Hdis.
Qed.

(** ** [fixZipPackage] on lists with other entries *)

Lemma isZipPlugin_comparable (h : heap) (v : val) :
  comparable h v = true ->
  isZipPlugin object_to_string v h = (Ok (is_zip h v), h).
Proof.
  unfold comparable. intros [Hp|Hv]%orb_prop; [by apply isZipPlugin_run|].
  by destruct v as [| |[]|s|].
Qed.

Lemma isZipPlugin_null (h : heap) :
  isZipPlugin object_to_string VNull h = (Throw TypeError, h).
Proof. reflexivity. Qed.

Lemma compare_comparable (h : heap) (a b : val) :
  comparable h a = true ->
  comparable h b = true ->
  (let* aIsZip := isZipPlugin object_to_string a in
   let* bIsZip := isZipPlugin object_to_string b in
   ret ((if aIsZip then 1 else 0) - (if bIsZip then 1 else 0))%Z) h
  = (Ok (key_num (is_zip h a) - key_num (is_zip h b))%Z, h).
Proof.
  intros Ha Hb. unfold bind.
  rewrite (isZipPlugin_comparable h a Ha), (isZipPlugin_comparable h b Hb).
  by destruct (is_zip h a), (is_zip h b).
Qed.

Lemma compare_null (h : heap) (a b : val) :
  (a = VNull \/ (comparable h a = true /\ b = VNull)) ->
  (let* aIsZip := isZipPlugin object_to_string a in
   let* bIsZip := isZipPlugin object_to_string b in
   ret ((if aIsZip then 1 else 0) - (if bIsZip then 1 else 0))%Z) h
  = (Throw TypeError, h).
Proof.
  intros [->|[Ha ->]]; [done|]. unfold bind.
  by rewrite (isZipPlugin_comparable h a Ha).
Qed.

Lemma run_sort_entries {B} (l : loc) (ps : list val) (K : val -> M B) h :
  elems_at h l = Some ps ->
  Forall (fun v => comparable h v = true)
    (filter (fun v => is_undefined v = false) ps) ->
  bind (array_sort (fun a b =>
          let* aIsZip := isZipPlugin object_to_string a in
          let* bIsZip := isZipPlugin object_to_string b in
          ret ((if aIsZip then 1 else 0) - (if bIsZip then 1 else 0))%Z)
          (VRef l)) K h
  = K (VRef l)
      (hset_elems l
         (partitioned (is_zip h) (filter (fun v => is_undefined v = false) ps)
          ++ filter (fun v => is_undefined v = true) ps) h).
Proof.
  intros Hl Hdef. unfold array_sort.
  rewrite bind_assoc. rewrite (run_array_elems l ps) by done.
  rewrite bind_assoc.
  erewrite bind_run; cycle 1.
  { apply (sort_by_partition (is_zip h) _ h
             (fun v => comparable h v = true)); [|exact Hdef].
    intros x y Hx Hy. by apply compare_comparable. }
  rewrite bind_assoc.
  rewrite (run_set_elems l ps) by done.
  by rewrite run_ret.
Qed.

(** X16.  [fixZipPackage] gets through a plugin list that holds
    [undefined], booleans or strings beside the plugins: the sort never
    hands [undefined] to the comparator and puts it last, after the
    packaging plugins, and the other values count as plugins of another
    kind. *)
Theorem fixZipPackage_other_entries (h : heap) (c a : loc) (ps : list val) :
  alive h c ->
  field h c "plugins" = VRef a ->
  elems_at h a = Some ps ->
  forallb (fun v => is_undefined v || comparable h v) ps = true ->
  exists h',
    fixZipPackage object_to_string (VRef c) h = (Ok tt, h') /\
    field h' c "plugins" = VRef a /\
    elems_at h' a
    = Some (partitioned (is_zip h)
              (filter (fun v => is_undefined v = false) ps)
            ++ filter (fun v => is_undefined v = true) ps).
Proof.
  intros Hc Ha Hps Hall.
  assert (Forall (fun v => comparable h v = true)
            (filter (fun v => is_undefined v = false) ps)) as Hdef.
  { apply Forall_forall. intros v [Hv Hin]%list_elem_of_filter.
    rewrite forallb_forall in Hall. apply list_elem_of_In in Hin.
    specialize (Hall v Hin). by rewrite Hv in Hall. }
  eexists. split.
  { rewrite <- bind_ret_r. unfold fixZipPackage. run.
    rewrite (run_sort_entries a ps) by done. run. reflexivity. }
  split; by hsimpl.
Qed.

Lemma sort_by_null (h : heap) (l : list val) :
  Forall (fun v => v = VNull \/ comparable h v = true) l ->
  VNull ∈ l ->
  2 <= length l ->
  sort_by (fun a b =>
     let* aIsZip := isZipPlugin object_to_string a in
     let* bIsZip := isZipPlugin object_to_string b in
     ret ((if aIsZip then 1 else 0) - (if bIsZip then 1 else 0))%Z) l h
  = (Throw TypeError, h).
Proof.
  set (cmp := fun a b : val => _).
  assert (forall a b, a = VNull \/ (comparable h a = true /\ b = VNull) ->
            cmp a b h = (Throw TypeError, h)) as Hthrow.
  { intros a b Hab. by apply compare_null. }
  assert (forall a b, comparable h a = true -> comparable h b = true ->
            cmp a b h = (Ok (key_num (is_zip h a) - key_num (is_zip h b))%Z, h))
    as Hcmp.
  { intros a b Ha Hb. by apply compare_comparable. }
  clearbody cmp.
  induction l as [|x xs IH]; intros Hall Hin Hlen; [by cbn in Hlen; lia|].
  apply Forall_cons in Hall as [Hx Hxs]. cbn [sort_by].
  destruct (decide (VNull ∈ xs)) as [Hnull|Hnull].
  - destruct xs as [|y [|z xs]]; [by apply elem_of_nil in Hnull| |].
    + (* the rest is the one entry [null] *)
      apply list_elem_of_singleton in Hnull as <-.
      rewrite (bind_run _ _ h [VNull] h) by reflexivity.
      cbn [insert_by]. apply bind_throw. apply Hthrow.
      destruct Hx as [->|Hx]; [by left|by right].
    + apply bind_throw. apply IH; [done..|cbn; lia].
  - assert (x = VNull) as ->.
    { apply elem_of_cons in Hin as [->|Hin]; [done|by destruct Hnull]. }
    assert (Forall (fun v => comparable h v = true) xs) as Hok.
    { apply Forall_forall. intros v Hv.
      rewrite Forall_forall in Hxs. destruct (Hxs v Hv) as [->|?]; [|done].
      by destruct Hnull. }
    rewrite (bind_run _ _ h (partitioned (is_zip h) xs) h)
      by (by apply (sort_by_partition (is_zip h) cmp h
                      (fun v => comparable h v = true))).
    assert (partitioned (is_zip h) xs <> []) as Hne.
    { intros Hnil. apply (f_equal length) in Hnil.
      rewrite partitioned_length in Hnil. cbn in Hlen, Hnil. lia. }
    destruct (partitioned (is_zip h) xs) as [|y ys]; [done|].
    cbn [insert_by]. apply bind_throw. apply Hthrow. by left.
Qed.

(** X17.  A [null] among at least two entries that are not [undefined]
    makes [fixZipPackage] raise [TypeError]: the comparator reads
    [constructor] off it.  The list is left as it was. *)
Theorem fixZipPackage_null_entry (h : heap) (c a : loc) (ps : list val) :
  alive h c ->
  field h c "plugins" = VRef a ->
  elems_at h a = Some ps ->
  forallb (fun v => is_undefined v || comparable h v
                    || bool_decide (v = VNull)) ps = true ->
  VNull ∈ ps ->
  2 <= length (filter (fun v => is_undefined v = false) ps) ->
  fixZipPackage object_to_string (VRef c) h = (Throw TypeError, h).
Proof.
  intros Hc Ha Hps Hall Hin Hlen.
  unfold fixZipPackage. rewrite (run_get_prop c) by done.
  rewrite Ha. cbn [truthy negb]. rewrite (run_get_prop c) by done.
  rewrite Ha. apply bind_throw. unfold array_sort.
  rewrite (run_array_elems a ps) by done.
  apply bind_throw. apply sort_by_null; [|by apply list_elem_of_filter|done].
  apply Forall_forall. intros v [Hv Hvin]%list_elem_of_filter.
  rewrite forallb_forall in Hall. apply list_elem_of_In in Hvin.
  specialize (Hall v Hvin). rewrite Hv in Hall. cbn [orb] in Hall.
  apply orb_prop in Hall as [Hcmp|Hn]; [by right|].
  left. by apply bool_decide_eq_true in Hn.
Qed.

(** ** What [useCss] and [useTypescript] leave alone *)

(** X18.  [useCss] reads the options it is given and never writes to them:
    the call changes [config.module] and the list of rules, and every
    other object that was there, the options among them, is as it was. *)
Theorem useCss_footprint (h : heap) (c : loc) (options : val) :
  alive h c ->
  module_ok h c = true ->
  valid h options = true ->
  exists h' m ru,
    useCss object_to_string (VRef c) options h = (Ok tt, h') /\
    field h' c "module" = VRef m /\
    field h' m "rules" = VRef ru /\
    (forall k, k <> "module" -> field h' c k = field h c k) /\
    (forall l, alive h l -> l <> c -> l <> ru -> h' !! l = h !! l).
Proof.
  intros Hc Hok Hv.
  destruct (useCss_run h c options Hc Hok Hv)
    as (h' & oo & m & ru & css & img & u & file & image & fo & io & hm
        & Hrun & _ & _ & Hcm & Hmr & _ & _ & _ & _ & _ & _ & _ & _ & _ & _
        & _ & _ & _ & Hm).
  exists h', m, ru. split; [done|]. split; [done|]. split; [done|]. split.
  - intros k Hk. apply (modifies_field _ _ h h' c k Hm); [done|solve_notin].
  - intros l Hl Hlc Hlru.
    apply (modifies_lookup _ _ h h' l Hm); [done|solve_notin..].
Qed.

(** X19.  [useTypescript] never writes to its options either, nor to the
    lists they hold.  Of the objects that were there it changes the
    configuration, its [resolve] record, the list of extensions and the
    list of rules, and of a configuration that is not its own [resolve]
    record only [resolve], [entry] and [module]. *)
Theorem useTypescript_footprint (h : heap) (c : loc) (options : val)
    (dir : string) (paths : list string) (dirs : list val) :
  alive h c ->
  context_dir h c = Some dir ->
  valid h options = true ->
  resolve_ok h c = true ->
  module_ok h c = true ->
  search_paths path_resolve h c options = Some paths ->
  module_dirs h c options = Some dirs ->
  exists h' r ext m ru,
    useTypescript path_resolve getEntries (VRef c) options h = (Ok tt, h') /\
    field h' c "resolve" = VRef r /\
    field h' r "extensions" = VRef ext /\
    field h' c "module" = VRef m /\
    field h' m "rules" = VRef ru /\
    (forall k, r <> c -> k <> "resolve" -> k <> "entry" -> k <> "module" ->
               field h' c k = field h c k) /\
    (forall l, alive h l -> l <> c -> l <> r -> l <> ext -> l <> ru ->
               h' !! l = h !! l).
Proof.
  intros Hc Hdir Hv Hres Hok Hpaths Hdirs.
  destruct (useTypescript_steps h c options dir paths dirs
              Hc Hdir Hv Hres Hok Hpaths Hdirs)
    as (h' & oo & ep & mo & r & ext & mods & e & m & ru & old & r1 & r2 & u
        & loader & opts & Hrun & _ & _ & _ & _ & _ & _ & Hcr & _ & Hre & _
        & _ & _ & _ & _ & _ & _ & _ & Hcm & Hmr & _ & _ & _ & _ & _ & _ & _
        & _ & _ & _ & _ & Hm & _).
  exists h', r, ext, m, ru. split; [done|]. split; [done|].
  split; [done|]. split; [done|]. split; [done|]. split.
  - intros k H0 H1 H2 H3.
    apply (modifies_field _ _ h h' c k Hm); [done|solve_notin].
  - intros l Hl H1 H2 H3 H4.
    apply (modifies_lookup _ _ h h' l Hm); [done|solve_notin..].
Qed.

(** X20.  When [config.module] is a record whose [rules] is not a list,
    [useCss] raises [TypeError] at its first rule, and no object that was
    there has changed. *)
Theorem useCss_rules_missing (h : heap) (c m : loc) (options : val) :
  alive h c ->
  valid h options = true ->
  field h c "module" = VRef m ->
  alive h m ->
  valid h (field h m "rules") = true ->
  elems_of h (field h m "rules") = None ->
  fieldv h (field h m "rules") "push" = VUndefined ->
  exists h',
    useCss object_to_string (VRef c) options h = (Throw TypeError, h') /\
    (forall l, alive h l -> h' !! l = h !! l).
Proof.
  intros Hc Hvo Hcm Hm Hv He _. unfold useCss.
  destruct (merge_options_unit css_defaults options h Hvo)
    as (h1 & oo & Hrun1 & Hm1 & Hoo & Hoo1 & Hfield).
  unfold css_defaults in Hrun1. run_eq Hrun1.
  assert (field h1 c "module" = VRef m) as Hcm1.
  { rewrite <- Hcm. apply (modifies_field _ _ h h1 c _ Hm1); [done|].
    apply not_elem_of_nil. }
  assert (field h1 m "rules" = field h m "rules") as Hmr1.
  { apply (modifies_field _ _ h h1 m _ Hm1); [done|apply not_elem_of_nil]. }
  assert (alive h1 c) as Hc1 by solve_alive.
  assert (alive h1 m) as Hm1' by solve_alive.
  assert (valid h1 (field h m "rules") = true) as Hv1.
  { eapply grows_valid; [by eapply modifies_grows|done]. }
  assert (elems_of h1 (field h m "rules") = None) as He1.
  { destruct (field h m "rules") as [| | | |a] eqn:Ea; try done.
    cbn [elems_of valid] in *. apply bool_decide_eq_true in Hv.
    change (alive h a) in Hv. rewrite <- He.
    apply (modifies_elems _ _ h h1 a Hm1); [done|apply not_elem_of_nil]. }
  assert (forall l, alive h l -> h1 !! l = h !! l) as Hsame.
  { intros l Hl. apply (modifies_lookup _ _ h h1 l Hm1); [done|..];
      apply not_elem_of_nil. }
  clear Hrun1 Hm1 Hoo Hoo1 Hfield.
  unfold init_module, push_rule, default_prop, css_rule.
  run.
  eexists. split.
  { apply bind_throw, push_throw; [solve_valid|].
    destruct (field h m "rules") as [| | | |a] eqn:Ea; try done.
    cbn [elems_of valid] in *. apply bool_decide_eq_true in Hv1.
    change (alive h1 a) in Hv1. by hsimpl. }
  intros x Hx. rewrite <- (Hsame x Hx).
  assert (alive h1 x) as Hx1.
  { destruct Hx as [o Ho]. exists o. by rewrite Hsame by by eexists. }
  by hsimpl.
Qed.

(** X21.  When [config.module] is a record whose [rules] is not a list,
    [useTypescript] raises [TypeError] at its first rule.  By then it has
    replaced [config.entry]; [config.module] is as it was. *)
Theorem useTypescript_rules_missing (h : heap) (c m : loc) (options : val)
    (dir : string) (paths : list string) (dirs : list val) :
  alive h c ->
  context_dir h c = Some dir ->
  valid h options = true ->
  resolve_ok h c = true ->
  search_paths path_resolve h c options = Some paths ->
  module_dirs h c options = Some dirs ->
  field h c "module" = VRef m ->
  alive h m ->
  valid h (field h m "rules") = true ->
  elems_of h (field h m "rules") = None ->
  fieldv h (field h m "rules") "push" = VUndefined ->
  exists h' e,
    useTypescript path_resolve getEntries (VRef c) options h
    = (Throw TypeError, h') /\
    field h' c "entry" = VRef e /\
    h' !! e = Some (getEntries (entry_globs path_resolve paths)) /\
    field h' c "module" = VRef m /\
    field h' m "rules" = field h m "rules".
Proof.
  intros Hc Hdir Hvo Hres Hpaths Hdirs Hcm Hm Hv He _.
  destruct (useTypescript_prefix h c options dir paths dirs
              Hc Hdir Hvo Hres Hpaths Hdirs)
    as (h1 & h2 & h3 & h4 & oo & ep & mo & r & ext & a3 & e & Hrun & Hm1
        & Hm2 & Hm3 & Hm4 & Hm02 & Hm03 & Hm04 & Hm24 & Hoo & Hep & Hmo
        & Hoo1 & Hooc & Hoor & Hfield2 & Hep1 & Hmo1 & Hep2 & Hmo2 & Hcr
        & Hpr0 & Hrext & Hpext0 & Hext2 & Ha3 & Hrmods3 & Hel3 & He3 & Hce
        & He4).
  rewrite Hrun.
  assert (field h4 c "module" = VRef m) as Hcm4.
  { rewrite <- Hcm. apply (modifies_field _ _ h h4 c _ Hm04); [done|].
    solve_notin. }
  assert (field h4 m "rules" = field h m "rules") as Hmr4.
  { apply (modifies_field _ _ h h4 m _ Hm04); [done|solve_notin]. }
  assert (alive h4 c) as Hc4 by exact (modifies_alive _ _ h h4 c Hm04 Hc).
  assert (alive h4 m) as Hm4' by exact (modifies_alive _ _ h h4 m Hm04 Hm).
  assert (alive h4 oo) as Hoo4.
  { apply (modifies_alive _ _ h2 h4 oo Hm24).
    apply (modifies_alive _ _ h1 h2 oo Hm2). by eexists. }
  assert (alive h4 e) as He4' by by eexists.
  assert (valid h4 (field h m "rules") = true) as Hv4.
  { eapply grows_valid; [exact (modifies_grows _ _ h h4 Hm04)|done]. }
  assert (elems_of h4 (field h m "rules") = None) as He4''.
  { destruct (field h m "rules") as [| | | |a] eqn:Ea; try done.
    cbn [elems_of valid] in *. apply bool_decide_eq_true in Hv.
    change (alive h a) in Hv. rewrite <- He.
    apply (modifies_elems _ _ h h4 a Hm04); [done|].
    apply not_elem_of_cons. split; [|apply not_elem_of_nil].
    intros ->. destruct Hpext0 as [[_ Hf]|[Hf Hal]].
    - destruct Hv. congruence.
    - destruct (extensions_of_list h c ext Hres Hf) as [es Hes].
      congruence. }
  clear Hrun Hm1 Hm2 Hm3 Hm4 Hm02 Hm03 Hm04 Hm24 Hoo1 Hfield2 Hep1 Hmo1 Hep2
    Hmo2 Hcr Hpr0 Hrext Hpext0 Hext2 Ha3 Hrmods3 Hel3 He3.
  unfold typescript_rules, init_module, push_rule, default_prop.
  run.
  eexists _, e. split.
  { apply bind_throw, push_throw; [solve_valid|].
    destruct (field h m "rules") as [| | | |a] eqn:Ea; try done.
    cbn [elems_of valid] in *. apply bool_decide_eq_true in Hv4.
    change (alive h4 a) in Hv4. by hsimpl. }
  split; [by hsimpl|]. split; [by hsimpl|]. split; by hsimpl.
Qed.

End Claims.

(** * Counterexamples and witnesses *)

(** C2 as stated fails: the empty string is a single value that is not a
    list, and [useExternal] replaces it by the new mapping instead of
    making the two-element list of the old value and the mapping. *)
Lemma useExternal_empty_string_externals :
  field h_empty_externals 1%positive "externals" = VString "" /\
  is_list h_empty_externals (VString "") = false /\
  exists h',
    useExternal ots_default (VRef 1%positive) (VRef 2%positive)
      h_empty_externals
    = (Ok tt, h') /\
    ~ exists b new,
        field h' 1%positive "externals" = VRef b /\
        elems_at h' b = Some [VString ""; new].
Proof.
  split; [by vm_compute|]. split; [by vm_compute|].
  eexists. split; [vm_compute; reflexivity|].
  intros (b & new & Hb & He). vm_compute in Hb. injection Hb as <-.
  vm_compute in He. discriminate.
Qed.

(** C3 as stated fails: a plugin list that already holds two checkers
    holds two after both calls. *)
Lemma dedupeModules_keeps_two_checkers :
  length (checkers h_two_checkers 1%positive) = 2 /\
  exists h1 h2,
    dedupeModules join_slash join_slash ots_default
      (VRef 1%positive) (VRef 5%positive) VUndefined h_two_checkers
    = (Ok tt, h1) /\
    dedupeModules join_slash join_slash ots_default
      (VRef 1%positive) (VRef 5%positive) VUndefined h1
    = (Ok tt, h2) /\
    length (checkers h2 1%positive) = 2.
Proof.
  split; [by vm_compute|]. eexists _, _.
  split; [vm_compute; reflexivity|]. split; [vm_compute; reflexivity|].
  by vm_compute.
Qed.

(** C7 as stated fails: on a [module] record that has no [rules] list,
    [useSourceMap] raises [TypeError] instead of making the list. *)
Lemma useSourceMap_module_without_rules :
  field h_module_without_rules 1%positive "module" = VRef 2%positive /\
  field h_module_without_rules 2%positive "rules" = VUndefined /\
  (useSourceMap (VRef 1%positive) (VBool true) h_module_without_rules).1
  = Throw TypeError.
Proof. by vm_compute. Qed.


(** C5 as stated fails: on a [module] record that has no [rules] list the
    call for a development build raises [TypeError], and no rule is
    appended: there is no list of rules afterwards either. *)
Lemma useSourceMap_appends_no_rule :
  exists h',
    useSourceMap (VRef 1%positive) (VBool true) h_module_without_rules
    = (Throw TypeError, h') /\
    field h' 1%positive "devtool" = VString "cheap-module-source-map" /\
    rules_of h' 1%positive = None.
Proof. eexists. split; [by vm_compute|]. by vm_compute. Qed.

(** The theorems at example configurations. *)

Lemma fixZipPackage_moves_zip_plugins_last_witness :
  exists h',
    fixZipPackage ots_default (VRef 1%positive) h_plugins = (Ok tt, h') /\
    elems_at h' 2%positive
    = Some [VRef 4%positive; VRef 3%positive; VRef 5%positive].
Proof.
  destruct (fixZipPackage_moves_zip_plugins_last ots_default h_plugins
              1%positive) as [_ H]; [by eexists|].
  destruct (H 2%positive [VRef 3%positive; VRef 4%positive; VRef 5%positive])
    as (h' & ps' & Hrun & _); [by vm_compute..|].
  exists h'. split; [exact Hrun|].
  vm_compute in Hrun. injection Hrun as <-. by vm_compute.
Defined.


Lemma dedupeModules_alias_precedence_witness :
  exists h' r al merged,
    dedupeModules join_slash join_slash ots_default
      (VRef 1%positive) (VRef 4%positive) VUndefined h_aliases
    = (Ok tt, h') /\
    field h' 1%positive "resolve" = VRef r /\
    field h' r "alias" = VRef al /\
    h' !! al = Some (Obj ObjectC SNone merged) /\
    merged !! "react"
    = Some (alias_path join_slash join_slash "./node_modules" "react") /\
    merged !! "lodash"
    = Some (alias_path join_slash join_slash "./node_modules" "lodash") /\
    merged !! "jquery" = Some (VString "/custom/jquery").
Proof.
  destruct (dedupeModules_alias_precedence join_slash join_slash ots_default
              h_aliases 1%positive 4%positive ["lodash"; "react"]
              VUndefined "./node_modules")
    as (h' & r & al & merged & Hrun & Hcr & Hra & _ & Hal & _ & _ & Hnew
        & Hold & _);
    [by eexists|by vm_compute..|].
  exists h', r, al, merged. split; [exact Hrun|]. split; [exact Hcr|].
  split; [exact Hra|]. split; [exact Hal|]. split; [|split].
  - apply Hnew; [|discriminate].
    apply list_elem_of_further, list_elem_of_here.
  - apply Hnew; [|discriminate]. apply list_elem_of_here.
  - rewrite Hold; [by vm_compute|].
    intros Hin. apply list_elem_of_In in Hin. cbn in Hin.
    destruct Hin as [Hin|[Hin|[]]]; discriminate.
Defined.

Lemma dedupeModules_twice_adds_one_checker_witness :
  exists h1 h2,
    dedupeModules join_slash join_slash ots_default
      (VRef 1%positive) (VRef 3%positive) VUndefined h_bare = (Ok tt, h1) /\
    dedupeModules join_slash join_slash ots_default
      (VRef 1%positive) (VRef 3%positive) VUndefined h1 = (Ok tt, h2) /\
    length (checkers h2 1%positive) = 1.
Proof.
  destruct (dedupeModules_twice_adds_one_checker join_slash join_slash
              ots_default h_bare 1%positive 3%positive
              ["lodash"; "react"; "lodash"] VUndefined "./node_modules")
    as (h1 & h2 & Hrun1 & Hrun2 & _ & _ & Hone);
    [by eexists|by vm_compute..|].
  exists h1, h2. split; [done|]. split; [done|].
  apply Hone. vm_compute. lia.
Defined.

Lemma useExternal_merges_externals_witness :
  exists h' ext,
    useExternal ots_default (VRef 1%positive) (VRef 2%positive) h_bare
    = (Ok tt, h') /\
    field h' 1%positive "externals" = VRef ext /\
    h' !! ext = Some (Obj ObjectC SNone {[ "jquery" := VString "jQuery" ]}).
Proof.
  destruct (useExternal_merges_externals ots_default h_bare 1%positive
              2%positive "jquery")
    as (h' & ext & Hrun & _ & Hext & Hmerge);
    [by eexists|by vm_compute..|].
  exists h', ext. split; [done|]. split; [exact Hmerge|exact Hext].
Defined.

Lemma useExternal_empty_path_copies_nothing_witness :
  exists h' p,
    useExternal ots_default (VRef 1%positive) (VRef 2%positive) h_bare
    = (Ok tt, h') /\
    field h' 1%positive "plugins" = VRef p /\
    elems_at h' p = Some [].
Proof.
  destruct (useExternal_empty_path_copies_nothing ots_default h_bare
              1%positive 2%positive "jquery")
    as (h' & ext & p & added & Hrun & Hp & Hes & Hempty & _);
    [by eexists|by vm_compute..|].
  exists h', p. split; [done|]. split; [done|].
  rewrite Hes, Hempty; [done|]. left. by vm_compute.
Defined.

Lemma useSourceMap_devtool_and_rule_witness :
  exists h',
    useSourceMap (VRef 1%positive) (VBool true) h_bare = (Ok tt, h') /\
    field h' 1%positive "devtool" = VString "cheap-module-source-map".
Proof.
  destruct (useSourceMap_devtool_and_rule h_bare 1%positive)
    as [(h' & Hrun & Hdev & _) _]; [by eexists|by vm_compute|].
  by exists h'.
Defined.

Lemma options_override_defaults_witness :
  (exists h' oo,
      useCss ots_default (VRef 1%positive) (VRef 2%positive) h_given_options
      = (Ok tt, h') /\
      field h' oo "imagePath" = VString "img" /\
      field h' oo "optimizeImages" = VBool true /\
      h' !! 2%positive = h_given_options !! 2%positive) /\
  (exists h' oo ep,
      useTypescript join_slash entries_of (VRef 1%positive) (VRef 2%positive)
        h_given_options = (Ok tt, h') /\
      field h' oo "tsConfigFile" = VString "tsconfig.app.json" /\
      field h' oo "entryPaths" = VRef ep /\
      elems_at h' ep = Some [VString "app/**"]).
Proof.
  destruct (options_override_defaults join_slash entries_of ots_default
              h_given_options 1%positive (VRef 2%positive))
    as [(h' & oo & m & ru & css & img & u & file & image & fo & io & Hrun
         & _ & _ & Hgiven & Hdflt & Hcm & Hmr & _ & _ & _ & _ & _ & _ & _
         & Hrest) Hts];
    [by eexists|by vm_compute..|].
  split.
  - exists h', oo. split; [exact Hrun|]. split; [|split].
    + apply Hgiven. by vm_compute.
    + rewrite Hdflt; by vm_compute.
    + apply Hrest; [by eexists|discriminate|].
      vm_compute in Hrun. injection Hrun as <-. vm_compute in Hcm.
      injection Hcm as <-. vm_compute in Hmr. injection Hmr as <-.
      discriminate.
  - destruct (Hts "app" ["app/**"] [VString "./node_modules"])
      as (h2 & oo2 & ep & mo & r & ext & mods & e & m2 & ru2 & old & r1 & r2
          & u2 & loader & opts & Hrun2 & _ & _ & _ & Hep & _ & Hgiven2
          & Hdflt2 & _);
      [by vm_compute..|].
    exists h2, oo2, ep. split; [exact Hrun2|]. split; [|split].
    + apply Hgiven2. by vm_compute.
    + rewrite Hdflt2; by vm_compute.
    + exact Hep.
Defined.

Lemma useTypescript_replaces_entry_witness :
  exists h' e,
    useTypescript join_slash entries_of (VRef 1%positive) VUndefined h_bare
    = (Ok tt, h') /\
    field h' 1%positive "entry" = VRef e /\
    h' !! e = Some (entries_of (entry_globs join_slash ["app/**"])).
Proof.
  destruct (useTypescript_replaces_entry join_slash entries_of h_bare
              1%positive VUndefined "app" ["app/**"]
              [VString "./node_modules"])
    as (h' & e & Hrun & Hce & _ & He & _);
    [by eexists|by vm_compute..|].
  exists h', e. split; [exact Hrun|]. split; [exact Hce|exact He].
Defined.

Lemma absent_containers_are_initialised_witness :
  exists h' m ru r,
    useSourceMap (VRef 1%positive) (VBool true) h_bare = (Ok tt, h') /\
    field h' 1%positive "module" = VRef m /\
    field h' m "rules" = VRef ru /\
    h_bare !! m = None /\
    h_bare !! ru = None /\
    elems_at h' ru = Some [VRef r].
Proof.
  destruct (absent_containers_are_initialised join_slash join_slash
              entries_of ots_default h_bare 1%positive)
    as [(h' & m & ru & r & Hrun & Hcm & Hmr & _ & Hnew & _) _];
    [by eexists|by vm_compute..|].
  destruct Hnew as (Hm & Hr & Hru); [by vm_compute|].
  exists h', m, ru, r. split; [exact Hrun|]. split; [exact Hcm|].
  split; [exact Hmr|]. split; [exact Hm|]. split; [exact Hr|exact Hru].
Defined.

(** The further properties at example configurations. *)

Lemma fixZipPackage_idempotent_witness :
  exists h1,
    fixZipPackage ots_default (VRef 1%positive) h_plugins = (Ok tt, h1) /\
    fixZipPackage ots_default (VRef 1%positive) h1 = (Ok tt, h1).
Proof.
  destruct (fixZipPackage_idempotent ots_default h_plugins 1%positive
              2%positive [VRef 3%positive; VRef 4%positive; VRef 5%positive])
    as (h1 & Hrun & _ & Hagain); [by eexists|by vm_compute..|].
  exists h1. split; [exact Hrun|exact Hagain].
Defined.

Lemma fixZipPackage_not_a_list_witness :
  fixZipPackage ots_default (VRef 1%positive) h_plugins_record
  = (Throw TypeError, h_plugins_record).
Proof.
  apply (fixZipPackage_not_a_list ots_default h_plugins_record 1%positive);
    [by eexists|by vm_compute..].
Defined.

Lemma useSourceMap_production_only_devtool_witness :
  exists h',
    useSourceMap (VRef 1%positive) (VBool false) h_bare = (Ok tt, h') /\
    field h' 1%positive "devtool" = VString "source-map" /\
    h' !! 2%positive = h_bare !! 2%positive.
Proof.
  destruct (useSourceMap_production_only_devtool h_bare 1%positive
              (VBool false))
    as (h' & Hrun & Hdev & _ & _ & _ & Hrest); [by eexists|reflexivity|].
  exists h'. split; [exact Hrun|]. split; [exact Hdev|].
  apply Hrest. discriminate.
Defined.

Lemma useSourceMap_twice_two_rules_witness :
  exists h1 h2 r1 r2,
    useSourceMap (VRef 1%positive) (VBool true) h_bare = (Ok tt, h1) /\
    useSourceMap (VRef 1%positive) (VBool true) h1 = (Ok tt, h2) /\
    rules_of h2 1%positive = Some [VRef r1; VRef r2] /\
    r1 <> r2.
Proof.
  destruct (useSourceMap_twice_two_rules h_bare 1%positive)
    as (h1 & h2 & r1 & r2 & Hrun1 & Hrun2 & Hrules & Hne & _);
    [by eexists|by vm_compute|].
  exists h1, h2, r1, r2. split; [exact Hrun1|]. split; [exact Hrun2|].
  split; [exact Hrules|exact Hne].
Defined.

Lemma useSourceMap_rules_missing_witness :
  exists h',
    useSourceMap (VRef 1%positive) (VBool true) h_module_without_rules
    = (Throw TypeError, h') /\
    field h' 1%positive "devtool" = VString "cheap-module-source-map".
Proof.
  destruct (useSourceMap_rules_missing h_module_without_rules 1%positive
              2%positive)
    as (h' & Hrun & Hdev & _); [by eexists|by vm_compute|by eexists
                                |by vm_compute..|].
  exists h'. split; [exact Hrun|exact Hdev].
Defined.

Lemma useTypescript_extends_and_replaces_witness :
  exists h' mods,
    useTypescript join_slash entries_of (VRef 1%positive) VUndefined
      h_resolve = (Ok tt, h') /\
    field h' 2%positive "extensions" = VRef 3%positive /\
    elems_at h' 3%positive
    = Some [VString ".js"; VString ".ts"; VString ".tsx"] /\
    field h' 2%positive "modules" = VRef mods /\
    h_resolve !! mods = None /\
    elems_at h' mods = Some [VString "src"; VString "./node_modules"] /\
    elems_at h' 4%positive = Some [VString "src"].
Proof.
  destruct (useTypescript_extends_and_replaces join_slash entries_of
              h_resolve 1%positive 2%positive 3%positive [VString ".js"]
              VUndefined "app" ["app/**"] [VString "./node_modules"])
    as (h' & mods & Hrun & _ & Hre & Hext & Hrm & Hfresh & Hmods & Hkept);
    [by eexists|by vm_compute..|].
  exists h', mods. split; [exact Hrun|]. split; [exact Hre|].
  split; [exact Hext|]. split; [exact Hrm|]. split; [exact Hfresh|].
  split; [exact Hmods|].
  rewrite (Hkept 4%positive); [by vm_compute|by vm_compute|discriminate|].
  vm_compute. discriminate.
Defined.

Lemma useTypescript_modules_not_iterable_witness :
  exists h' r ext,
    useTypescript join_slash entries_of (VRef 1%positive) (VRef 2%positive)
      h_undefined_options
    = (Throw TypeError, h') /\
    field h' 1%positive "resolve" = VRef r /\
    field h' r "extensions" = VRef ext /\
    elems_at h' ext = Some [VString ".ts"; VString ".tsx"].
Proof.
  destruct (useTypescript_modules_not_iterable join_slash entries_of
              h_undefined_options 1%positive (VRef 2%positive) VUndefined
              "app")
    as (h' & r & ext & Hrun & Hcr & Hre & Hext & _);
    [by eexists|by vm_compute..|].
  exists h', r, ext. split; [exact Hrun|]. split; [exact Hcr|].
  split; [exact Hre|exact Hext].
Defined.

Lemma useExternal_copies_script_witness :
  exists h' k,
    useExternal ots_default (VRef 1%positive) (VRef 2%positive) h_external
    = (Ok tt, h') /\
    elems_at h' 3%positive = Some [VRef 4%positive; VRef k] /\
    class_at h' k = Some CopyPlugin.
Proof.
  destruct (useExternal_copies_script ots_default h_external 1%positive
              2%positive "jquery")
    as (h' & p & k & pats & pat & Hrun & Hp & Hes & _ & Hk & _);
    [by eexists|by vm_compute..|].
  exists h', k. split; [exact Hrun|]. split; [|exact Hk].
  vm_compute in Hrun. injection Hrun as <-. vm_compute in Hp.
  injection Hp as <-. exact Hes.
Defined.

Lemma useExternal_twice_makes_a_list_witness :
  exists h1 h2 e1 e2 b,
    useExternal ots_default (VRef 1%positive) (VRef 2%positive) h_bare
    = (Ok tt, h1) /\
    useExternal ots_default (VRef 1%positive) (VRef 2%positive) h1
    = (Ok tt, h2) /\
    field h2 1%positive "externals" = VRef b /\
    elems_at h2 b = Some [VRef e1; VRef e2].
Proof.
  destruct (useExternal_twice_makes_a_list ots_default h_bare 1%positive
              2%positive 2%positive "jquery" "jquery")
    as (h1 & h2 & e1 & e2 & b & Hrun1 & Hrun2 & _ & Hb & Hes & _);
    [by eexists|by vm_compute..|].
  exists h1, h2, e1, e2, b. split; [exact Hrun1|]. split; [exact Hrun2|].
  split; [exact Hb|exact Hes].
Defined.

Lemma fixZipPackage_after_useExternal_witness :
  exists h1 h2 k,
    useExternal ots_default (VRef 1%positive) (VRef 2%positive) h_external
    = (Ok tt, h1) /\
    fixZipPackage ots_default (VRef 1%positive) h1 = (Ok tt, h2) /\
    elems_at h2 3%positive = Some [VRef k; VRef 4%positive].
Proof.
  destruct (fixZipPackage_after_useExternal ots_default h_external
              1%positive 2%positive 3%positive "jquery" [VRef 4%positive])
    as (h1 & h2 & k & Hrun1 & _ & _ & _ & Hrun2 & _ & Hes);
    [by eexists|by vm_compute..|].
  exists h1, h2, k. split; [exact Hrun1|]. split; [exact Hrun2|exact Hes].
Defined.

Lemma dedupeModules_footprint_witness :
  exists h' p k,
    dedupeModules join_slash join_slash ots_default
      (VRef 1%positive) (VRef 3%positive) VUndefined h_bare = (Ok tt, h') /\
    field h' 1%positive "plugins" = VRef p /\
    elems_at h' p = Some [VRef k] /\
    h' !! 3%positive = h_bare !! 3%positive.
Proof.
  destruct (dedupeModules_footprint join_slash join_slash ots_default
              h_bare 1%positive 3%positive ["lodash"; "react"; "lodash"]
              VUndefined "./node_modules")
    as (h' & r & al & p & added & Hrun & _ & _ & _ & Hp & Hes & Hadded
        & Hrest);
    [by eexists|by vm_compute..|].
  destruct Hadded as (k & -> & _).
  exists h', p, k. split; [exact Hrun|]. split; [exact Hp|].
  split; [exact Hes|].
  vm_compute in Hrun. injection Hrun as <-. by vm_compute.
Defined.

Lemma dedupeModules_checker_by_identity_witness :
  exists h' k,
    dedupeModules join_slash join_slash ots_default
      (VRef 1%positive) (VRef 4%positive) VUndefined h_other_checker
    = (Ok tt, h') /\
    elems_at h' 2%positive = Some [VRef 3%positive; VRef k] /\
    is_checker h' (VRef k) = true.
Proof.
  destruct (dedupeModules_checker_by_identity join_slash join_slash
              ots_default h_other_checker 1%positive 4%positive 2%positive
              ["lodash"] VUndefined "./node_modules" [VRef 3%positive])
    as (h' & k & Hrun & _ & Hes & _ & Hk);
    [by eexists|by vm_compute..| |].
  - apply Forall_cons_2; [|apply Forall_nil_2].
    exists 3%positive, "DuplicatePackageCheckerPlugin", 1, ObjectC.
    by vm_compute.
  - exists h', k. split; [exact Hrun|]. split; [exact Hes|exact Hk].
Defined.

Lemma getDedupeAliases_name_not_a_string_witness :
  exists h',
    getDedupeAliases join_slash join_slash ots_default
      (VRef 1%positive) VUndefined h_null_name = (Throw TypeError, h') /\
    h' !! 1%positive = h_null_name !! 1%positive.
Proof.
  destruct (getDedupeAliases_name_not_a_string join_slash join_slash
              ots_default h_null_name 1%positive ["lodash"] VNull
              [VString "react"] VUndefined "./node_modules")
    as (h' & Hrun & Hrest); [by vm_compute|discriminate|by vm_compute|].
  exists h'. split; [exact Hrun|]. apply Hrest. by eexists.
Defined.

Lemma dedupeModules_twice_same_aliases_witness :
  exists h1 h2 al1 al2 merged,
    dedupeModules join_slash join_slash ots_default
      (VRef 1%positive) (VRef 3%positive) VUndefined h_bare = (Ok tt, h1) /\
    dedupeModules join_slash join_slash ots_default
      (VRef 1%positive) (VRef 3%positive) VUndefined h1 = (Ok tt, h2) /\
    al1 <> al2 /\
    h1 !! al1 = Some (Obj ObjectC SNone merged) /\
    h2 !! al2 = Some (Obj ObjectC SNone merged).
Proof.
  destruct (dedupeModules_twice_same_aliases join_slash join_slash
              ots_default h_bare 1%positive 3%positive
              ["lodash"; "react"; "lodash"] VUndefined "./node_modules")
    as (h1 & h2 & r & al1 & al2 & merged & Hrun1 & Hrun2 & _ & _ & _ & _
        & Hne & Hal1 & Hal2);
    [by eexists|by vm_compute..|].
  exists h1, h2, al1, al2, merged. split; [exact Hrun1|].
  split; [exact Hrun2|]. split; [exact Hne|]. split; [exact Hal1|exact Hal2].
Defined.

Lemma useCss_given_undefined_witness :
  exists h' fo io,
    useCss ots_default (VRef 1%positive) (VRef 2%positive)
      h_undefined_options = (Ok tt, h') /\
    field h' fo "outputPath" = VString "undefined/" /\
    field h' io "disable" = VBool true.
Proof.
  destruct (useCss_given_undefined ots_default h_undefined_options
              1%positive (VRef 2%positive))
    as (h' & m & ru & css & img & u & file & image & fo & io & Hrun & _ & _
        & _ & _ & _ & _ & _ & Hpath & _ & Hopt & _);
    [by eexists|by vm_compute..|].
  exists h', fo, io. split; [exact Hrun|]. split.
  - apply Hpath. by vm_compute.
  - apply Hopt. by vm_compute.
Defined.

Lemma fixZipPackage_other_entries_witness :
  exists h',
    fixZipPackage ots_default (VRef 1%positive) h_mixed_plugins
    = (Ok tt, h') /\
    elems_at h' 2%positive
    = Some [VString "copy"; VRef 4%positive; VRef 3%positive; VUndefined].
Proof.
  destruct (fixZipPackage_other_entries ots_default h_mixed_plugins
              1%positive 2%positive
              [VRef 3%positive; VUndefined; VString "copy"; VRef 4%positive])
    as (h' & Hrun & _ & Hes); [by eexists|by vm_compute..|].
  exists h'. split; [exact Hrun|]. rewrite Hes. by vm_compute.
Defined.

Lemma fixZipPackage_null_entry_witness :
  fixZipPackage ots_default (VRef 1%positive) h_null_plugin
  = (Throw TypeError, h_null_plugin).
Proof.
  apply (fixZipPackage_null_entry ots_default h_null_plugin 1%positive
           2%positive [VRef 3%positive; VNull]);
    [by eexists|by vm_compute..| |vm_compute; lia].
  apply list_elem_of_further, list_elem_of_here.
Defined.

Lemma useCss_footprint_witness :
  exists h',
    useCss ots_default (VRef 1%positive) (VRef 2%positive) h_bare
    = (Ok tt, h') /\
    field h' 1%positive "entry" = field h_bare 1%positive "entry".
Proof.
  destruct (useCss_footprint ots_default h_bare 1%positive (VRef 2%positive))
    as (h' & m & ru & Hrun & _ & _ & Hkeys & _);
    [by eexists|by vm_compute..|].
  exists h'. split; [exact Hrun|]. by apply Hkeys.
Defined.

Lemma useTypescript_footprint_witness :
  exists h' r ext ru,
    useTypescript join_slash entries_of (VRef 1%positive) (VRef 2%positive)
      h_bare = (Ok tt, h') /\
    (2%positive <> r -> 2%positive <> ext -> 2%positive <> ru ->
     h' !! 2%positive = h_bare !! 2%positive).
Proof.
  destruct (useTypescript_footprint join_slash entries_of h_bare 1%positive
              (VRef 2%positive) "app" ["app/**"] [VString "./node_modules"])
    as (h' & r & ext & m & ru & Hrun & _ & _ & _ & _ & _ & Hrest);
    [by eexists|by vm_compute..|].
  exists h', r, ext, ru. split; [exact Hrun|].
  intros H1 H2 H3. apply Hrest; [by eexists|discriminate|done..].
Defined.

Lemma useCss_rules_missing_witness :
  exists h',
    useCss ots_default (VRef 1%positive) VUndefined h_module_without_rules
    = (Throw TypeError, h') /\
    h' !! 2%positive = h_module_without_rules !! 2%positive.
Proof.
  destruct (useCss_rules_missing ots_default h_module_without_rules
              1%positive 2%positive VUndefined)
    as (h' & Hrun & Hrest);
    [solve [by eexists|by vm_compute]..|].
  exists h'. split; [exact Hrun|]. apply Hrest. by eexists.
Defined.

Lemma useTypescript_rules_missing_witness :
  exists h' e,
    useTypescript join_slash entries_of (VRef 1%positive) VUndefined
      h_module_without_rules = (Throw TypeError, h') /\
    field h' 1%positive "entry" = VRef e /\
    h' !! e = Some (entries_of (entry_globs join_slash ["app/**"])).
Proof.
  destruct (useTypescript_rules_missing join_slash entries_of
              h_module_without_rules 1%positive 2%positive VUndefined
              "app" ["app/**"] [VString "./node_modules"])
    as (h' & e & Hrun & Hce & He & _);
    [solve [by eexists|by vm_compute]..|].
  exists h', e. split; [exact Hrun|]. split; [exact Hce|exact He].
Defined.
